(** * gemini-mcp: request/response translation and resiliency layer

    A shallow embedding of the TypeScript sources of the Gemini MCP server
    and the properties stated about them.

    The embedding, one module per source file:
    - [Js]: the JavaScript primitives the sources use (strings, values of
      type [any], thrown values);
    - [Schemas]: the validation of the base64 upload source (schemas);
    - [Media]: the URL guard, [data:] URLs and the media fetcher
      (utils/media);
    - [Gemini]: the response normalizers, the two retry loops and the
      client operations (providers/gemini);
    - [Index]: the mapping of contents and messages and the embeddings
      tool (index).
    Then [Spec] holds the vocabulary of the statements, [Scenarios] the
    concrete inputs, and the modules [...Facts] the proofs.

    Conventions of the embedding.
    - A JavaScript string is a [string]: one [ascii] per code unit, so the
      model covers strings whose code units are below 256.
    - A JavaScript number that the code uses as a length, a status code, a
      delay or a token count is a [Z].
    - A function that can throw returns [Thrown + A]: [inl] is the thrown
      value, [inr] the returned one.
    - [async] functions are run to completion; what they do to the outside
      (requests sent, time slept) is recorded in an explicit world state,
      and what the outside answers is a function held by that state.
    - Functions of the runtime that the sources only call ([JSON.parse],
      [encodeURIComponent], the base64 codec of [Buffer], ...) are
      parameters of the sections that use them. *)

From Stdlib Require Import ZArith QArith List String Ascii Bool Lia DecimalString.
Import ListNotations.
Set Warnings "-register-all".
Local Open Scope string_scope.
Local Open Scope Z_scope.

(* ===================================================================== *)
(** ** JavaScript primitives used by the sources *)
(* ===================================================================== *)

Module Js.

(** [s.length] *)
Definition length (s : string) : Z := Z.of_nat (String.length s).

(** [s.startsWith(p)] *)
Definition startsWith (s p : string) : bool := String.prefix p s.

(** [s.endsWith(p)]: [p] is a suffix of [s]. *)
Fixpoint endsWith (s p : string) : bool :=
  (s =? p)%string ||
  match s with
  | EmptyString => false
  | String _ s' => endsWith s' p
  end.

(** [s.includes(p)]: [p] occurs somewhere in [s]. *)
Fixpoint includes (s p : string) : bool :=
  String.prefix p s ||
  match s with
  | EmptyString => false
  | String _ s' => includes s' p
  end.

(** White space and line terminators removed by [trim], among the code
    units below 256: TAB, LF, VT, FF, CR, SP and NBSP. *)
Definition isWhiteSpace (c : ascii) : bool :=
  let n := N_of_ascii c in
  ((9 <=? n) && (n <=? 13) || (n =? 32) || (n =? 160))%N.

Fixpoint trimStart (s : string) : string :=
  match s with
  | EmptyString => EmptyString
  | String c s' => if isWhiteSpace c then trimStart s' else s
  end.

Fixpoint trimEnd (s : string) : string :=
  match s with
  | EmptyString => EmptyString
  | String c s' =>
      match trimEnd s' with
      | EmptyString => if isWhiteSpace c then EmptyString else String c EmptyString
      | t => String c t
      end
  end.

(** [s.trim()] *)
Definition trim (s : string) : string := trimEnd (trimStart s).

(** The lower-case form of a code unit below 256: the letters A-Z and the
    Latin-1 capitals (192-222, the multiplication sign 215 apart). *)
Definition lowerChar (c : ascii) : ascii :=
  let n := N_of_ascii c in
  if ((65 <=? n) && (n <=? 90) ||
      (192 <=? n) && (n <=? 222) && negb (n =? 215))%N
  then ascii_of_N (n + 32) else c.

(** [s.toLowerCase()] *)
Fixpoint toLowerCase (s : string) : string :=
  match s with
  | EmptyString => EmptyString
  | String c s' => String (lowerChar c) (toLowerCase s')
  end.

(** [arr.join(sep)] on an array of strings. *)
Definition join (sep : string) (l : list string) : string := String.concat sep l.

(** A string is truthy when it is not empty. *)
Definition nonEmpty (s : string) : bool :=
  match s with EmptyString => false | _ => true end.

(** [String(n)] for an integer-valued number below 10^21 in absolute
    value, which is written with all its digits (from 10^21 on the
    runtime writes an exponent; no number here gets there). *)
Definition numberToString (n : Z) : string := NilZero.string_of_int (Z.to_int n).

(** [s.replace(pat, rep)] with a string pattern: the first occurrence. *)
Fixpoint replaceFirst (s pat rep : string) : string :=
  if String.prefix pat s then
    (rep ++ String.substring (String.length pat) (String.length s) s)%string
  else match s with
       | EmptyString => EmptyString
       | String c s' => String c (replaceFirst s' pat rep)
       end.

(** The separator ["\n\n"]: a line feed twice. *)
Definition blankLine : string :=
  String (ascii_of_N 10) (String (ascii_of_N 10) EmptyString).

(** The double quote, for messages that contain one. *)
Definition dq : string := String (ascii_of_N 34) EmptyString.

(** Values of type [any]: what [JSON.parse] can produce, and [undefined].
    Numbers are integer-valued in this model. An object is its list of
    own properties. *)
Inductive Value : Type :=
| Undefined
| Null
| Bool (b : bool)
| Number (n : Z)
| Str (s : string)
| Array (l : list Value)
| Object (fields : list (string * Value)).

(** Truthiness, as [Boolean(v)], [!v], [v || w] and [v ? a : b] read it. *)
Definition truthy (v : Value) : bool :=
  match v with
  | Undefined | Null => false
  | Bool b => b
  | Number n => negb (n =? 0)
  | Str s => nonEmpty s
  | Array _ | Object _ => true
  end.

(** [v || w] *)
Definition or (v w : Value) : Value := if truthy v then v else w.

Fixpoint lookup (k : string) (fields : list (string * Value)) : Value :=
  match fields with
  | [] => Undefined
  | (k', v) :: rest => if (k =? k')%string then v else lookup k rest
  end.

(** An error object: [name] and [message], and the properties the code
    attaches to it afterwards. *)
Record Error : Type := mkError {
  name : string;
  message : string;
  attached : list (string * Value)
}.

(** What a [throw] can carry: an [Error] instance or any other value. *)
Inductive Thrown : Type :=
| ThrowError (e : Error)
| ThrowValue (v : Value).

(** [new Error(msg)] *)
Definition newError (msg : string) : Thrown := ThrowError (mkError "Error" msg []).

(** [new TypeError(msg)], raised by the engine on a property read of
    [null] or [undefined]. *)
Definition typeError (msg : string) : Thrown := ThrowError (mkError "TypeError" msg []).

(** [v.k] for a data property [k] of a parsed JSON value: it throws on
    [undefined] and [null], reads the property of an object, and is
    [undefined] on the other values (whose prototypes carry no data
    property apart from [length], which the sources never read on an
    [any]). *)
Definition getProp (v : Value) (k : string) : Thrown + Value :=
  match v with
  | Undefined => inl (typeError ("Cannot read properties of undefined (reading '" ++ k ++ "')"))
  | Null => inl (typeError ("Cannot read properties of null (reading '" ++ k ++ "')"))
  | Object fields => inr (lookup k fields)
  | _ => inr Undefined
  end.

(** [v?.k] *)
Definition getPropOpt (v : Value) (k : string) : Value :=
  match v with
  | Object fields => lookup k fields
  | _ => Undefined
  end.

(** [String(v)], the conversion a template literal applies. *)
Fixpoint toStr (v : Value) : string :=
  match v with
  | Undefined => "undefined"
  | Null => "null"
  | Bool true => "true"
  | Bool false => "false"
  | Number n => numberToString n
  | Str s => s
  | Array l =>
      join "," (map (fun x => match x with
                              | Undefined | Null => ""
                              | _ => toStr x
                              end) l)
  | Object _ => "[object Object]"
  end.

(** [String(e)] for a thrown value: [Error.prototype.toString] joins the
    name and the message. *)
Definition thrownToString (t : Thrown) : string :=
  match t with
  | ThrowError e =>
      if negb (nonEmpty (name e)) then message e
      else if negb (nonEmpty (message e)) then name e
      else name e ++ ": " ++ message e
  | ThrowValue v => toStr v
  end.

End Js.

(* ===================================================================== *)
(** ** schemas: validation of the base64 upload source *)
(* ===================================================================== *)

Module Schemas.

(** The character class [[A-Za-z0-9+/]]. *)
Definition isBase64Char (c : ascii) : bool :=
  let n := N_of_ascii c in
  ((65 <=? n) && (n <=? 90) || (97 <=? n) && (n <=? 122) ||
   (48 <=? n) && (n <=? 57) || (n =? 43) || (n =? 47))%N.

Definition isEq (c : ascii) : bool := (c =? "=")%char.

(** [base64Regex.test(s)] for
    [/^(?:[A-Za-z0-9+/]{4})*(?:[A-Za-z0-9+/]{2}==|[A-Za-z0-9+/]{3}=)?$/]:
    groups of four alphabet characters, the last group possibly padded.
    As [=] is outside the alphabet a group is read in one way only. This
    is the answer of the call when the engine gives one; the call can
    also throw, for which see [parseSourceBase64] below. *)
Fixpoint base64Regex (s : string) : bool :=
  match s with
  | EmptyString => true
  | String a (String b (String c (String d rest))) =>
      if isBase64Char a && isBase64Char b && isBase64Char c && isBase64Char d
      then base64Regex rest
      else isBase64Char a && isBase64Char b &&
           (isEq c && isEq d || isBase64Char c && isEq d) &&
           negb (Js.nonEmpty rest)
  | _ => false
  end.

(** [const MAX_UPLOAD_BYTES = 50 * 1024 * 1024] *)
Definition MAX_UPLOAD_BYTES : Z := 50 * 1024 * 1024.

(** [approximateBase64DecodedBytes]: [Math.floor((len * 3) / 4) - padding]. *)
Definition approximateBase64DecodedBytes (b64 : string) : Z :=
  let len := Js.length b64 in
  let padding := if Js.endsWith b64 "==" then 2
                 else if Js.endsWith b64 "=" then 1 else 0 in
  (len * 3) / 4 - padding.

(** The issues [SourceBase64Schema] reports on [{ base64: b64 }], in the
    order zod adds them: the string checks [regex] and [min(4)], then the
    two tests of [superRefine] (a failed string check does not stop the
    refinement). The value is accepted when the list is empty. *)
Definition SourceBase64Schema (b64 : string) : list string :=
  (if base64Regex b64 then [] else ["Invalid base64 content."]) ++
  (if 4 <=? Js.length b64 then [] else ["String must contain at least 4 character(s)"]) ++
  (let bytes := approximateBase64DecodedBytes b64 in
   (if bytes <=? 0 then ["Base64 payload is empty."] else []) ++
   (if bytes >? MAX_UPLOAD_BYTES then ["Base64 payload exceeds 50 MiB (decoded)."] else [])).

Definition accepts (b64 : string) : bool :=
  match SourceBase64Schema b64 with [] => true | _ => false end.

(** *** The regular expression engine

    [base64Regex.test(s)] is run by the engine of the runtime, which
    matches by backtracking: the loop over the groups of four characters
    leaves entries on the engine's backtrack stack, and when that stack
    is full the call throws a [RangeError] instead of answering.
    [base64Regex] above is the answer of the engine when it answers;
    [SourceBase64Schema] above lists the issues in that case. On which
    strings the engine throws is a property of the runtime, so the call
    is a parameter here. *)
Section Engine.

(** [base64Regex.test(s)]: an answer, or what the engine throws. *)
Variable test : string -> Js.Thrown + bool.

(** [SourceBase64Schema.parse({ base64: b64 })] up to the list of issues:
    zod calls [regex.test] without a handler, so what the engine throws
    leaves the schema before [min(4)] and [superRefine] are reached. *)
Definition parseSourceBase64 (b64 : string) : Js.Thrown + list string :=
  match test b64 with
  | inl e => inl e
  | inr matched =>
      inr ((if matched then [] else ["Invalid base64 content."]) ++
           (if 4 <=? Js.length b64 then []
            else ["String must contain at least 4 character(s)"]) ++
           (let bytes := approximateBase64DecodedBytes b64 in
            (if bytes <=? 0 then ["Base64 payload is empty."] else []) ++
            (if bytes >? MAX_UPLOAD_BYTES
             then ["Base64 payload exceeds 50 MiB (decoded)."] else [])))%list
  end.

End Engine.

End Schemas.

(* ===================================================================== *)
(** ** utils/media: fetching referenced media as inline data *)
(* ===================================================================== *)

Module Media.

(** [interface InlineDataResult] *)
Record InlineDataResult : Type := mkInlineData {
  data : string;      (* base64 encoded *)
  mimeType : string
}.

(** *** The [URL] class of the runtime

    [new URL(s)] is part of the runtime, not of the repository.  It is
    modelled for absolute URLs of the form
    [scheme:][//][userinfo@]host[:port][/path][?query][#fragment] whose
    host is a domain name, a dotted-decimal IPv4 address in canonical
    spelling or a bracketed IPv6 address: the scheme and the host are
    lower-cased, and a string with no scheme, an empty host under a special
    scheme, a forbidden host character or a non-numeric port is refused.
    Other spellings of an address (shorthand, hexadecimal, octal), IDNA and
    percent-decoding of hosts are outside the model, and so is what the
    runtime does beyond this form: it strips leading and trailing spaces
    and control characters, rewrites a host made of numbers (a single
    number, hexadecimal or octal octets) to dotted-decimal form, and
    refuses an IPv4 octet above 255, a port above 65535 and a bracketed
    host that is no IPv6 address, all of which the model leaves as
    written. *)
Record URL : Type := mkURL {
  protocol : string;   (* the scheme followed by ":" *)
  hostname : string
}.

Definition code (c : ascii) : N := N_of_ascii c.

Definition isAlpha (c : ascii) : bool :=
  ((65 <=? code c) && (code c <=? 90) || (97 <=? code c) && (code c <=? 122))%N.

Definition isDigit (c : ascii) : bool := ((48 <=? code c) && (code c <=? 57))%N.

Definition isSchemeChar (c : ascii) : bool :=
  isAlpha c || isDigit c || (code c =? 43)%N || (code c =? 45)%N || (code c =? 46)%N.

Definition isOneOf (set : string) (c : ascii) : bool :=
  existsb (Ascii.eqb c) (list_ascii_of_string set).

(** The longest prefix whose characters satisfy [p], and what follows it. *)
Fixpoint span (p : ascii -> bool) (s : string) : string * string :=
  match s with
  | EmptyString => (EmptyString, EmptyString)
  | String c s' =>
      if p c then let (a, b) := span p s' in (String c a, b)
      else (EmptyString, s)
  end.

Fixpoint drop (n : nat) (s : string) : string :=
  match n, s with
  | O, _ => s
  | S n', String _ s' => drop n' s'
  | S _, EmptyString => EmptyString
  end.

Fixpoint forallb_string (p : ascii -> bool) (s : string) : bool :=
  match s with
  | EmptyString => true
  | String c s' => p c && forallb_string p s'
  end.

(** What follows the last occurrence of [c] in [s] ([s] itself when [c]
    does not occur). *)
Fixpoint afterLast (c : ascii) (s : string) : string :=
  match s with
  | EmptyString => EmptyString
  | String x s' =>
      if Js.includes s' (String c EmptyString) then afterLast c s'
      else if (x =? c)%char then s' else s
  end.

Definition specialSchemes : list string := ["http"; "https"; "ftp"; "ws"; "wss"].

Definition isSpecial (scheme : string) : bool :=
  existsb (String.eqb scheme) specialSchemes.

(** Code points a host may not contain (controls, space and the URL
    delimiters), among the code units below 128. *)
Definition isForbiddenHostChar (c : ascii) : bool :=
  (code c <=? 32)%N || (code c =? 127)%N || isOneOf "#/:<>?@[\]^|%" c.

(** Host and port of an authority without user information. *)
Definition splitHostPort (auth : string) : option string :=
  match auth with
  | String "[" _ =>
      let (h, r) := span (fun c => negb (c =? "]")%char) auth in
      match r with
      | String "]" r' =>
          match r' with
          | EmptyString => Some (h ++ "]")
          | String ":" port => if forallb_string isDigit port then Some (h ++ "]") else None
          | _ => None
          end
      | _ => None
      end
  | _ =>
      let (h, r) := span (fun c => negb (c =? ":")%char) auth in
      match r with
      | EmptyString => if forallb_string (fun c => negb (isForbiddenHostChar c)) h
                       then Some h else None
      | String _ port =>
          if forallb_string (fun c => negb (isForbiddenHostChar c)) h &&
             forallb_string isDigit port
          then Some h else None
      end
  end.

(** [new URL(s)]: [None] when the constructor throws. *)
Definition newURL (s : string) : option URL :=
  let (scheme, r) := span isSchemeChar s in
  match scheme, r with
  | String c0 _, String ":" rest =>
      if isAlpha c0 then
        let scheme := Js.toLowerCase scheme in
        if isSpecial scheme then
          let afterSlashes := snd (span (isOneOf "/\") rest) in
          let auth := fst (span (fun c => negb (isOneOf "/\?#" c)) afterSlashes) in
          match splitHostPort (afterLast "@" auth) with
          | Some (String h0 h) => Some (mkURL (scheme ++ ":") (Js.toLowerCase (String h0 h)))
          | _ => None
          end
        else if Js.startsWith rest "//" then
          let auth := fst (span (fun c => negb (isOneOf "/?#" c)) (drop 2 rest)) in
          match splitHostPort (afterLast "@" auth) with
          | Some h => Some (mkURL (scheme ++ ":") h)
          | None => None
          end
        else Some (mkURL (scheme ++ ":") EmptyString)
      else None
  | _, _ => None
  end.

(** *** SSRF protection *)

(** [/^172\.(1[6-9]|2[0-9]|3[01])\./] *)
Definition private172 (h : string) : bool :=
  Js.startsWith h "172." &&
  match drop 4 h with
  | String a (String b (String "." _)) =>
      (a =? "1")%char && ((54 <=? code b) && (code b <=? 57))%N ||
      (a =? "2")%char && isDigit b ||
      (a =? "3")%char && ((b =? "0")%char || (b =? "1")%char)
  | _ => false
  end.

(** [DISALLOWED_NETWORKS], each regular expression as its [test]. *)
Definition DISALLOWED_NETWORKS : list (string -> bool) :=
  [ (fun h => Js.startsWith h "127.");       (* /^127\./ *)
    (fun h => Js.startsWith h "10.");        (* /^10\./ *)
    (fun h => Js.startsWith h "192.168.");   (* /^192\.168\./ *)
    private172;
    (fun h => Js.startsWith h "169.254.");   (* /^169\.254\./ *)
    (fun h => (h =? "::1")%string);          (* /^::1$/ *)
    (fun h => Js.startsWith h "fc00::");     (* /^fc00::/ *)
    (fun h => Js.startsWith h "fe80::") ].   (* /^fe80::/ *)

Definition DISALLOWED_HOSTNAMES : list string :=
  [ "localhost"; "0.0.0.0"; "metadata.google.internal"; "169.254.169.254" ].

(** [arr.includes(x)] on an array of strings. *)
Definition arrayIncludes (l : list string) (x : string) : bool :=
  existsb (String.eqb x) l.

(** [validateUrl]: returns normally or throws. *)
Definition validateUrl (urlString : string) : Js.Thrown + unit :=
  match newURL urlString with
  | None => inl (Js.newError ("Invalid URL: " ++ urlString))
  | Some parsedUrl =>
      if negb (arrayIncludes ["http:"; "https:"] (protocol parsedUrl)) then
        inl (Js.newError ("Unsupported protocol: " ++ protocol parsedUrl ++
                          ". Only HTTP and HTTPS are allowed."))
      else
        let hostname := Js.toLowerCase (hostname parsedUrl) in
        if arrayIncludes DISALLOWED_HOSTNAMES hostname then
          inl (Js.newError ("Access to hostname '" ++ hostname ++ "' is not allowed"))
        else if existsb (fun pattern => pattern hostname) DISALLOWED_NETWORKS then
          inl (Js.newError ("Access to IP range '" ++ hostname ++ "' is not allowed"))
        else inr tt
  end.

(** *** data: URLs *)

(** [.] in a regular expression without the [s] flag: any code unit but a
    line terminator. *)
Definition isLineTerminator (c : ascii) : bool :=
  ((code c =? 10) || (code c =? 13))%N.

(** The groups of [dataUrl.match(re)] for the regular expression [re]
    made of [^data:], the optional group [([^;,]+)], the optional group
    [(;base64)], a comma, and a last group of any characters up to the end
    of the line: the MIME type, whether [;base64] was matched, and the
    data. After the longest run of characters other than [;] and [,] the
    text must go on with [;base64,] or with [,]; no shorter run can be
    followed by either. *)
Definition matchDataUrl (dataUrl : string) : option (option string * bool * string) :=
  if Js.startsWith dataUrl "data:" then
    let (m, r) := span (fun c => negb (isOneOf ";," c)) (drop 5 dataUrl) in
    let mime := if Js.nonEmpty m then Some m else None in
    let upToLineEnd s := fst (span (fun c => negb (isLineTerminator c)) s) in
    if Js.startsWith r ";base64," then Some (mime, true, upToLineEnd (drop 8 r))
    else if Js.startsWith r "," then Some (mime, false, upToLineEnd (drop 1 r))
    else None
  else None.

Section Runtime.

(** [Buffer.from(s, 'base64')] decodes leniently: it returns a buffer for
    every string and does not throw on characters outside the alphabet. *)
Variable base64Decode : string -> list Z.

(** [Buffer.from(bytes).toString('base64')] *)
Variable base64Encode : list Z -> string.

(** [fileTypeFromBuffer(bytes)]: the sniffed MIME type, [None] when the
    type is unknown or the detection throws (the error is logged only). *)
Variable fileTypeFromBuffer : list Z -> option string.

(** [x.toFixed(2)] *)
Variable toFixed2 : Q -> string.

Definition Buffer_from_base64 (s : string) : Js.Thrown + list Z := inr (base64Decode s).

(** [parseDataUrl] *)
Definition parseDataUrl (dataUrl : string) : Js.Thrown + InlineDataResult :=
  match matchDataUrl dataUrl with
  | None => inl (Js.newError "Invalid data URL format")
  | Some (mime, isBase64, data) =>
      let mimeType := match mime with Some m => m | None => "application/octet-stream" end in
      if negb isBase64 then
        inl (Js.newError "Only base64-encoded data URLs are supported")
      else
        (* Validate base64 *)
        match Buffer_from_base64 data with
        | inl _ => inl (Js.newError "Invalid base64 data in data URL")
        | inr _ => inr (mkInlineData data mimeType)
        end
  end.

(** What a call of the server's [fetch] can do: reject, or resolve with a
    response whose body may still fail to arrive. The call is made with
    [redirect: 'follow'], so the response is the one at the end of the
    redirects [fetch] has followed on its own (up to its limit); it need
    not come from the URL of the call. *)
Record Response : Type := mkResponse {
  status : Z;
  statusText : string;
  contentType : option string;            (* headers.get("content-type") *)
  arrayBuffer : Js.Thrown + list Z
}.

Definition ok (r : Response) : bool := (200 <=? status r) && (status r <? 300).

Inductive FetchOutcome : Type :=
| Rejected (e : Js.Thrown)
| Resolved (r : Response).

(** The network: the outcome of the [k]-th call of [fetch], by the URL of
    the call, and the URLs [fetch] has been called with so far. The
    requests [fetch] sends to redirect targets happen inside a call: they
    are part of its outcome and are not recorded. *)
Record World : Type := mkWorld {
  remote : nat -> string -> FetchOutcome;
  requested : list string
}.

Definition fetch (url : string) (w : World) : FetchOutcome * World :=
  (remote w (List.length (requested w)) url,
   mkWorld (remote w) (requested w ++ [url])).

(** [!mimeType] for an optional string. *)
Definition missing (m : option string) : bool :=
  match m with Some s => negb (Js.nonEmpty s) | None => true end.

(** The handler of the outer [try]: an abort becomes a timeout error,
    anything else is thrown again. *)
Definition rethrow (url : string) (t : Js.Thrown) : Js.Thrown :=
  match t with
  | Js.ThrowError e =>
      if (Js.name e =? "AbortError")%string
      then Js.newError ("Timeout fetching media from " ++ url)
      else t
  | _ => t
  end.

Definition fromResponse (url : string) (mimeHint : option string) (r : Response)
  : Js.Thrown + InlineDataResult :=
  if negb (ok r) then
    inl (Js.newError ("Failed to fetch media: " ++ url ++ " - " ++
                      Js.numberToString (status r) ++ " " ++ statusText r))
  else
    match arrayBuffer r with
    | inl e => inl e
    | inr bytes =>
        let sizeMB := (inject_Z (Z.of_nat (List.length bytes)) / inject_Z (1024 * 1024))%Q in
        if negb (Qle_bool sizeMB (inject_Z 20)) then
          inl (Js.newError ("Media file too large: " ++ toFixed2 sizeMB ++ " MB (limit: 20 MB)"))
        else
          let mimeType := mimeHint in
          let mimeType := if missing mimeType then contentType r else mimeType in
          let mimeType := if missing mimeType then fileTypeFromBuffer bytes else mimeType in
          let mimeType := if missing mimeType then Some "application/octet-stream" else mimeType in
          inr (mkInlineData (base64Encode bytes)
                            (match mimeType with Some m => m | None => EmptyString end))
    end.

(** [fetchAsInlineData] *)
Definition fetchAsInlineData (url : string) (mimeHint : option string) (w : World)
  : (Js.Thrown + InlineDataResult) * World :=
  let caught (r : Js.Thrown + InlineDataResult) :=
    match r with inl e => inl (rethrow url e) | inr v => inr v end in
  (* Handle data: URLs *)
  if Js.startsWith url "data:" then (caught (parseDataUrl url), w)
  else
    (* Validate URL for SSRF protection *)
    match validateUrl url with
    | inl e => (inl (rethrow url e), w)
    | inr _ =>
        let (outcome, w') := fetch url w in
        match outcome with
        | Rejected e => (inl (rethrow url e), w')
        | Resolved r => (caught (fromResponse url mimeHint r), w')
        end
    end.

End Runtime.

(** [validateMimeType] *)
Definition validateMimeType (mimeType : string) (mediaType : string) : bool :=
  let supported :=
    if (mediaType =? "image")%string then
      ["image/jpeg"; "image/jpg"; "image/png"; "image/gif"; "image/webp";
       "image/heic"; "image/heif"]
    else if (mediaType =? "audio")%string then
      ["audio/wav"; "audio/mp3"; "audio/mpeg"; "audio/aiff"; "audio/aac";
       "audio/ogg"; "audio/flac"]
    else
      ["video/mp4"; "video/mpeg"; "video/mov"; "video/avi"; "video/flv";
       "video/mpg"; "video/webm"; "video/wmv"; "video/3gpp"] in
  arrayIncludes supported (Js.toLowerCase mimeType).

(** [validateDataSize], with its default [maxSizeMB = 20]: the quotients
    are those of the real numbers (the floating-point ones are exact on
    the lengths a string can have). *)
Definition validateDataSize (base64Data : string) : bool :=
  let approximateOriginalSize := (inject_Z (Js.length base64Data * 3) / inject_Z 4)%Q in
  let sizeMB := (approximateOriginalSize / inject_Z (1024 * 1024))%Q in
  Qle_bool sizeMB (inject_Z 20).

(** [getMediaType] *)
Definition getMediaType (mimeType : string) : string :=
  if Js.startsWith mimeType "image/" then "image"
  else if Js.startsWith mimeType "audio/" then "audio"
  else if Js.startsWith mimeType "video/" then "video"
  else "unknown".

(** [validateBufferSize], with its default [maxSizeMB = 20], on the
    [byteLength] of the buffer. *)
Definition validateBufferSize (byteLength : Z) : bool :=
  let sizeMB := (inject_Z byteLength / inject_Z (1024 * 1024))%Q in
  Qle_bool sizeMB (inject_Z 20).

End Media.

(* ===================================================================== *)
(** ** providers/gemini: the client and the response normalizers *)
(* ===================================================================== *)

Module Gemini.

(** *** Gemini API types *)

(** [GeminiPart = GeminiTextPart | GeminiInlineDataPart | GeminiFileDataPart] *)
Inductive GeminiPart : Type :=
| TextPart (text : string)
| InlineDataPart (data mimeType : string)
| FileDataPart (fileUri : string) (mimeType : option string).

Inductive TurnRole : Type := user | model.

Record GeminiContent : Type := mkContent {
  role : TurnRole;
  parts : list GeminiPart
}.

(** [GeminiRequest]; the optional settings typed [any] ([tools],
    [toolConfig], [generationConfig], [safetySettings], [responseSchema],
    [thinking]) are kept as a list of properties. *)
Record GeminiRequest : Type := mkRequest {
  request_model : string;
  system_instruction : option string;     (* { text } *)
  contents : list GeminiContent;
  settings : list (string * Js.Value)
}.

(** [GeminiResponse]: every property is optional. *)
Record ResponsePart : Type := mkResponsePart {
  text : option string;
  functionCall : Js.Value                 (* any; Undefined when absent *)
}.

Record ResponseContent : Type := mkResponseContent {
  content_parts : option (list ResponsePart);
  content_role : option string
}.

Record Candidate : Type := mkCandidate {
  content : option ResponseContent;
  finishReason : option string;
  index : option Z;
  safetyRatings : option (list Js.Value)  (* any[] *)
}.

Record PromptFeedback : Type := mkPromptFeedback {
  prompt_safetyRatings : option (list Js.Value)
}.

Record UsageMetadata : Type := mkUsageMetadata {
  promptTokenCount : option Z;
  candidatesTokenCount : option Z;
  totalTokenCount : option Z
}.

Record GeminiResponse : Type := mkResponse {
  candidates : option (list Candidate);
  promptFeedback : option PromptFeedback;
  usageMetadata : option UsageMetadata
}.

(** *** Response normalizers *)

(** [xs || []] for an optional array (an array, even empty, is truthy). *)
Definition orEmpty {A : Type} (xs : option (list A)) : list A :=
  match xs with Some l => l | None => [] end.

(** [candidates[0]] and a property read on it: the read throws when the
    element is [undefined]. *)
Definition first {A : Type} (xs : list A) (prop : string) : Js.Thrown + A :=
  match nth_error xs 0 with
  | Some x => inr x
  | None => inl (Js.typeError ("Cannot read properties of undefined (reading '" ++ prop ++ "')"))
  end.

Definition equals (o : option string) (s : string) : bool :=
  match o with Some x => (x =? s)%string | None => false end.

(** [isBlocked] *)
Definition isBlocked (response : GeminiResponse) : Js.Thrown + bool :=
  let candidates := orEmpty (candidates response) in
  if (List.length candidates =? 0)%nat then inr true
  else
    match first candidates "finishReason" with
    | inl e => inl e
    | inr candidate =>
        inr (equals (finishReason candidate) "SAFETY" ||
             equals (finishReason candidate) "BLOCKED_REASON_UNSPECIFIED")
    end.

(** [ratings.filter(rating => rating.blocked)]: the property read throws on
    an entry that is [null] or [undefined]. *)
Fixpoint filterBlocked (ratings : list Js.Value) : Js.Thrown + list Js.Value :=
  match ratings with
  | [] => inr []
  | rating :: rest =>
      match Js.getProp rating "blocked" with
      | inl e => inl e
      | inr blocked =>
          match filterBlocked rest with
          | inl e => inl e
          | inr kept => inr (if Js.truthy blocked then rating :: kept else kept)
          end
      end
  end.

(** [ratings.map(rating => `${rating.category}: ${rating.probability}`)] *)
Fixpoint describeRatings (ratings : list Js.Value) : Js.Thrown + list string :=
  match ratings with
  | [] => inr []
  | rating :: rest =>
      match Js.getProp rating "category", Js.getProp rating "probability" with
      | inr category, inr probability =>
          match describeRatings rest with
          | inl e => inl e
          | inr l => inr ((Js.toStr category ++ ": " ++ Js.toStr probability) :: l)
          end
      | inl e, _ => inl e
      | _, inl e => inl e
      end
  end.

(** [ratings.filter(...).map(...).join(', ')] *)
Definition blockedCategories (ratings : list Js.Value) : Js.Thrown + string :=
  match filterBlocked ratings with
  | inl e => inl e
  | inr kept =>
      match describeRatings kept with
      | inl e => inl e
      | inr l => inr (Js.join ", " l)
      end
  end.

(** [getBlockReason] *)
Definition getBlockReason (response : GeminiResponse) : Js.Thrown + string :=
  let candidates := orEmpty (candidates response) in
  if (List.length candidates =? 0)%nat then
    match promptFeedback response with
    | Some {| prompt_safetyRatings := Some ratings |} =>
        match blockedCategories ratings with
        | inl e => inl e
        | inr blocked =>
            inr (if Js.nonEmpty blocked
                 then "Prompt blocked due to safety concerns: " ++ blocked
                 else "No content generated")
        end
    | _ => inr "No content generated"
    end
  else
    match first candidates "finishReason" with
    | inl e => inl e
    | inr candidate =>
        if equals (finishReason candidate) "SAFETY" then
          match blockedCategories (orEmpty (safetyRatings candidate)) with
          | inl e => inl e
          | inr issues =>
              inr (if Js.nonEmpty issues
                   then "Content blocked due to safety concerns: " ++ issues
                   else "Content blocked by safety filters")
          end
        else inr "Content generation was stopped unexpectedly"
    end.

(** [candidates[0].content?.parts || []] *)
Definition firstParts (candidates : list Candidate) : Js.Thrown + list ResponsePart :=
  match first candidates "content" with
  | inl e => inl e
  | inr candidate =>
      inr (orEmpty (match content candidate with
                    | Some c => content_parts c
                    | None => None
                    end))
  end.

(** [texts.filter(Boolean)] on optional strings. *)
Fixpoint filterText (texts : list (option string)) : list string :=
  match texts with
  | [] => []
  | Some t :: rest => if Js.nonEmpty t then t :: filterText rest else filterText rest
  | None :: rest => filterText rest
  end.

(** [extractText] *)
Definition extractText (response : GeminiResponse) : Js.Thrown + string :=
  let candidates := orEmpty (candidates response) in
  if (List.length candidates =? 0)%nat then inr EmptyString
  else
    match firstParts candidates with
    | inl e => inl e
    | inr parts =>
        inr (Js.join Js.blankLine (filterText (map text parts)))
    end.

Record Usage : Type := mkUsage {
  prompt_tokens : Z;
  completion_tokens : Z;
  total_tokens : Z
}.

(** [n || 0] for an optional number. *)
Definition orZero (n : option Z) : Z :=
  match n with Some k => if k =? 0 then 0 else k | None => 0 end.

(** [extractUsage]: [None] is the returned [undefined]. *)
Definition extractUsage (response : GeminiResponse) : Js.Thrown + option Usage :=
  match usageMetadata response with
  | None => inr None
  | Some usage =>
      inr (Some (mkUsage (orZero (promptTokenCount usage))
                         (orZero (candidatesTokenCount usage))
                         (orZero (totalTokenCount usage))))
  end.


(** *** Wave 1 types *)

Inductive UploadData : Type :=
| Bytes (b : list Z)            (* Buffer, ArrayBuffer or Uint8Array *)
| Text (s : string).

Record UploadFileParams : Type := mkUploadFileParams {
  upload_data : UploadData;
  upload_mimeType : string;
  displayName : option string
}.

Record ListFilesParams : Type := mkListFilesParams {
  pageSize : option Z;
  pageToken : option string
}.

Record GenerateEmbeddingsParams : Type := mkEmbeddingsParams {
  embed_model : string;
  texts : list string;
  taskType : option string;
  truncate : option bool;
  outputDimensionality : option Z
}.

(** One entry of [BatchEmbedContentsRequest.requests]. *)
Record EmbedRequest : Type := mkEmbedRequest {
  req_model : string;
  req_text : string;                     (* content: { parts: [{ text }] } *)
  req_taskType : option string;
  req_outputDimensionality : option Z
}.

(** [BatchEmbedContentsResponse], over the type of the vector entries. *)
Record Embedding (number : Type) : Type := mkEmbedding {
  values : option (list number)
}.
Arguments mkEmbedding {number} _.
Arguments values {number} _.

Record BatchEmbedContentsResponse (number : Type) : Type := mkBatchResponse {
  embeddings : option (list (Embedding number))
}.
Arguments mkBatchResponse {number} _.
Arguments embeddings {number} _.

(** *** The network seen by the client *)

Inductive RequestBody : Type :=
| NoBody
| GenerateBody (system_instruction : option string) (contents : list GeminiContent)
               (settings : list (string * Js.Value))
| EmbedBody (requests : list EmbedRequest)
| MultipartBody (boundary : string) (displayName : option string) (mimeType : string)
                (fileBuffer : list Z).

Record Request : Type := mkHttpRequest {
  method : string;
  url : string;
  contentType : option string;
  body : RequestBody
}.

(** A response: the status line and what reading the body as text gives. *)
Record Response : Type := mkHttpResponse {
  status : Z;
  statusText : string;
  bodyText : Js.Thrown + string
}.

Definition ok (r : Response) : bool := (200 <=? status r) && (status r <? 300).

Inductive FetchOutcome : Type :=
| Rejected (e : Js.Thrown)
| Resolved (r : Response).

(** The upstream service answers the [k]-th request; the world records the
    requests sent and the delays slept, oldest first. *)
Record World : Type := mkWorld {
  upstream : nat -> Request -> FetchOutcome;
  sent : list Request;
  slept : list Z;
  now : Z                                 (* Date.now() *)
}.

Definition fetch (req : Request) (w : World) : FetchOutcome * World :=
  (upstream w (List.length (sent w)) req,
   mkWorld (upstream w) (sent w ++ [req]) (slept w) (now w)).

Definition sleep (ms : Z) (w : World) : World :=
  mkWorld (upstream w) (sent w) (slept w ++ [ms]) (now w).

(** An [async] computation: it runs in a world and returns or throws. *)
Definition Async (A : Type) : Type := World -> (Js.Thrown + A) * World.

(** How one pass through the [try] block of [fetchWithRetry] ends. *)
Inductive Attempt (T : Type) : Type :=
| Returned (v : option T)      (* return; [None] is [undefined] *)
| RetryStatus                  (* the [continue] of the 429/5xx branch *)
| Caught (err : Js.Thrown).    (* control reaches the [catch] clause *)
Arguments Returned {T} _.
Arguments RetryStatus {T}.
Arguments Caught {T} _.

Section Client.

(** The base URL of a [GeminiClient] (its API key goes into a header of
    every request and is not recorded here). *)
Variable baseUrl : string.

(** Functions of the runtime. *)
Variable encodeURIComponent : string -> string.
Variable searchParamsToString : list (string * string) -> string.
Variable utf8Encode : string -> list Z.
(** [JSON.parse] on the body of an error response. *)
Variable parseAny : string -> Js.Thrown + Js.Value.

(** [error instanceof Error && error.message.includes(s)] *)
Definition errorMessageIncludes (error : Js.Thrown) (s : string) : bool :=
  match error with
  | Js.ThrowError e => Js.includes (Js.message e) s
  | Js.ThrowValue _ => false
  end.

(** [retryWithBackoff]: the [for] loop from [attempt] on, where [left]
    counts the values of [attempt] up to [maxRetries] still to come. *)
Fixpoint retryLoop {T : Type} (operation : Async T) (maxRetries : Z)
    (left : nat) (attempt : Z) (lastError : Js.Thrown) : Async T :=
  fun w =>
  match left with
  | O => (inl lastError, w)
  | S left' =>
      match operation w with
      | (inr v, w1) => (inr v, w1)
      | (inl error, w1) =>
          (* Don't retry on certain error types *)
          if errorMessageIncludes error "400" then (inl error, w1)
          (* If this was the last attempt, throw the error *)
          else if attempt =? maxRetries then (inl error, w1)
          else
            (* Only retry on 429 (rate limit) and 5xx (server) errors *)
            let shouldRetry := errorMessageIncludes error "429" ||
                               errorMessageIncludes error "5" in
            if negb shouldRetry then (inl error, w1)
            else
              (* Exponential backoff: 1s, 2s, 4s *)
              let delay := 2 ^ attempt * 1000 in
              retryLoop operation maxRetries left' (attempt + 1) error (sleep delay w1)
      end
  end.

Definition retryWithBackoff {T : Type} (operation : Async T) (maxRetries : nat) : Async T :=
  retryLoop operation (Z.of_nat maxRetries) (S maxRetries) 0 (Js.ThrowValue Js.Undefined).

(** What [generateContent] makes of the outcome of its request. [parse]
    is [JSON.parse] read at [GeminiResponse]. *)
Definition readGenerate (parse : string -> Js.Thrown + GeminiResponse)
    (outcome : FetchOutcome) : Js.Thrown + GeminiResponse :=
  match outcome with
  | Rejected e => inl e
  | Resolved response =>
      if negb (ok response) then
        let errorText := match bodyText response with inl _ => EmptyString | inr t => t end in
        inl (Js.newError (Js.numberToString (status response) ++ " " ++
                          statusText response ++ " - " ++ errorText))
      else
        match bodyText response with
        | inl e => inl e
        | inr t => parse t
        end
  end.

(** The request of [generateContent]: the model goes into the URL and the
    rest of the request into the body. *)
Definition generateRequest (request : GeminiRequest) : Request :=
  mkHttpRequest "POST"
    (baseUrl ++ "/models/" ++ encodeURIComponent (request_model request) ++ ":generateContent")
    (Some "application/json")
    (GenerateBody (system_instruction request) (contents request) (settings request)).

(** The operation [generateContent] retries: one POST and the reading of
    its response. *)
Definition generateContentOnce (parse : string -> Js.Thrown + GeminiResponse)
    (request : GeminiRequest) : Async GeminiResponse :=
  fun w =>
  let (outcome, w1) := fetch (generateRequest request) w in
  (readGenerate parse outcome, w1).

(** [generateContent] *)
Definition generateContent (parse : string -> Js.Thrown + GeminiResponse)
    (request : GeminiRequest) : Async GeminiResponse :=
  retryWithBackoff (generateContentOnce parse request) 3.

(** [private readonly maxRetries = 3; initialBackoffMs = 500] *)
Definition maxRetries : Z := 3.
Definition initialBackoffMs : Z := 500.

(** The error thrown for a response that is neither OK nor retried. *)
Definition apiError (res : Response) (errorBody : Js.Value) : Js.Thrown :=
  let error := Js.getPropOpt errorBody "error" in
  let message :=
    Js.or (Js.or (Js.getPropOpt error "message") (Js.Str (statusText res)))
          (Js.Str "Unknown error") in
  let code := Js.or (Js.getPropOpt error "code") (Js.Number (status res)) in
  let status' := Js.getPropOpt error "status" in
  Js.ThrowError
    (Js.mkError "Error"
       ("Gemini API error " ++ Js.toStr code ++
        (if Js.truthy status' then " (" ++ Js.toStr status' ++ ")" else EmptyString) ++
        ": " ++ Js.toStr message)
       [("status", Js.Number (status res)); ("body", errorBody)]).

(** [errorBody]: the body of a response that is not OK, read as JSON;
    [undefined] when it cannot be read or parsed. *)
Definition errorBodyOf (res : Response) : Js.Value :=
  match bodyText res with
  | inl _ => Js.Undefined
  | inr text => match parseAny text with
                | inl _ => Js.Undefined   (* ignore parse errors *)
                | inr v => v
                end
  end.

(** [res.status === 429 || (res.status >= 500 && res.status < 600)] *)
Definition retriedStatus (res : Response) : bool :=
  (status res =? 429) || ((500 <=? status res) && (status res <? 600)).

Definition attemptOf {T : Type} (parse : string -> Js.Thrown + T) (empty : T)
    (parseJson : bool) (outcome : FetchOutcome) : Attempt T :=
  match outcome with
  | Rejected e => Caught e
  | Resolved res =>
      if ok res then
        if negb parseJson then Returned None
        else
          (* Gracefully handle empty body *)
          match bodyText res with
          | inl e => Caught e
          | inr text =>
              if Js.nonEmpty text then
                match parse text with
                | inl e => Caught e
                | inr v => Returned (Some v)
                end
              else Returned (Some empty)
          end
      else
        (* Non-OK response *)
        let errorBody := errorBodyOf res in
        (* Retry on 429 and 5xx *)
        if retriedStatus res then RetryStatus
        else
          (* the [throw err] that follows stands inside the [try] block, so
             the [catch] clause of the loop receives it *)
          Caught (apiError res errorBody)
  end.

(** [fetchWithRetry]: the [while (attempt <= maxRetries)] loop from
    [attempt] on, where [left] counts the values of [attempt] up to
    [maxRetries] still to come. *)
Fixpoint fetchLoop {T : Type} (parse : string -> Js.Thrown + T) (empty : T)
    (req : Request) (parseJson : bool)
    (left : nat) (attempt : Z) (lastError : Js.Thrown) : Async (option T) :=
  fun w =>
  match left with
  | O => (* Exhausted retries *) (inl lastError, w)
  | S left' =>
      let (outcome, w1) := fetch req w in
      match attemptOf parse empty parseJson outcome with
      | Returned v => (inr v, w1)
      | RetryStatus =>
          let backoff := initialBackoffMs * 2 ^ attempt in
          fetchLoop parse empty req parseJson left' (attempt + 1) lastError (sleep backoff w1)
      | Caught err =>
          (* Network or parsing error: retry *)
          if attempt <? maxRetries then
            let backoff := initialBackoffMs * 2 ^ attempt in
            fetchLoop parse empty req parseJson left' (attempt + 1) err (sleep backoff w1)
          else (* break *) (inl err, w1)
      end
  end.

Definition fetchWithRetry {T : Type} (parse : string -> Js.Thrown + T) (empty : T)
    (req : Request) (parseJson : bool) : Async (option T) :=
  fetchLoop parse empty req parseJson (Z.to_nat (maxRetries + 1)) 0
            (Js.ThrowValue Js.Undefined).

(** [buildHeaders(contentType)]: the API key header is always present;
    only the content type is recorded in a [Request]. *)
Definition buildHeaders (contentType : option string) : option string :=
  match contentType with
  | Some c => if Js.nonEmpty c then Some c else None
  | None => None
  end.

(** [uploadFile] *)
Definition uploadFile {F : Type} (parse : string -> Js.Thrown + F) (empty : F)
    (params : UploadFileParams) : Async (option F) :=
  fun w =>
  let url := Js.replaceFirst baseUrl "/v1beta" "/upload/v1beta" ++
             "/files?uploadType=multipart" in
  let boundary := "----formdata-gemini-" ++ Js.numberToString (now w) in
  let fileBuffer := match upload_data params with
                    | Bytes b => b
                    | Text s => utf8Encode s
                    end in
  fetchWithRetry parse empty
    (mkHttpRequest "POST" url (Some ("multipart/related; boundary=" ++ boundary))
       (MultipartBody boundary (displayName params) (upload_mimeType params) fileBuffer))
    true w.

(** [listFiles] *)
Definition listFiles {L : Type} (parse : string -> Js.Thrown + L) (empty : L)
    (params : option ListFilesParams) : Async (option L) :=
  let searchParams :=
    match params with
    | None => []
    | Some p =>
        ((match pageSize p with Some n => [("pageSize", Js.numberToString n)] | None => [] end) ++
         (match pageToken p with
          | Some t => if Js.nonEmpty t then [("pageToken", t)] else []
          | None => []
          end))%list
    end in
  let query := searchParamsToString searchParams in
  let url := baseUrl ++ "/files" ++ (if Js.nonEmpty query then "?" ++ query else EmptyString) in
  fetchWithRetry parse empty (mkHttpRequest "GET" url (buildHeaders None) NoBody) true.

(** [deleteFile] *)
Definition deleteFile (fileId : string) : Async unit :=
  fun w =>
  (* Accept either "files/ID" or bare "ID" *)
  let resource := if Js.startsWith fileId "files/" then fileId else "files/" ++ fileId in
  let url := baseUrl ++ "/" ++ resource in
  match fetchWithRetry (T := unit) (fun _ => inr tt) tt
          (mkHttpRequest "DELETE" url (buildHeaders None) NoBody) false w with
  | (inl e, w1) => (inl e, w1)
  | (inr _, w1) => (inr tt, w1)
  end.

(** The entries of [requestBody.requests]: [texts.map(...)]. *)
Definition embedRequests (params : GenerateEmbeddingsParams) : list EmbedRequest :=
  map (fun text =>
         mkEmbedRequest
           (if Js.startsWith (embed_model params) "models/" then embed_model params
            else "models/" ++ embed_model params)
           text
           (* Only include taskType if it's not unspecified and is supported *)
           (match taskType params with
            | Some t => if Js.nonEmpty t && negb (t =? "EMBEDDING_TASK_TYPE_UNSPECIFIED")%string
                        then Some t else None
            | None => None
            end)
           (* Only include outputDimensionality if explicitly requested *)
           (match outputDimensionality params with
            | Some d => if d >? 0 then Some d else None
            | None => None
            end))
      (texts params).

(** The request of [generateEmbeddings]. *)
Definition embeddingsRequest (params : GenerateEmbeddingsParams) : Request :=
  mkHttpRequest "POST"
    (baseUrl ++ "/models/" ++ encodeURIComponent (embed_model params) ++ ":batchEmbedContents")
    (buildHeaders (Some "application/json"))
    (EmbedBody (embedRequests params)).

(** [generateEmbeddings] *)
Definition generateEmbeddings {number : Type}
    (parse : string -> Js.Thrown + BatchEmbedContentsResponse number)
    (params : GenerateEmbeddingsParams) : Async (BatchEmbedContentsResponse number) :=
  fun w =>
  if negb (Js.nonEmpty (embed_model params)) then
    (inl (Js.newError ("generateEmbeddings: " ++ Js.dq ++ "model" ++ Js.dq ++ " is required")), w)
  else if (List.length (texts params) =? 0)%nat then
    (inl (Js.newError ("generateEmbeddings: " ++ Js.dq ++ "texts" ++ Js.dq ++
                       " must be a non-empty array")), w)
  else
    match fetchWithRetry parse (mkBatchResponse None) (embeddingsRequest params) true w with
    | (inl e, w1) => (inl e, w1)
    | (inr None, w1) =>
        (* [res.embeddings] on [undefined] *)
        (inl (Js.typeError "Cannot read properties of undefined (reading 'embeddings')"), w1)
    | (inr (Some res), w1) => (inr res, w1)
    end.

End Client.

End Gemini.

(* ===================================================================== *)
(** ** index: request mapping utilities and the embeddings handler *)
(* ===================================================================== *)

Module Index.

(** [ContentPart], by its [type] tag. A value with any other tag reaches
    the [default] branch of the [switch]. *)
Inductive ContentPart : Type :=
| text (text : string)
| image_url (url : string) (mimeType : option string)
| audio_url (url : string) (mimeType : option string)
| video_url (url : string) (mimeType : option string)
| inline_data (data : string) (mimeType : string)
| file_uri (uri : string) (mimeType : option string)
| unknown (type : string).

(** [string | ContentPart[]] *)
Inductive Content : Type :=
| Plain (s : string)
| Parts (l : list ContentPart).

Inductive Role : Type := user | assistant | model | system.

Record Message : Type := mkMessage {
  role : Role;
  content : Content
}.

(** The result of [mapMessagesToGeminiContents]. *)
Record Mapped : Type := mkMapped {
  contents : list Gemini.GeminiContent;
  system_instruction : option string      (* { text } or undefined *)
}.

Section Runtime.

Variable base64Decode : string -> list Z.
Variable base64Encode : list Z -> string.
Variable fileTypeFromBuffer : list Z -> option string.
Variable toFixed2 : Q -> string.

Let fetchAsInlineData :=
  Media.fetchAsInlineData base64Decode base64Encode fileTypeFromBuffer toFixed2.

(** The body of the [try] for a media part, and its [catch]: the part
    pushed is the inline data, or a text that reports the error. (The
    check of [validateMimeType] only logs a warning.) *)
Definition mediaPart (url : string) (fetched : Js.Thrown + Media.InlineDataResult)
  : Gemini.GeminiPart :=
  let attempt :=
    match fetched with
    | inl error => inl error
    | inr inlineData =>
        if negb (Media.validateDataSize (Media.data inlineData))
        then inl (Js.newError ("Media file too large: " ++ url))
        else inr inlineData
    end in
  match attempt with
  | inr inlineData =>
      Gemini.InlineDataPart (Media.data inlineData) (Media.mimeType inlineData)
  | inl error =>
      (* Add as text error instead of failing completely *)
      Gemini.TextPart ("[Error loading media from " ++ url ++ ": " ++
                       Js.thrownToString error ++ "]")
  end.

(** The [for ... of] loop of [mapContentToGeminiParts], with the parts
    pushed so far. *)
Fixpoint mapParts (content : list ContentPart) (parts : list Gemini.GeminiPart)
    (w : Media.World) : (Js.Thrown + list Gemini.GeminiPart) * Media.World :=
  match content with
  | [] => (inr parts, w)
  | part :: rest =>
      match part with
      | text t => mapParts rest (parts ++ [Gemini.TextPart t])%list w
      | image_url url mimeType
      | audio_url url mimeType
      | video_url url mimeType =>
          let (fetched, w1) := fetchAsInlineData url mimeType w in
          mapParts rest (parts ++ [mediaPart url fetched])%list w1
      | inline_data data mimeType =>
          if negb (Media.validateDataSize data)
          then (inl (Js.newError "Inline data too large"), w)
          else mapParts rest (parts ++ [Gemini.InlineDataPart data mimeType])%list w
      | file_uri uri mimeType =>
          mapParts rest (parts ++ [Gemini.FileDataPart uri mimeType])%list w
      | unknown _ => mapParts rest parts w
      end
  end.

(** [mapContentToGeminiParts] *)
Definition mapContentToGeminiParts (content : Content) (w : Media.World)
  : (Js.Thrown + list Gemini.GeminiPart) * Media.World :=
  match content with
  | Plain s => (inr [Gemini.TextPart s], w)
  | Parts l => mapParts l [] w
  end.

(** [content.find(p => p.type === 'text')?.text] *)
Fixpoint findText (l : list ContentPart) : option string :=
  match l with
  | [] => None
  | text t :: _ => Some t
  | _ :: rest => findText rest
  end.

(** The text of a system message. *)
Definition messageText (message : Message) : string :=
  match content message with
  | Plain s => s
  | Parts l => match findText l with
               | Some t => t        (* [t || ''] is [t] *)
               | None => EmptyString
               end
  end.

(** The [for ... of] loop of [mapMessagesToGeminiContents]. *)
Fixpoint mapMessages (messages : list Message) (contents : list Gemini.GeminiContent)
    (systemMessages : list string) (w : Media.World)
  : (Js.Thrown + list Gemini.GeminiContent * list string) * Media.World :=
  match messages with
  | [] => (inr (contents, systemMessages), w)
  | message :: rest =>
      match role message with
      | system =>
          (* Handle system messages by accumulating them with delimiters *)
          let messageText := messageText message in
          if Js.nonEmpty (Js.trim messageText)
          then mapMessages rest contents (systemMessages ++ [Js.trim messageText])%list w
          else mapMessages rest contents systemMessages w
      | r =>
          (* Convert role: assistant -> model for Gemini *)
          let role := match r with
                      | assistant => Gemini.model
                      | user => Gemini.user
                      | _ => Gemini.model
                      end in
          match mapContentToGeminiParts (content message) w with
          | (inl e, w1) => (inl e, w1)
          | (inr parts, w1) =>
              if (0 <? List.length parts)%nat
              then mapMessages rest (contents ++ [Gemini.mkContent role parts])%list systemMessages w1
              else mapMessages rest contents systemMessages w1
          end
      end
  end.

(** [mapMessagesToGeminiContents] *)
Definition mapMessagesToGeminiContents (messages : list Message)
    (systemInstruction : option string) (w : Media.World)
  : (Js.Thrown + Mapped) * Media.World :=
  (* Add initial system instruction if provided *)
  let systemMessages :=
    match systemInstruction with
    | Some s => if Js.nonEmpty s then [s] else []
    | None => []
    end in
  match mapMessages messages [] systemMessages w with
  | (inl e, w1) => (inl e, w1)
  | (inr (contents, systemMessages), w1) =>
      (* Merge all system messages with double newline delimiters *)
      let finalSystemText :=
        if (0 <? List.length systemMessages)%nat
        then Some (Js.join Js.blankLine systemMessages)
        else None in
      (inr (mkMapped contents
              (match finalSystemText with
               | Some t => if Js.nonEmpty t then Some t else None
               | None => None
               end)), w1)
  end.

End Runtime.

(** *** The [gemini_embeddings] tool *)

(** The arguments after [GeminiEmbeddingsSchema.parse]. *)
Record GeminiEmbeddingsArgs : Type := mkEmbeddingsArgs {
  texts : list string;
  embeddings_model : string;
  taskType : string;
  truncate : string;
  outputDimensionality : option Z
}.

(** One entry of the [embeddings] array of the tool's answer. *)
Record IndexedEmbedding (number : Type) : Type := mkIndexed {
  index : Z;
  values : list number
}.
Arguments mkIndexed {number} _ _.
Arguments index {number} _.
Arguments values {number} _.

(** [arr.map((x, index) => f x index)], counting from [index]. *)
Fixpoint mapWithIndex {A B : Type} (f : A -> Z -> B) (index : Z) (l : list A) : list B :=
  match l with
  | [] => []
  | x :: rest => f x index :: mapWithIndex f (index + 1) rest
  end.

(** [(result.embeddings || []).map((embedding, index) =>
      ({ index, values: embedding.values || [] }))] *)
Definition indexEmbeddings {number : Type}
    (result : Gemini.BatchEmbedContentsResponse number) : list (IndexedEmbedding number) :=
  mapWithIndex (fun embedding index => mkIndexed index (Gemini.orEmpty (Gemini.values embedding)))
               0 (Gemini.orEmpty (Gemini.embeddings result)).

(** What the tool answers: the [embeddings] array that is serialized, or
    the text of an error result. *)
Inductive ToolResult (A : Type) : Type :=
| ToolOk (value : A)
| ToolError (text : string).
Arguments ToolOk {A} _.
Arguments ToolError {A} _.

(** [error instanceof Error ? error.message : String(error)] *)
Definition errorText (error : Js.Thrown) : string :=
  match error with
  | Js.ThrowError e => Js.message e
  | Js.ThrowValue v => Js.toStr v
  end.

(** The parameters the [gemini_embeddings] case passes to the client. *)
Definition embeddingsParams (args : GeminiEmbeddingsArgs) : Gemini.GenerateEmbeddingsParams :=
  let model := if Js.nonEmpty (embeddings_model args) then embeddings_model args
               else "text-embedding-004" in
  let task s := (taskType args =? s)%string in
  Gemini.mkEmbeddingsParams model (texts args)
    (if task "unspecified" then None
     else if task "retrieval_query" then Some "RETRIEVAL_QUERY"
     else if task "retrieval_document" then Some "RETRIEVAL_DOCUMENT"
     else if task "semantic_similarity" then Some "SEMANTIC_SIMILARITY"
     else if task "classification" then Some "CLASSIFICATION"
     else if task "clustering" then Some "CLUSTERING"
     else if task "question_answering" then Some "QUESTION_ANSWERING"
     else None)
    (Some (negb (truncate args =? "NONE")%string))
    (outputDimensionality args).

(** The [gemini_embeddings] case of the tool dispatcher, from the parsed
    arguments to the answer. *)
Definition gemini_embeddings {number : Type}
    (baseUrl : string) (encodeURIComponent : string -> string)
    (parseAny : string -> Js.Thrown + Js.Value)
    (parse : string -> Js.Thrown + Gemini.BatchEmbedContentsResponse number)
    (args : GeminiEmbeddingsArgs) (w : Gemini.World)
  : ToolResult (list (IndexedEmbedding number)) * Gemini.World :=
  match Gemini.generateEmbeddings baseUrl encodeURIComponent parseAny parse
          (embeddingsParams args) w with
  | (inr result, w1) => (ToolOk (indexEmbeddings result), w1)
  | (inl error, w1) => (ToolError ("Generate embeddings failed: " ++ errorText error), w1)
  end.

End Index.

(* ===================================================================== *)
(** ** schemas: the MIME type, retention and embeddings schemas *)
(* ===================================================================== *)

Module Wave1Schemas.

(** The code of a validation issue ([z.ZodIssueCode]) and the message the
    schema gives for it, when it gives one. *)
Inductive IssueCode : Type :=
| invalid_type | too_small | too_big | invalid_string | invalid_enum_value
| unrecognized_keys | custom.

Record Issue : Type := mkIssue {
  code : IssueCode;
  message : option string
}.

Definition issue (c : IssueCode) : Issue := mkIssue c None.

Definition check (holds : bool) (i : Issue) : list Issue := if holds then [] else [i].

(** A schema accepts a value when it raises no issue. *)
Definition noIssue (l : list Issue) : bool :=
  match l with [] => true | _ => false end.

(** *** MIME types *)

(** The character class [[a-zA-Z0-9]]. *)
Definition isAlphaNumeric (c : ascii) : bool := Media.isAlpha c || Media.isDigit c.

(** The character class [[a-zA-Z0-9!#$&^_.+-]]. *)
Definition isTokenChar (c : ascii) : bool := isAlphaNumeric c || Media.isOneOf "!#$&^_.+-" c.

(** [[a-zA-Z0-9][a-zA-Z0-9!#$&^_.+-]{0,126}], matched against a whole
    string. *)
Definition isToken (t : string) : bool :=
  match t with
  | EmptyString => false
  | String c rest =>
      isAlphaNumeric c && Media.forallb_string isTokenChar rest &&
      (String.length rest <=? 126)%nat
  end.

(** [mimeTypeRegex.test(s)]: a token, a slash and a token. As the slash
    is outside the character classes, the first slash of the string is the
    one of the regular expression. *)
Definition mimeTypeRegex (s : string) : bool :=
  let (type, r) := Media.span (fun c => negb (c =? "/")%char) s in
  match r with
  | String _ subtype => isToken type && isToken subtype
  | EmptyString => false
  end.

(** [mimeTypeSchema]: [z.string().regex(mimeTypeRegex, "Invalid MIME
    type").max(255)] *)
Definition mimeTypeSchema (s : string) : list Issue :=
  check (mimeTypeRegex s) (mkIssue invalid_string (Some "Invalid MIME type")) ++
  check (Js.length s <=? 255) (issue too_big).

(** *** Numbers *)

(** [Number.isInteger] on a finite number. *)
Definition isInteger (q : Q) : bool := (Qnum q mod Z.pos (Qden q) =? 0).

(** The integer a number is, when it is one. *)
Definition toInteger (q : Q) : Z := Qnum q / Z.pos (Qden q).

(** [z.number().int().min(lo).max(hi)] *)
Definition integerBetween (lo hi : Z) (q : Q) : list Issue :=
  check (isInteger q) (issue invalid_type) ++
  check (Qle_bool (inject_Z lo) q) (issue too_small) ++
  check (Qle_bool q (inject_Z hi)) (issue too_big).

(** [z.string().min(lo).max(hi)] *)
Definition lengthBetween (lo hi : Z) (s : string) : list Issue :=
  check (lo <=? Js.length s) (issue too_small) ++
  check (Js.length s <=? hi) (issue too_big).

(** [.optional()] *)
Definition optional {A : Type} (schema : A -> list Issue) (v : option A) : list Issue :=
  match v with Some x => schema x | None => [] end.

(** [z.enum(values)] *)
Definition enum (values : list string) (s : string) : list Issue :=
  check (Media.arrayIncludes values s) (issue invalid_enum_value).

(** *** Retention policy *)

(** An object offered to [RetentionPolicySchema]: its [type] and the two
    keys the schema of temporary retention knows. *)
Record RetentionInput : Type := mkRetentionInput {
  type : string;
  ttlSeconds : option Q;
  expiresAt : option string
}.

(** What the schema returns: the persistent branch keeps only [type]. *)
Inductive RetentionPolicy : Type :=
| persistent
| temporary (ttlSeconds : option Z) (expiresAt : option string).

Section Datetime.

(** The check of [z.string().datetime()]. *)
Variable isDatetime : string -> bool.

(** The issues of the object with [type: "temporary"]: those of its keys,
    then those of [superRefine]. *)
Definition temporaryIssues (v : RetentionInput) : list Issue :=
  let hasTtl := match ttlSeconds v with
                | Some q => negb (Qnum q =? 0)      (* !!v.ttlSeconds *)
                | None => false
                end in
  let hasExpiry := match expiresAt v with
                   | Some s => Js.nonEmpty s        (* !!v.expiresAt *)
                   | None => false
                   end in
  optional (integerBetween 60 (60 * 60 * 24 * 30)) (ttlSeconds v) ++
  optional (fun s => check (isDatetime s) (issue invalid_string)) (expiresAt v) ++
  check (negb (negb hasTtl && negb hasExpiry))
        (mkIssue custom (Some "Provide ttlSeconds or expiresAt for temporary retention.")) ++
  check (negb (hasTtl && hasExpiry))
        (mkIssue custom (Some "Provide only one of ttlSeconds or expiresAt.")).

(** [RetentionPolicySchema.safeParse(v)]: the first member of the union
    that accepts the object; [None] when neither does. *)
Definition RetentionPolicySchema (v : RetentionInput) : option RetentionPolicy :=
  if (type v =? "persistent")%string then Some persistent
  else if (type v =? "temporary")%string then
    if noIssue (temporaryIssues v)
    then Some (temporary (option_map toInteger (ttlSeconds v)) (expiresAt v))
    else None
  else None.

End Datetime.

(** *** Embeddings *)

(** An object offered to [GeminiEmbeddingsSchema]: the keys of the schema
    and the names of the other keys it has. *)
Record EmbeddingsInput : Type := mkEmbeddingsInput {
  texts : list string;
  model : option string;
  taskType : option string;
  truncate : option string;
  outputDimensionality : option Q;
  otherKeys : list string
}.

Definition taskTypes : list string :=
  ["unspecified"; "classification"; "clustering"; "retrieval_query";
   "retrieval_document"; "semantic_similarity"; "question_answering"].

Definition embeddingsIssues (v : EmbeddingsInput) : list Issue :=
  (check (1 <=? Z.of_nat (List.length (texts v))) (issue too_small) ++
   check (Z.of_nat (List.length (texts v)) <=? 2048) (issue too_big) ++
   flat_map (lengthBetween 1 100000) (texts v)) ++
  optional (fun s => check (1 <=? Js.length s) (issue too_small)) (model v) ++
  optional (enum taskTypes) (taskType v) ++
  optional (enum ["NONE"; "START"; "END"]) (truncate v) ++
  optional (integerBetween 8 3072) (outputDimensionality v) ++
  check (negb (0 <? List.length (otherKeys v))%nat) (issue unrecognized_keys).   (* .strict() *)

(** [.default(d)] *)
Definition default {A : Type} (d : A) (v : option A) : A :=
  match v with Some x => x | None => d end.

(** [GeminiEmbeddingsSchema.parse(v)]: the arguments of the tool, [None]
    when the schema throws. *)
Definition GeminiEmbeddingsSchema (v : EmbeddingsInput) : option Index.GeminiEmbeddingsArgs :=
  if noIssue (embeddingsIssues v) then
    Some (Index.mkEmbeddingsArgs (texts v)
            (default "text-embedding-004" (model v))
            (default "unspecified" (taskType v))
            (default "NONE" (truncate v))
            (option_map toInteger (outputDimensionality v)))
  else None.

End Wave1Schemas.

(* ===================================================================== *)
(** ** observability: the in-memory event collector *)
(* ===================================================================== *)

Module Observability.

(** [arr.slice(start)]: a negative [start] counts from the end. *)
Definition slice {A : Type} (start : Z) (l : list A) : list A :=
  let len := Z.of_nat (List.length l) in
  let k := if start <? 0 then Z.max (len + start) 0 else Z.min start len in
  skipn (Z.to_nat k) l.

Section Collector.

(** The numbers of cost estimates and ratios (floating point). *)
Variable number : Type.
Variable zero : number.

(** [interface CostEstimate]; its [currency] is always ['USD']. *)
Record CostEstimate : Type := mkCost {
  input_cost : number;
  output_cost : number;
  total_cost : number
}.

(** [interface RequestFingerprint] *)
Record RequestFingerprint : Type := mkFingerprint {
  fingerprint_model : string;
  fingerprint_tool_name : string;
  has_system_instruction : bool;
  has_tools : bool;
  has_files : bool;
  content_types : list string;
  message_count : option Z;
  file_count : option Z;
  estimated_static_ratio : number
}.

(** [Partial<ObservabilityEvent>]: every key is present with a value of
    its type, or absent. *)
Record PartialEvent : Type := mkPartial {
  given_timestamp : option string;
  given_tool_name : option string;
  given_model : option string;
  given_usage : option Gemini.Usage;
  given_cost : option CostEstimate;
  given_fingerprint : option RequestFingerprint;
  given_latency_ms : option Z;
  given_cache_hit : option bool;
  given_cache_key : option string;
  given_error : option string;
  given_batch_size : option Z
}.

(** [interface ObservabilityEvent] *)
Record ObservabilityEvent : Type := mkEvent {
  timestamp : string;
  tool_name : string;
  model : string;
  usage : option Gemini.Usage;
  cost : option CostEstimate;
  fingerprint : RequestFingerprint;
  latency_ms : option Z;
  cache_hit : option bool;
  cache_key : option string;
  error : option string;
  batch_size : option Z
}.

(** [x || 'unknown'] for an optional string. *)
Definition orUnknown (x : option string) : string :=
  match x with
  | Some s => if Js.nonEmpty s then s else "unknown"
  | None => "unknown"
  end.

(** The object literal of [recordEvent]: the defaults, then the keys of
    [event] spread over them. [now] is [new Date().toISOString()]. *)
Definition completeEvent (now : string) (event : PartialEvent) : ObservabilityEvent :=
  let spread {A : Type} (given : option A) (default : A) : A :=
    match given with Some x => x | None => default end in
  mkEvent
    (spread (given_timestamp event) now)
    (spread (given_tool_name event) (orUnknown (given_tool_name event)))
    (spread (given_model event) (orUnknown (given_model event)))
    (given_usage event)
    (given_cost event)
    (spread (given_fingerprint event)
       (mkFingerprint (orUnknown (given_model event)) (orUnknown (given_tool_name event))
                      false false false [] None None zero))
    (given_latency_ms event)
    (given_cache_hit event)
    (given_cache_key event)
    (given_error event)
    (given_batch_size event).

(** [private maxEvents = 1000] *)
Definition maxEvents : Z := 1000.

(** [recordEvent], on the [events] of the collector (the line it logs is
    not part of the state). *)
Definition recordEvent (now : string) (event : PartialEvent)
    (events : list ObservabilityEvent) : list ObservabilityEvent :=
  let events := (events ++ [completeEvent now event])%list in
  (* Keep only last maxEvents *)
  if Z.of_nat (List.length events) >? maxEvents then slice (- maxEvents) events
  else events.

(** [getRecentEvents(limit)]; the default of [limit] is 10. *)
Definition getRecentEvents (limit : Z) (events : list ObservabilityEvent)
  : list ObservabilityEvent :=
  slice (- limit) events.

(** [clear] *)
Definition clear (events : list ObservabilityEvent) : list ObservabilityEvent := [].

End Collector.

End Observability.

(* ===================================================================== *)
(** ** Vocabulary of the statements *)
(* ===================================================================== *)

Module Spec.

(** *** Base64 *)

(** Reference decoder (RFC 4648), against which the size computed by
    [approximateBase64DecodedBytes] is measured: groups of four characters
    give three bytes, a padded last group one or two. A byte is a [Z]
    below 256. *)
Definition sextet (c : ascii) : Z :=
  let n := Z.of_N (N_of_ascii c) in
  if (65 <=? n) && (n <=? 90) then n - 65
  else if (97 <=? n) && (n <=? 122) then n - 71
  else if (48 <=? n) && (n <=? 57) then n + 4
  else if n =? 43 then 62 else 63.

Definition byte1 (a b : ascii) : Z :=
  Z.lor (Z.shiftl (sextet a) 2) (Z.shiftr (sextet b) 4).
Definition byte2 (b c : ascii) : Z :=
  Z.lor (Z.shiftl (Z.land (sextet b) 15) 4) (Z.shiftr (sextet c) 2).
Definition byte3 (c d : ascii) : Z :=
  Z.lor (Z.shiftl (Z.land (sextet c) 3) 6) (sextet d).

Fixpoint decodeBase64 (s : string) : option (list Z) :=
  match s with
  | EmptyString => Some []
  | String a (String b (String c (String d rest))) =>
      if Schemas.isBase64Char a && Schemas.isBase64Char b &&
         Schemas.isBase64Char c && Schemas.isBase64Char d
      then match decodeBase64 rest with
           | Some bytes => Some (byte1 a b :: byte2 b c :: byte3 c d :: bytes)
           | None => None
           end
      else if Schemas.isBase64Char a && Schemas.isBase64Char b && negb (Js.nonEmpty rest)
      then if Schemas.isEq c && Schemas.isEq d then Some [byte1 a b]
           else if Schemas.isBase64Char c && Schemas.isEq d then Some [byte1 a b; byte2 b c]
           else None
      else None
  | _ => None
  end.

Definition isByte (b : Z) : Prop := 0 <= b < 256.

(** The padding [approximateBase64DecodedBytes] subtracts. *)
Definition padding (s : string) : Z :=
  if Js.endsWith s "==" then 2 else if Js.endsWith s "=" then 1 else 0.

(** A payload of [n] groups ["AAAA"] followed by [last], and the bytes it
    decodes to: built by iteration, so that sizes near the ceiling can be
    talked about without writing the payload out. *)
Definition quads (n : N) (last : string) : string :=
  N.iter n (fun s => "AAAA" ++ s)%string last.

Definition zeros (n : N) (last : list Z) : list Z :=
  N.iter n (fun l => 0 :: 0 :: 0 :: l) last.

(** *** Media fetcher *)

(** The URL guard throws on [url]. *)
Definition refuses (url : string) : bool :=
  match Media.validateUrl url with inl _ => true | inr _ => false end.

(** The error is one of the two that [parseDataUrl] reports for the form
    of the URL. *)
Definition formError (e : Js.Thrown) : Prop :=
  e = Js.newError "Invalid data URL format" \/
  e = Js.newError "Only base64-encoded data URLs are supported".

(** *** Response normalizers *)




(** The parts of the first candidate, every missing level read as empty. *)
Definition partsOf (response : Gemini.GeminiResponse) : list Gemini.ResponsePart :=
  match Gemini.orEmpty (Gemini.candidates response) with
  | [] => []
  | candidate :: _ =>
      match Gemini.content candidate with
      | Some c => Gemini.orEmpty (Gemini.content_parts c)
      | None => []
      end
  end.

(** *** Client *)

(** The world after [n] more requests [req] and the further delays
    [delays]. *)
Definition after (w : Gemini.World) (req : Gemini.Request) (n : nat) (delays : list Z)
  : Gemini.World :=
  Gemini.mkWorld (Gemini.upstream w) (Gemini.sent w ++ repeat req n)
                 (Gemini.slept w ++ delays) (Gemini.now w).

(** The outcome of the [k]-th request from [w] on, when it is [req]. *)
Definition outcome (w : Gemini.World) (req : Gemini.Request) (k : nat) : Gemini.FetchOutcome :=
  Gemini.upstream w (List.length (Gemini.sent w) + k) req.

(** An error is retried by [retryWithBackoff] when it is an [Error] whose
    message does not contain "400" and contains "429" or "5". *)
Definition retryable (error : Js.Thrown) : bool :=
  negb (Gemini.errorMessageIncludes error "400") &&
  (Gemini.errorMessageIncludes error "429" || Gemini.errorMessageIncludes error "5").

(** A status that is neither OK nor one of those [fetchWithRetry] means
    to retry. *)
Definition terminal (res : Gemini.Response) : bool :=
  negb (Gemini.ok res) && negb (Gemini.retriedStatus res).

(** What the [k]-th run of the operation of [generateContent] gives, from
    [w] on. *)
Definition result (baseUrl : string) (encodeURIComponent : string -> string)
    (parse : string -> Js.Thrown + Gemini.GeminiResponse) (request : Gemini.GeminiRequest)
    (w : Gemini.World) (k : nat) : Js.Thrown + Gemini.GeminiResponse :=
  Gemini.readGenerate parse
    (outcome w (Gemini.generateRequest baseUrl encodeURIComponent request) k).

(** *** Request mapping *)

(** A part whose tag the [switch] knows. *)
Definition recognized (part : Index.ContentPart) : bool :=
  match part with Index.unknown _ => false | _ => true end.

(** An inline-bytes part is within the size ceiling. *)
Definition withinCeiling (part : Index.ContentPart) : bool :=
  match part with
  | Index.inline_data data _ => Media.validateDataSize data
  | _ => true
  end.

(** The text part that stands for a media part whose fetch failed. *)
Definition loadError (url err : string) : Gemini.GeminiPart :=
  Gemini.TextPart ("[Error loading media from " ++ url ++ ": " ++ err ++ "]").

(** The native part a content part is mapped to. *)
Definition emits (part : Index.ContentPart) (g : Gemini.GeminiPart) : Prop :=
  match part with
  | Index.text t => g = Gemini.TextPart t
  | Index.image_url url _ | Index.audio_url url _ | Index.video_url url _ =>
      (exists data mimeType, g = Gemini.InlineDataPart data mimeType) \/
      (exists err, g = loadError url err)
  | Index.inline_data data mimeType => g = Gemini.InlineDataPart data mimeType
  | Index.file_uri uri mimeType => g = Gemini.FileDataPart uri mimeType
  | Index.unknown _ => False
  end.

(** The parts of a content, a bare string having none to check. *)
Definition partsOfContent (content : Index.Content) : list Index.ContentPart :=
  match content with Index.Plain _ => [] | Index.Parts l => l end.

(** The system fragments of a list of messages: the trimmed texts that
    are not empty, in order. *)
Definition fragments (messages : list Index.Message) : list string :=
  filter Js.nonEmpty (map (fun m => Js.trim (Index.messageText m)) messages).

(** The fragment list starts with the top-level instruction, if any. *)
Definition seed (systemInstruction : option string) : list string :=
  match systemInstruction with
  | Some s => if Js.nonEmpty s then [s] else []
  | None => []
  end.

(** The merged instruction of a list of fragments. *)
Definition merged (l : list string) : option string :=
  match l with
  | [] => None
  | _ => Some (Js.join Js.blankLine l)
  end.

(** The URL of a media part. *)
Definition mediaUrl (part : Index.ContentPart) : option string :=
  match part with
  | Index.image_url url _ | Index.audio_url url _ | Index.video_url url _ => Some url
  | _ => None
  end.



Definition isSystem (message : Index.Message) : bool :=
  match Index.role message with Index.system => true | _ => false end.

(** The role of the turn made from a message that is not a system
    message. *)
Definition turnRole (message : Index.Message) : Gemini.TurnRole :=
  match Index.role message with Index.user => Gemini.user | _ => Gemini.model end.

(** A message whose content gives at least one native part: a bare
    string, or a list with a part of a recognized tag. *)
Definition hasParts (message : Index.Message) : bool :=
  match Index.content message with
  | Index.Plain _ => true
  | Index.Parts l => existsb recognized l
  end.

(** The MIME type hint of a media part. *)
Definition mediaHint (part : Index.ContentPart) : option string :=
  match part with
  | Index.image_url _ hint | Index.audio_url _ hint | Index.video_url _ hint => hint
  | _ => None
  end.

(** The type of the media fetcher. *)
Definition Fetcher : Type :=
  string -> option string -> Media.World ->
  (Js.Thrown + Media.InlineDataResult) * Media.World.

(** What a list of content parts is mapped to, part by part, with the
    fetcher [fetch] and from the world [w]: a text part gives its text; a
    media part gives the inline data the fetcher returned for its URL
    and hint, or, when the fetcher threw or what it returned is over the
    size ceiling, one text part that names the URL and the error; an
    inline-bytes part and a file part give their own data; a part with
    an unrecognized tag gives nothing. The fetches happen in the order of
    the parts, each in the world the one before has left. *)
Inductive Rendered (fetch : Fetcher)
  : list Index.ContentPart -> Media.World -> list Gemini.GeminiPart -> Media.World -> Prop :=
| rendered_nil (w : Media.World) : Rendered fetch [] w [] w
| rendered_text (t : string) rest w parts w' :
    Rendered fetch rest w parts w' ->
    Rendered fetch (Index.text t :: rest) w (Gemini.TextPart t :: parts) w'
| rendered_fetched part url rest w r w1 parts w' :
    mediaUrl part = Some url ->
    fetch url (mediaHint part) w = (inr r, w1) ->
    Media.validateDataSize (Media.data r) = true ->
    Rendered fetch rest w1 parts w' ->
    Rendered fetch (part :: rest) w
      (Gemini.InlineDataPart (Media.data r) (Media.mimeType r) :: parts) w'
| rendered_failed part url rest w e w1 parts w' :
    mediaUrl part = Some url ->
    fetch url (mediaHint part) w = (inl e, w1) ->
    Rendered fetch rest w1 parts w' ->
    Rendered fetch (part :: rest) w (loadError url (Js.thrownToString e) :: parts) w'
| rendered_too_large part url rest w r w1 parts w' :
    mediaUrl part = Some url ->
    fetch url (mediaHint part) w = (inr r, w1) ->
    Media.validateDataSize (Media.data r) = false ->
    Rendered fetch rest w1 parts w' ->
    Rendered fetch (part :: rest) w
      (loadError url ("Error: Media file too large: " ++ url) :: parts) w'
| rendered_inline data mimeType rest w parts w' :
    Rendered fetch rest w parts w' ->
    Rendered fetch (Index.inline_data data mimeType :: rest) w
      (Gemini.InlineDataPart data mimeType :: parts) w'
| rendered_file uri mimeType rest w parts w' :
    Rendered fetch rest w parts w' ->
    Rendered fetch (Index.file_uri uri mimeType :: rest) w
      (Gemini.FileDataPart uri mimeType :: parts) w'
| rendered_unknown tag rest w parts w' :
    Rendered fetch rest w parts w' ->
    Rendered fetch (Index.unknown tag :: rest) w parts w'.

(** The type of the mapping of one content. *)
Definition ContentMapper : Type :=
  Index.Content -> Media.World -> (Js.Thrown + list Gemini.GeminiPart) * Media.World.

(** The turns of a list of messages, message by message, with the
    mapping [mapContent] of a content and from the world [w]: a system
    message gives no turn; any other message gives one turn, with its
    role and the parts its content is mapped to, unless these are none.
    The contents are mapped in the order of the messages, each in the
    world the one before has left. *)
Inductive Turns (mapContent : ContentMapper)
  : list Index.Message -> Media.World -> list Gemini.GeminiContent -> Media.World -> Prop :=
| turns_nil (w : Media.World) : Turns mapContent [] w [] w
| turns_system message rest w turns w' :
    isSystem message = true ->
    Turns mapContent rest w turns w' ->
    Turns mapContent (message :: rest) w turns w'
| turns_turn message rest w part parts w1 turns w' :
    isSystem message = false ->
    mapContent (Index.content message) w = (inr (part :: parts), w1) ->
    Turns mapContent rest w1 turns w' ->
    Turns mapContent (message :: rest) w
      (Gemini.mkContent (turnRole message) (part :: parts) :: turns) w'
| turns_none message rest w w1 turns w' :
    isSystem message = false ->
    mapContent (Index.content message) w = (inr [], w1) ->
    Turns mapContent rest w1 turns w' ->
    Turns mapContent (message :: rest) w turns w'.



(** The first [m] delays of a loop that starts at attempt [a] and waits
    [unit * 2 ^ attempt] before the next one. *)
Definition backoffs (unit a : Z) (m : nat) : list Z :=
  map (fun i => unit * 2 ^ (a + Z.of_nat i)) (seq 0 m).

(** *** Event collector *)

(** The last [n] elements of a list (all of them when there are fewer). *)
Definition keepLast {A : Type} (n : nat) (l : list A) : list A :=
  skipn (List.length l - n) l.

(** A series of calls of [recordEvent], each with the time of the call. *)
Definition recordAll {number : Type} (zero : number)
    (calls : list (string * Observability.PartialEvent number))
    (events : list (Observability.ObservabilityEvent number))
  : list (Observability.ObservabilityEvent number) :=
  fold_left (fun events call => Observability.recordEvent number zero (fst call) (snd call) events)
            calls events.

(** *** Address ranges *)

(** The numbers an octet of an IPv4 address can be. *)
Definition octets : list Z := Eval vm_compute in map Z.of_nat (seq 0 256).

(** A host name that starts with two decimal octets. *)
Definition dotted (a b : Z) (rest : string) : string :=
  Js.numberToString a ++ "." ++ Js.numberToString b ++ "." ++ rest.

(** Some pattern of [DISALLOWED_NETWORKS] matches the host name. *)
Definition matchesNetwork (hostname : string) : bool :=
  existsb (fun pattern => pattern hostname) Media.DISALLOWED_NETWORKS.

(** The first two octets of the loopback (127/8), private (10/8,
    172.16/12, 192.168/16) and link-local (169.254/16) ranges. *)
Definition privateV4 (a b : Z) : bool :=
  (a =? 127) || (a =? 10) || (a =? 192) && (b =? 168) ||
  (a =? 172) && (16 <=? b) && (b <=? 31) || (a =? 169) && (b =? 254).

End Spec.

(* ===================================================================== *)
(** ** Concrete inputs *)
(* ===================================================================== *)

Module Scenarios.

Definition base : string := "https://generativelanguage.googleapis.com/v1beta".

(** [encodeURIComponent] on the model names used here, which have no
    character to escape. *)
Definition plain (s : string) : string := s.

Definition notFoundBody : Js.Value :=
  Js.Object [("error", Js.Object [("code", Js.Number 404);
                                  ("message", Js.Str "File not found");
                                  ("status", Js.Str "NOT_FOUND")])].

Definition notFoundResponse : Gemini.Response :=
  Gemini.mkHttpResponse 404 "Not Found" (inr "(error body)").

(** An upstream that answers every request with 404 and an error body. *)
Definition notFound : Gemini.World :=
  Gemini.mkWorld (fun _ _ => Gemini.Resolved notFoundResponse) [] [] 0.

(** [JSON.parse] on the error body above. *)
Definition parseNotFound (text : string) : Js.Thrown + Js.Value := inr notFoundBody.

Definition deleteRequest : Gemini.Request :=
  Gemini.mkHttpRequest "DELETE" (base ++ "/files/abc123") None Gemini.NoBody.

Definition emptyRequest : Gemini.GeminiRequest :=
  Gemini.mkRequest "gemini-2.5-flash" None [] [].

Definition emptyResponse : Gemini.GeminiResponse := Gemini.mkResponse None None None.

Definition parseEmpty (text : string) : Js.Thrown + Gemini.GeminiResponse :=
  inr emptyResponse.

(** An upstream that answers 503 once and then 200. *)
Definition recovering : Gemini.World :=
  Gemini.mkWorld
    (fun k _ => match k with
                | O => Gemini.Resolved
                         (Gemini.mkHttpResponse 503 "Service Unavailable" (inr EmptyString))
                | _ => Gemini.Resolved (Gemini.mkHttpResponse 200 "OK" (inr "{}"))
                end)
    [] [] 0.

(** An upstream that answers 404 with an empty body. *)
Definition notFoundEmpty : Gemini.World :=
  Gemini.mkWorld
    (fun _ _ => Gemini.Resolved (Gemini.mkHttpResponse 404 "Not Found" (inr EmptyString)))
    [] [] 0.

(** An upstream that answers every request with 200. *)
Definition answering : Gemini.World :=
  Gemini.mkWorld
    (fun _ _ => Gemini.Resolved (Gemini.mkHttpResponse 200 "OK" (inr "(reply)")))
    [] [] 0.

(** A response stopped for safety, and one with a blocked prompt whose
    rating is an object. *)
Definition stoppedForSafety : Gemini.GeminiResponse :=
  Gemini.mkResponse
    (Some [Gemini.mkCandidate None (Some "SAFETY") None None]) None None.

Definition blockedPrompt : Gemini.GeminiResponse :=
  Gemini.mkResponse (Some [])
    (Some (Gemini.mkPromptFeedback
             (Some [Js.Object [("category", Js.Str "HARM_CATEGORY_HATE_SPEECH");
                               ("probability", Js.Str "HIGH");
                               ("blocked", Js.Bool true)]])))
    None.


(** Runtime functions for the runs of the mapping; no result there
    depends on them. *)
Definition noBytes (s : string) : list Z := [].
Definition noText (b : list Z) : string := EmptyString.
Definition noType (b : list Z) : option string := None.
Definition noDigits (q : Q) : string := EmptyString.

(** A network on which every request fails. *)
Definition offline : Media.World :=
  Media.mkWorld (fun _ _ => Media.Rejected (Js.newError "network unreachable")) [].

(** A network on which every request is answered with three bytes
    labelled as a PNG image. *)
Definition serving : Media.World :=
  Media.mkWorld
    (fun _ _ => Media.Resolved (Media.mkResponse 200 "OK" (Some "image/png") (inr [1; 2; 3])))
    [].

Definition sample : list Index.ContentPart :=
  [ Index.text "describe";
    Index.unknown "sticker";
    Index.image_url "https://example.com/image.png" None;
    Index.inline_data "AAAA" "image/png";
    Index.file_uri "files/abc" None ].

Definition systemMessages : list Index.Message :=
  [ Index.mkMessage Index.system (Index.Plain "  Be brief. ");
    Index.mkMessage Index.system (Index.Parts [Index.text "Answer in French."]);
    Index.mkMessage Index.system (Index.Plain "   ") ].

Definition padded : list Index.Message :=
  [ Index.mkMessage Index.system (Index.Plain " hi ") ].

Definition blank : list Index.Message :=
  [ Index.mkMessage Index.system (Index.Plain "   ") ].

Definition abc : Index.GeminiEmbeddingsArgs :=
  Index.mkEmbeddingsArgs ["a"; "b"; "c"] "text-embedding-004" "unspecified" "NONE" None.

(** A reply that lists the vectors [l]. *)
Definition vectors (l : list (list Z)) : Gemini.BatchEmbedContentsResponse Z :=
  Gemini.mkBatchResponse (Some (map (fun v => Gemini.mkEmbedding (Some v)) l)).

(** [JSON.parse] on a reply that lists the vectors [l]. *)
Definition parseVectors (l : list (list Z)) (text : string)
  : Js.Thrown + Gemini.BatchEmbedContentsResponse Z := inr (vectors l).

Definition parseNull (text : string) : Js.Thrown + Js.Value := inr Js.Null.

(** The vectors of the texts "a", "b" and "c". *)
Definition embedOf (t : string) : list Z :=
  if (t =? "a")%string then [1] else if (t =? "b")%string then [2] else [3].

(** The error of an engine whose backtrack stack is full. *)
Definition stackOverflow : Js.Thrown :=
  Js.ThrowError (Js.mkError "RangeError" "Maximum call stack size exceeded" []).

(** A regular expression engine for [base64Regex] whose backtrack stack
    takes the groups of a string of 4000000 characters and no more. *)
Definition boundedEngine (s : string) : Js.Thrown + bool :=
  if 4000000 <? Js.length s then inl stackOverflow else inr (Schemas.base64Regex s).

(** A check of timestamps that knows one instant. *)
Definition newYear (s : string) : bool := (s =? "2030-01-01T00:00:00Z")%string.

(** Temporary retention for one minute. *)
Definition oneMinute : Wave1Schemas.RetentionInput :=
  Wave1Schemas.mkRetentionInput "temporary" (Some (60 # 1)) None.

(** A response that ended normally. *)
Definition completed : Gemini.GeminiResponse :=
  Gemini.mkResponse
    (Some [Gemini.mkCandidate
             (Some (Gemini.mkResponseContent
                      (Some [Gemini.mkResponsePart (Some "Hello") Js.Undefined])
                      (Some "model")))
             (Some "STOP") (Some 0) None])
    None
    (Some (Gemini.mkUsageMetadata (Some 3) (Some 1) (Some 4))).

(** A conversation with a system message in the middle and a message
    whose only part has an unrecognized tag. *)
Definition conversation : list Index.Message :=
  [ Index.mkMessage Index.user (Index.Plain "Hi");
    Index.mkMessage Index.system (Index.Plain "Be brief.");
    Index.mkMessage Index.assistant (Index.Parts [Index.text "Hello"]);
    Index.mkMessage Index.user (Index.Parts [Index.unknown "sticker"]);
    Index.mkMessage Index.model (Index.Plain "ok") ].

(** The turns of that conversation. *)
Definition conversationTurns : list Gemini.GeminiContent :=
  [ Gemini.mkContent Gemini.user [Gemini.TextPart "Hi"];
    Gemini.mkContent Gemini.model [Gemini.TextPart "Hello"];
    Gemini.mkContent Gemini.model [Gemini.TextPart "ok"] ].

(** Three texts to embed in 768 dimensions, as offered to the schema and
    as the schema returns them. *)
Definition threeTexts : Wave1Schemas.EmbeddingsInput :=
  Wave1Schemas.mkEmbeddingsInput ["a"; "b"; "c"] None None None (Some (768 # 1)) [].

Definition threeTextsArgs : Index.GeminiEmbeddingsArgs :=
  Index.mkEmbeddingsArgs ["a"; "b"; "c"] "text-embedding-004" "unspecified" "NONE" (Some 768).

End Scenarios.

(* ===================================================================== *)
(** ** Properties of the upload-source validation *)
(* ===================================================================== *)

Module JsFacts.

Example trim_both_ends : Js.trim "  a b  " = "a b".
Proof. reflexivity. Qed.

Example trim_blank : Js.trim "   " = EmptyString.
Proof. reflexivity. Qed.

Example endsWith_padding : Js.endsWith "TQ==" "==" = true /\ Js.endsWith "TWE=" "==" = false.
Proof. split; reflexivity. Qed.

Example includes_digit : Js.includes "404 Not Found - " "5" = false.
Proof. reflexivity. Qed.

Example lower_case_host : Js.toLowerCase "Example.COM" = "example.com".
Proof. reflexivity. Qed.

Example upload_base_url :
  Js.replaceFirst "https://host/v1beta" "/v1beta" "/upload/v1beta" = "https://host/upload/v1beta".
Proof. reflexivity. Qed.

Example array_as_text : Js.toStr (Js.Array [Js.Number 1; Js.Null; Js.Str "x"]) = "1,,x".
Proof. reflexivity. Qed.

Example error_as_text :
  Js.thrownToString (Js.newError "network unreachable") = "Error: network unreachable".
Proof. reflexivity. Qed.

Lemma includes_empty (s : string) : Js.includes s EmptyString = true.
Proof. destruct s; reflexivity. Qed.

Lemma endsWith_refl (s : string) : Js.endsWith s s = true.
Proof. destruct s; cbn [Js.endsWith]; rewrite String.eqb_refl; reflexivity. Qed.

Lemma trimStart_no_leading_space (s : string) (c : ascii) (t : string) :
  Js.trimStart s = String c t -> Js.isWhiteSpace c = false.
Proof.
  induction s as [ | x s IH]; cbn; [ discriminate | ].
  destruct (Js.isWhiteSpace x) eqn:Hx; [ exact IH | ].
  intros [= <- <-]. exact Hx.
Qed.

End JsFacts.

Module SchemasFacts.
Import Schemas Spec.

Example regex_accepts_padded : base64Regex "TWE=" = true.
Proof. reflexivity. Qed.

Example regex_refuses_misplaced_padding : base64Regex "TQ==TWFu" = false.
Proof. reflexivity. Qed.

Example decode_Man : decodeBase64 "TWFu" = Some [77; 97; 110].
Proof. reflexivity. Qed.

Example size_of_padded : approximateBase64DecodedBytes "TQ==" = 1.
Proof. reflexivity. Qed.

Example empty_payload_refused :
  SourceBase64Schema EmptyString =
  ["String must contain at least 4 character(s)"; "Base64 payload is empty."].
Proof. reflexivity. Qed.

Lemma length_String (c : ascii) (s : string) :
  Js.length (String c s) = 1 + Js.length s.
Proof. unfold Js.length. cbn [String.length]. lia. Qed.

Lemma length_nonneg (s : string) : 0 <= Js.length s.
Proof. unfold Js.length. lia. Qed.

Lemma alphabet_not_eq (c : ascii) : isBase64Char c = true -> isEq c = false.
Proof.
  destruct c as [[] [] [] [] [] [] [] []]; vm_compute; congruence.
Qed.

(** A pattern shorter than the string is a suffix of it exactly when it
    is a suffix of its tail. *)
Lemma endsWith_tail (c : ascii) (s p : string) :
  (String.length p < String.length (String c s))%nat ->
  Js.endsWith (String c s) p = Js.endsWith s p.
Proof.
  intros Hlen. cbn [Js.endsWith].
  destruct (String.eqb_spec (String c s) p) as [E | _]; [ | reflexivity ].
  subst p. lia.
Qed.

Ltac case_chars :=
  repeat match goal with
         | |- context [Ascii.eqb ?x ?y] => destruct (Ascii.eqb x y)
         end; reflexivity.

Lemma padding_group (a b c d : ascii) (rest : string) :
  (2 <= String.length rest)%nat ->
  padding (String a (String b (String c (String d rest)))) = padding rest.
Proof.
  intros H. unfold padding.
  rewrite !endsWith_tail by (cbn [String.length]; lia). reflexivity.
Qed.

Lemma regex_short (s : string) :
  base64Regex s = true -> s <> EmptyString -> (4 <= String.length s)%nat.
Proof.
  destruct s as [ | a [ | b [ | c [ | d rest]]]]; cbn; try congruence; intros; lia.
Qed.

Lemma approx_unfold (s : string) :
  approximateBase64DecodedBytes s = (Js.length s * 3) / 4 - padding s.
Proof. reflexivity. Qed.

(** The decoder is defined exactly on the strings the schema's regular
    expression matches, and the size formula gives the number of bytes it
    returns. *)
Lemma decode_regex_size (n : nat) :
  forall s, (String.length s <= n)%nat ->
    (base64Regex s = true ->
       Js.length s mod 4 = 0 /\
       exists bytes, decodeBase64 s = Some bytes /\
         Z.of_nat (List.length bytes) = approximateBase64DecodedBytes s) /\
    (forall bytes, decodeBase64 s = Some bytes -> base64Regex s = true).
Proof.
  induction n as [ | n IH]; intros s Hn.
  - destruct s; cbn in Hn; [ | lia ].
    split; [ intros _; split; [ reflexivity | exists []; split; reflexivity ] | reflexivity ].
  - destruct s as [ | a [ | b [ | c [ | d rest]]]];
      try (split; [ cbn; congruence | cbn; congruence ]).
    + split; [ intros _; split; [ reflexivity | exists []; split; reflexivity ] | reflexivity ].
    + cbn [String.length] in Hn.
      destruct (IH rest ltac:(lia)) as [IHr IHd].
      cbn [base64Regex decodeBase64].
      destruct (isBase64Char a && isBase64Char b && isBase64Char c && isBase64Char d) eqn:Hq.
      * apply andb_prop in Hq as [Hq Hd]. apply andb_prop in Hq as [Hq Hc].
        split.
        -- intros Hr. destruct (IHr Hr) as [Hmod [bytes [Hdec Hlen]]].
           split.
           { rewrite !length_String.
             replace (1 + (1 + (1 + (1 + Js.length rest)))) with (Js.length rest + 1 * 4) by lia.
             rewrite Z.mod_add by lia. exact Hmod. }
           rewrite Hdec. eexists; split; [ reflexivity | ].
           cbn [List.length]. rewrite approx_unfold in *.
           rewrite !length_String.
           destruct rest as [ | r0 rest'].
           ++ cbn in Hdec. injection Hdec as <-.
              unfold padding. cbn [Js.endsWith String.eqb].
              apply alphabet_not_eq in Hd. unfold isEq in Hd.
              rewrite Hd. cbn. case_chars.
           ++ assert (Hge : (4 <= String.length (String r0 rest'))%nat)
                by (apply regex_short; [ exact Hr | discriminate ]).
              rewrite padding_group by lia.
              pose proof (length_nonneg (String r0 rest')) as Hnn.
              revert Hlen Hmod. generalize (padding (String r0 rest')).
              generalize (Js.length (String r0 rest')).
              generalize (List.length bytes). intros k L p Hlen Hmod.
              Z.to_euclidean_division_equations. lia.
        -- intros bytes Hdec. destruct (decodeBase64 rest) as [bs | ]; [ | discriminate ].
           eapply IHd; reflexivity.
      * destruct (isBase64Char a && isBase64Char b) eqn:Hab; cbn [andb];
          [ | split; [ congruence | intros; discriminate ] ].
        destruct rest as [ | r0 rest']; cbn [Js.nonEmpty negb];
          [ | rewrite andb_false_r; split; [ congruence | intros; discriminate ] ].
        rewrite andb_true_r.
        destruct (isEq c && isEq d) eqn:Hcd.
        -- apply andb_prop in Hcd as [Hc Hd]. unfold isEq in *.
           apply Ascii.eqb_eq in Hc, Hd. subst c d.
           split; [ intros _ | reflexivity ].
           split; [ reflexivity | ].
           eexists; split; [ reflexivity | ].
           rewrite approx_unfold. unfold padding. cbn. case_chars.
        -- cbn [orb].
           destruct (isBase64Char c && isEq d) eqn:Hcd'.
           ++ apply andb_prop in Hcd' as [Hc Hd]. unfold isEq in Hd.
              apply Ascii.eqb_eq in Hd. subst d.
              split; [ intros _ | reflexivity ].
              split; [ reflexivity | ].
              eexists; split; [ reflexivity | ].
              rewrite approx_unfold. unfold padding.
              cbn [Js.endsWith String.eqb].
              apply alphabet_not_eq in Hc. unfold isEq in Hc. rewrite Hc.
              cbn. case_chars.
           ++ split; [ congruence | intros; discriminate ].
Qed.

Lemma decode_size (b64 : string) (bytes : list Z) :
  decodeBase64 b64 = Some bytes ->
  base64Regex b64 = true /\
  approximateBase64DecodedBytes b64 = Z.of_nat (List.length bytes).
Proof.
  intros Hdec.
  destruct (decode_regex_size (String.length b64) b64 (le_n _)) as [Hr Hd].
  pose proof (Hd _ Hdec) as Hre. split; [ exact Hre | ].
  destruct (Hr Hre) as [_ [bytes' [Hdec' Hlen]]].
  congruence.
Qed.

(** The reference decoder returns bytes. *)
Lemma sextet_range (c : ascii) : 0 <= sextet c < 64.
Proof.
  destruct c as [[] [] [] [] [] [] [] []]; vm_compute; split;
    first [ discriminate | reflexivity ].
Qed.

Lemma below_forallb (P : Z -> bool) (n : nat) :
  forallb P (map Z.of_nat (seq 0 n)) = true ->
  forall x, 0 <= x < Z.of_nat n -> P x = true.
Proof.
  intros H x Hx. rewrite forallb_forall in H. apply H.
  apply in_map_iff. exists (Z.to_nat x). split; [ lia | apply in_seq; lia ].
Qed.

Lemma below_forallb2 (P : Z -> Z -> bool) (n : nat) :
  forallb (fun x => forallb (P x) (map Z.of_nat (seq 0 n))) (map Z.of_nat (seq 0 n)) = true ->
  forall x y, 0 <= x < Z.of_nat n -> 0 <= y < Z.of_nat n -> P x y = true.
Proof.
  intros H x y Hx Hy.
  apply (below_forallb (P x) n); [ | exact Hy ].
  apply (below_forallb (fun x => forallb (P x) (map Z.of_nat (seq 0 n))) n H x Hx).
Qed.

Lemma bytes_of_sextets (x y : Z) :
  0 <= x < 64 -> 0 <= y < 64 ->
  isByte (Z.lor (Z.shiftl x 2) (Z.shiftr y 4)) /\
  isByte (Z.lor (Z.shiftl (Z.land x 15) 4) (Z.shiftr y 2)) /\
  isByte (Z.lor (Z.shiftl (Z.land x 3) 6) y).
Proof.
  intros Hx Hy. unfold isByte.
  pose proof (below_forallb2
    (fun x y =>
       let inByte b := (0 <=? b) && (b <? 256) in
       inByte (Z.lor (Z.shiftl x 2) (Z.shiftr y 4)) &&
       inByte (Z.lor (Z.shiftl (Z.land x 15) 4) (Z.shiftr y 2)) &&
       inByte (Z.lor (Z.shiftl (Z.land x 3) 6) y))
    64 ltac:(vm_compute; reflexivity) x y Hx Hy) as H.
  cbv zeta in H.
  repeat (apply andb_prop in H; destruct H as [H ?]).
  repeat match goal with
         | H : (_ <=? _) = true |- _ => apply Z.leb_le in H
         | H : (_ <? _) = true |- _ => apply Z.ltb_lt in H
         end.
  lia.
Qed.

Lemma decode_bytes (n : nat) :
  forall s bytes, (String.length s <= n)%nat ->
    decodeBase64 s = Some bytes -> Forall isByte bytes.
Proof.
  induction n as [ | n IH]; intros s bytes Hn Hdec.
  - destruct s; cbn in Hn; [ | lia ]. injection Hdec as <-. constructor.
  - destruct s as [ | a [ | b [ | c [ | d rest]]]]; try discriminate.
    + injection Hdec as <-. constructor.
    + cbn [String.length] in Hn. cbn [decodeBase64] in Hdec.
      destruct (bytes_of_sextets _ _ (sextet_range a) (sextet_range b)) as (B1 & _ & _).
      destruct (bytes_of_sextets _ _ (sextet_range b) (sextet_range c)) as (_ & B2 & _).
      destruct (bytes_of_sextets _ _ (sextet_range c) (sextet_range d)) as (_ & _ & B3).
      destruct (isBase64Char a && isBase64Char b && isBase64Char c && isBase64Char d).
      * destruct (decodeBase64 rest) as [bs | ] eqn:Hrest; [ | discriminate ].
        injection Hdec as <-.
        constructor; [ exact B1 | ]. constructor; [ exact B2 | ].
        constructor; [ exact B3 | ].
        apply (IH rest bs); [ lia | exact Hrest ].
      * destruct (isBase64Char a && isBase64Char b && negb (Js.nonEmpty rest));
          [ | discriminate ].
        destruct (isEq c && isEq d).
        { injection Hdec as <-. constructor; [ exact B1 | constructor ]. }
        destruct (isBase64Char c && isEq d); [ | discriminate ].
        injection Hdec as <-.
        constructor; [ exact B1 | ]. constructor; [ exact B2 | constructor ].
Qed.

Lemma padding_range (s : string) : 0 <= padding s <= 2.
Proof. unfold padding. destruct (Js.endsWith s "=="), (Js.endsWith s "="); lia. Qed.

(** When the engine answers, the schema reports the issues listed by
    [SourceBase64Schema]. *)
Lemma parse_answered (test : string -> Js.Thrown + bool) (b64 : string) :
  test b64 = inr (base64Regex b64) ->
  parseSourceBase64 test b64 = inr (SourceBase64Schema b64).
Proof. unfold parseSourceBase64, SourceBase64Schema. intros ->. reflexivity. Qed.

(** C9 (what the schema does at the ceiling). The size the schema
    compares with the ceiling, computed from the length of the string and
    its padding, is exactly the number of bytes the payload decodes to, and
    where the regular expression engine answers, a payload of exactly
    50 MiB (52428800 bytes) is accepted and one of a byte more is reported
    as too large. But the test of the regular expression comes first, and
    where the engine throws on the payload the schema throws with it: the
    payload of exactly 50 MiB is then not accepted, and the one of a byte
    more is not reported as too large. *)
Theorem upload_base64_size_boundary (test : string -> Js.Thrown + bool)
    (b64 : string) (bytes : list Z) :
  decodeBase64 b64 = Some bytes ->
  approximateBase64DecodedBytes b64 = Z.of_nat (List.length bytes) /\
  (test b64 = inr (base64Regex b64) ->
   (Z.of_nat (List.length bytes) = 52428800 -> parseSourceBase64 test b64 = inr []) /\
   (Z.of_nat (List.length bytes) = 52428800 + 1 ->
    parseSourceBase64 test b64 = inr ["Base64 payload exceeds 50 MiB (decoded)."])) /\
  (forall e, test b64 = inl e -> parseSourceBase64 test b64 = inl e).
Proof.
  intros Hdec. destruct (decode_size _ _ Hdec) as [Hre Hsize].
  split; [ exact Hsize | ].
  assert (Hlen : forall k, 3 <= k -> approximateBase64DecodedBytes b64 = k ->
                   (4 <=? Js.length b64) = true).
  { intros k Hk Hk'. rewrite approx_unfold in Hk'.
    pose proof (padding_range b64). apply Z.leb_le.
    Z.to_euclidean_division_equations. lia. }
  split.
  - intros Hanswer. rewrite (parse_answered test b64 Hanswer).
    unfold SourceBase64Schema. rewrite Hre. cbv zeta. rewrite Hsize.
    split; intros Hk.
    + rewrite (Hlen 52428800) by (lia || congruence). rewrite Hk. reflexivity.
    + rewrite (Hlen (52428800 + 1)) by (lia || congruence). rewrite Hk. reflexivity.
  - intros e He. unfold parseSourceBase64. rewrite He. reflexivity.
Qed.

(** Payloads at the ceiling: [n] groups ["AAAA"] decode to [3 * n] zero
    bytes. *)
Lemma decode_group (s : string) :
  decodeBase64 ("AAAA" ++ s) =
  match decodeBase64 s with
  | Some bytes => Some (0 :: 0 :: 0 :: bytes)
  | None => None
  end.
Proof. reflexivity. Qed.

Lemma decode_quads (n : N) (last : string) (lastBytes : list Z) :
  decodeBase64 last = Some lastBytes ->
  decodeBase64 (quads n last) = Some (zeros n lastBytes).
Proof.
  intros Hlast. unfold quads, zeros.
  induction n as [ | n IH] using N.peano_ind; [ exact Hlast | ].
  rewrite !N.iter_succ, decode_group, IH. reflexivity.
Qed.

Lemma length_zeros (n : N) (last : list Z) :
  Z.of_nat (List.length (zeros n last)) = 3 * Z.of_N n + Z.of_nat (List.length last).
Proof.
  unfold zeros. induction n as [ | n IH] using N.peano_ind; [ reflexivity | ].
  rewrite N.iter_succ. cbn [List.length]. lia.
Qed.

Lemma length_quads (n : N) (last : string) :
  Js.length (quads n last) = 4 * Z.of_N n + Js.length last.
Proof.
  unfold quads. induction n as [ | n IH] using N.peano_ind; [ reflexivity | ].
  rewrite N.iter_succ.
  change ("AAAA" ++ N.iter n (fun s => "AAAA" ++ s) last)%string
    with (String "A" (String "A" (String "A" (String "A"
            (N.iter n (fun s => "AAAA" ++ s)%string last))))).
  rewrite !length_String, IH. lia.
Qed.

(** The payloads at the ceiling are strings of some 70 million
    characters: 17476266 full groups and the padded group ["AAA="] decode
    to 52428800 bytes, and 17476267 full groups to 52428801 bytes. An
    engine whose stack is full after 4000000 characters throws on both, and
    so does the schema. *)
Lemma upload_base64_size_boundary_witness :
  approximateBase64DecodedBytes (quads 17476266 "AAA=") = 52428800 /\
  parseSourceBase64 Scenarios.boundedEngine (quads 17476266 "AAA=") =
    inl Scenarios.stackOverflow /\
  approximateBase64DecodedBytes (quads 17476267 "") = 52428801 /\
  parseSourceBase64 Scenarios.boundedEngine (quads 17476267 "") =
    inl Scenarios.stackOverflow.
Proof.
  assert (Hthrows : forall n last, 1000000 < Z.of_N n ->
            Scenarios.boundedEngine (quads n last) = inl Scenarios.stackOverflow).
  { intros n last Hn. unfold Scenarios.boundedEngine. rewrite length_quads.
    pose proof (length_nonneg last).
    destruct (Z.ltb_spec 4000000 (4 * Z.of_N n + Js.length last)) as [ _ | Hge ];
      [ reflexivity | lia ]. }
  destruct (upload_base64_size_boundary Scenarios.boundedEngine
              (quads 17476266 "AAA=") (zeros 17476266 [0; 0]))
    as [Hsize [_ Hthrow]]; [ apply decode_quads; reflexivity | ].
  destruct (upload_base64_size_boundary Scenarios.boundedEngine
              (quads 17476267 "") (zeros 17476267 []))
    as [Hsize' [_ Hthrow']]; [ apply decode_quads; reflexivity | ].
  rewrite length_zeros in Hsize, Hsize'.
  split; [ exact Hsize | ]. split; [ apply Hthrow, Hthrows; lia | ].
  split; [ exact Hsize' | apply Hthrow', Hthrows; lia ].
Defined.

End SchemasFacts.

(* ===================================================================== *)
(** ** Properties of the media fetcher *)
(* ===================================================================== *)

Module MediaFacts.
Import Media Spec.

Section Runtime.

Variable base64Decode : string -> list Z.
Variable base64Encode : list Z -> string.
Variable fileTypeFromBuffer : list Z -> option string.
Variable toFixed2 : Q -> string.

Local Abbreviation fetchAsInlineData :=
  (Media.fetchAsInlineData base64Decode base64Encode fileTypeFromBuffer toFixed2).
Local Abbreviation parseDataUrl := (Media.parseDataUrl base64Decode).

(** A URL that the guard refuses is thrown back before any request. *)
Example url_of_image :
  newURL "https://example.com/image.png" = Some (mkURL "https:" "example.com").
Proof. reflexivity. Qed.

Example url_with_credentials_and_port :
  newURL "HTTP://User:pw@Example.COM:8080/a?b#c" = Some (mkURL "http:" "example.com").
Proof. reflexivity. Qed.

Example url_without_scheme : newURL "/relative/path" = None.
Proof. reflexivity. Qed.

Example private_range_refused : refuses "http://172.20.1.1/" = true.
Proof. reflexivity. Qed.

Example public_172_accepted : refuses "http://172.32.1.1/" = false.
Proof. reflexivity. Qed.

(** The table of the repository's security test: what must be blocked is
    refused by the guard, what must be allowed is not. *)
Example security_test_table :
  map refuses ["http://127.0.0.1"; "http://localhost"; "http://169.254.169.254";
               "http://10.0.0.1"; "http://192.168.1.1"; "http://172.16.0.1";
               "ftp://example.com"; "file:///etc/passwd"; "gopher://example.com";
               "invalid-url"; EmptyString] = repeat true 11 /\
  map refuses ["https://www.google.com"; "http://example.com";
               "https://api.example.com/image.jpg"] = repeat false 3.
Proof. split; reflexivity. Qed.

Example data_url_groups :
  matchDataUrl "data:image/png;base64,iVBORw0KG..." =
  Some (Some "image/png", true, "iVBORw0KG...").
Proof. reflexivity. Qed.

Example data_url_with_parameter : matchDataUrl "data:text/plain;charset=utf-8;base64,AAAA" = None.
Proof. reflexivity. Qed.

Lemma refused_without_request (url : string) (hint : option string) (w : World) :
  Js.startsWith url "data:" = false ->
  refuses url = true ->
  exists e, fetchAsInlineData url hint w = (inl e, w).
Proof.
  intros Hd Hv. unfold Media.fetchAsInlineData, refuses in *.
  rewrite Hd. destruct (validateUrl url) as [e | []]; [ | discriminate ].
  eexists. reflexivity.
Qed.

(** A URL that the guard lets through is requested once. *)
Lemma accepted_is_requested (url : string) (hint : option string) (w : World) :
  Js.startsWith url "data:" = false ->
  validateUrl url = inr tt ->
  requested (snd (fetchAsInlineData url hint w)) = (requested w ++ [url])%list.
Proof.
  intros Hd Hv. unfold Media.fetchAsInlineData.
  rewrite Hd, Hv. unfold fetch.
  destruct (remote w (List.length (requested w)) url); reflexivity.
Qed.

(** The errors of [parseDataUrl] are plain [Error]s, which the outer
    handler throws again as they are. *)
Lemma parseDataUrl_error_plain (url : string) (e : Js.Thrown) :
  parseDataUrl url = inl e -> rethrow url e = e.
Proof.
  unfold Media.parseDataUrl.
  destruct (matchDataUrl url) as [[[mime [ | ]] d] | ]; cbn; intros H;
    try discriminate; injection H as <-; reflexivity.
Qed.

(** A [data:] URL is handed to [parseDataUrl] alone: the result is that
    of the parser and the network is left as it was. *)
Lemma data_url_is_parsed_locally (url : string) (hint : option string) (w : World) :
  Js.startsWith url "data:" = true ->
  fetchAsInlineData url hint w = (parseDataUrl url, w).
Proof.
  intros Hd. unfold Media.fetchAsInlineData. rewrite Hd.
  destruct (parseDataUrl url) as [e | v] eqn:Hp; [ | reflexivity ].
  rewrite (parseDataUrl_error_plain _ _ Hp). reflexivity.
Qed.

Lemma startsWith_data (payload : string) : Js.startsWith ("data:" ++ payload) "data:" = true.
Proof.
  unfold Js.startsWith. cbn.
  repeat (match goal with |- context [ascii_dec ?a ?b] => destruct (ascii_dec a b) end;
          [ | congruence ]).
  destruct payload; reflexivity.
Qed.

(** C4. The guard of the media fetcher on the literal inputs of the
    specification: the loopback address, [localhost], the metadata address
    and an [ftp] URL are refused (and nothing is requested for them), the
    public [https] URL is accepted (and requested), and an input that
    begins with [data:] is parsed and returned without a request and
    without being shown to the URL guard, which would refuse it. *)
Theorem ssrf_guard_scenarios :
  validateUrl "http://127.0.0.1/x" =
    inl (Js.newError "Access to IP range '127.0.0.1' is not allowed") /\
  validateUrl "http://localhost/x" =
    inl (Js.newError "Access to hostname 'localhost' is not allowed") /\
  validateUrl "https://169.254.169.254/" =
    inl (Js.newError "Access to hostname '169.254.169.254' is not allowed") /\
  validateUrl "ftp://example.com" =
    inl (Js.newError "Unsupported protocol: ftp:. Only HTTP and HTTPS are allowed.") /\
  validateUrl "https://example.com/image.png" = inr tt /\
  Forall (fun url => forall hint w, exists e, fetchAsInlineData url hint w = (inl e, w))
         ["http://127.0.0.1/x"; "http://localhost/x";
          "https://169.254.169.254/"; "ftp://example.com"] /\
  (forall hint w,
     requested (snd (fetchAsInlineData "https://example.com/image.png" hint w)) =
     (requested w ++ ["https://example.com/image.png"])%list) /\
  (forall hint w,
     fetchAsInlineData "data:image/png;base64,iVBORw0KG..." hint w =
     (inr (mkInlineData "iVBORw0KG..." "image/png"), w)) /\
  validateUrl "data:image/png;base64,iVBORw0KG..." =
    inl (Js.newError "Unsupported protocol: data:. Only HTTP and HTTPS are allowed.") /\
  (forall payload hint w,
     fetchAsInlineData ("data:" ++ payload) hint w = (parseDataUrl ("data:" ++ payload), w)).
Proof.
  split; [ vm_compute; reflexivity | ].
  split; [ vm_compute; reflexivity | ].
  split; [ vm_compute; reflexivity | ].
  split; [ vm_compute; reflexivity | ].
  split; [ vm_compute; reflexivity | ].
  split.
  { repeat constructor; intros hint w;
      apply refused_without_request; vm_compute; reflexivity. }
  split.
  { intros hint w. apply accepted_is_requested; vm_compute; reflexivity. }
  split.
  { intros hint w. rewrite data_url_is_parsed_locally by reflexivity. reflexivity. }
  split; [ vm_compute; reflexivity | ].
  intros payload hint w. apply data_url_is_parsed_locally, startsWith_data.
Qed.

(** The handler around [Buffer.from] is never entered: no input makes
    [parseDataUrl] report an invalid payload. *)
Lemma parseDataUrl_errors (url : string) :
  match parseDataUrl url with
  | inl e => formError e
  | inr _ => True
  end.
Proof.
  unfold Media.parseDataUrl, formError.
  destruct (matchDataUrl url) as [[[mime [ | ]] d] | ]; cbn; auto.
Qed.

Lemma prefix_split (p s : string) :
  String.prefix p s = true -> s = (p ++ drop (String.length p) s)%string.
Proof.
  revert s. induction p as [ | a p IH]; intros s H; [ reflexivity | ].
  destruct s as [ | b s]; cbn in H; [ discriminate | ].
  destruct (ascii_dec a b) as [<- | ]; [ | discriminate ].
  cbn. f_equal. apply IH, H.
Qed.

Lemma span_split (p : ascii -> bool) (s : string) :
  s = (fst (span p s) ++ snd (span p s))%string.
Proof.
  induction s as [ | c s IH]; [ reflexivity | ].
  cbn. destruct (p c); [ | reflexivity ].
  destruct (span p s) as [a b]. cbn in *. f_equal. exact IH.
Qed.

Lemma includes_prefix (s p : string) :
  String.prefix p s = true -> Js.includes s p = true.
Proof. intros H. destruct s; cbn in *; rewrite H; reflexivity. Qed.

Lemma includes_app (a s p : string) :
  Js.includes s p = true -> Js.includes (a ++ s) p = true.
Proof.
  intros H. induction a as [ | c a IH]; [ exact H | ].
  cbn [append Js.includes]. rewrite IH. apply orb_true_r.
Qed.

(** A [data:] URL that [parseDataUrl] accepts carries the marker
    [;base64,] and the result is made of the groups of the match. *)
Lemma parseDataUrl_success (url : string) (r : InlineDataResult) :
  parseDataUrl url = inr r ->
  Js.includes url ";base64," = true /\
  exists mime d, matchDataUrl url = Some (mime, true, d) /\
    data r = d /\
    mimeType r = match mime with Some m => m | None => "application/octet-stream" end.
Proof.
  unfold Media.parseDataUrl.
  destruct (matchDataUrl url) as [[[mime [ | ]] d] | ] eqn:Hm; cbn; intros H;
    try discriminate. injection H as <-.
  split; [ | exists mime, d; repeat split ].
  unfold matchDataUrl in Hm.
  destruct (Js.startsWith url "data:") eqn:Hd; [ | discriminate ].
  rewrite (prefix_split _ _ Hd). apply includes_app.
  rewrite (span_split (fun c => negb (isOneOf ";," c)) (drop (String.length "data:") url)).
  apply includes_app. cbn [String.length].
  destruct (span (fun c => negb (isOneOf ";," c)) (drop 5 url)) as [m rest].
  cbn [snd]. destruct (Js.startsWith rest ";base64,") eqn:Hb.
  - apply includes_prefix. exact Hb.
  - destruct (Js.startsWith rest ","); discriminate.
Qed.

(** A [data:] URL without the marker [;base64,] is refused. *)
Lemma data_url_without_marker (url : string) :
  Js.includes url ";base64," = false -> exists e, parseDataUrl url = inl e.
Proof.
  intros H. destruct (parseDataUrl url) as [e | r] eqn:Hp; [ eexists; reflexivity | ].
  apply parseDataUrl_success in Hp as [Hinc _]. congruence.
Qed.

(** C5 (evaluation at a payload that is not base64). The payload [@@@@]
    is no base64 text: the schema's regular expression does not match it
    and the reference decoder has no result for it. The fetcher still
    returns it, with the declared MIME type and without a request; and
    whatever the input, the only errors of [parseDataUrl] are the two about
    the form of the URL, never the one about the payload. *)
Theorem data_url_payload_not_validated :
  Schemas.base64Regex "@@@@" = false /\
  decodeBase64 "@@@@" = None /\
  (forall hint w,
     fetchAsInlineData "data:image/png;base64,@@@@" hint w =
     (inr (mkInlineData "@@@@" "image/png"), w)) /\
  (forall url, match parseDataUrl url with
               | inl e => formError e
               | inr _ => True
               end) /\
  ~ formError (Js.newError "Invalid base64 data in data URL").
Proof.
  split; [ reflexivity | ].
  split; [ reflexivity | ].
  split.
  { intros hint w. rewrite data_url_is_parsed_locally by reflexivity. reflexivity. }
  split; [ apply parseDataUrl_errors | ].
  intros [H | H]; discriminate.
Qed.

End Runtime.

End MediaFacts.

(* ===================================================================== *)
(** ** Properties of the response normalizers *)
(* ===================================================================== *)

Module NormalizerFacts.
Import Gemini Spec Scenarios.

Lemma first_cons {A : Type} (x : A) (xs : list A) (prop : string) :
  first (x :: xs) prop = inr x.
Proof. reflexivity. Qed.

Lemma equals_spec (o : option string) (s : string) :
  equals o s = true <-> o = Some s.
Proof.
  destruct o as [x | ]; cbn; [ | split; discriminate ].
  rewrite String.eqb_eq. split; [ intros -> | intros [= ->] ]; reflexivity.
Qed.


(** C7. [isBlocked] returns, and it returns [true] exactly when the
    response has no candidate (the list is absent or empty), or the finish
    reason of the first candidate is [SAFETY], or it is
    [BLOCKED_REASON_UNSPECIFIED]. *)
Theorem isBlocked_iff (response : GeminiResponse) :
  (exists b, isBlocked response = inr b) /\
  (isBlocked response = inr true <->
   orEmpty (candidates response) = [] \/
   exists candidate rest,
     orEmpty (candidates response) = candidate :: rest /\
     (finishReason candidate = Some "SAFETY" \/
      finishReason candidate = Some "BLOCKED_REASON_UNSPECIFIED")).
Proof.
  unfold isBlocked.
  destruct (orEmpty (candidates response)) as [ | candidate rest]; cbn.
  - split; [ eexists; reflexivity | ]. split; auto.
  - split; [ eexists; reflexivity | ].
    split.
    + intros [= H]. right. exists candidate, rest. split; [ reflexivity | ].
      apply orb_prop in H as [H | H]; apply equals_spec in H; auto.
    + intros [H | (c & r & [= <- <-] & [H | H])]; [ discriminate | | ];
        apply equals_spec in H; rewrite H; [ | rewrite orb_true_r ]; reflexivity.
Qed.

(** A first candidate stopped for safety: the response is blocked. *)
Lemma isBlocked_iff_witness : isBlocked stoppedForSafety = inr true.
Proof.
  apply (proj2 (isBlocked_iff stoppedForSafety)).
  right. eexists _, _. split; [ reflexivity | ]. left. reflexivity.
Defined.











Example blocked_prompt_reason :
  getBlockReason blockedPrompt =
  inr "Prompt blocked due to safety concerns: HARM_CATEGORY_HATE_SPEECH: HIGH".
Proof. reflexivity. Qed.

Example usage_zero_filled :
  extractUsage (mkResponse None None (Some (mkUsageMetadata (Some 7) None None))) =
  inr (Some (mkUsage 7 0 0)).
Proof. reflexivity. Qed.

End NormalizerFacts.

(* ===================================================================== *)
(** ** Properties of the client's retry loops *)
(* ===================================================================== *)

Module ClientFacts.
Import Gemini Spec Scenarios.

Lemma after_0 (w : World) (req : Request) : after w req 0 [] = w.
Proof. destruct w. unfold after. cbn. rewrite !app_nil_r. reflexivity. Qed.

Lemma fetch_after (w : World) (req : Request) (n : nat) (delays : list Z) :
  fetch req (after w req n delays) = (outcome w req n, after w req (S n) delays).
Proof.
  unfold fetch, after, outcome. cbn [upstream sent slept now].
  rewrite length_app, repeat_length, <- app_assoc, <- repeat_cons. reflexivity.
Qed.

Lemma sleep_after (ms : Z) (w : World) (req : Request) (n : nat) (delays : list Z) :
  sleep ms (after w req n delays) = after w req n (delays ++ [ms]).
Proof. unfold sleep, after. cbn [upstream sent slept now]. rewrite app_assoc. reflexivity. Qed.

Section Client.

Variable baseUrl : string.
Variable encodeURIComponent : string -> string.
Variable parseAny : string -> Js.Thrown + Js.Value.

Section FetchWithRetry.

Context {T : Type}.
Variable parse : string -> Js.Thrown + T.
Variable empty : T.
Variable req : Request.
Variable parseJson : bool.

Local Abbreviation loop := (fetchLoop parseAny parse empty req parseJson).
Local Abbreviation attempt := (attemptOf parseAny parse empty parseJson).

(** One turn of the loop of [fetchWithRetry]. *)
Lemma fetchLoop_step (left : nat) (a : Z) (lastError : Js.Thrown)
    (w : World) (n : nat) (delays : list Z) :
  loop (S left) a lastError (after w req n delays) =
  match attempt (outcome w req n) with
  | Returned v => (inr v, after w req (S n) delays)
  | RetryStatus =>
      loop left (a + 1) lastError (after w req (S n) (delays ++ [500 * 2 ^ a]))
  | Caught err =>
      if a <? 3
      then loop left (a + 1) err (after w req (S n) (delays ++ [500 * 2 ^ a]))
      else (inl err, after w req (S n) delays)
  end.
Proof.
  cbn [fetchLoop]. rewrite fetch_after.
  destruct (attemptOf parseAny parse empty parseJson (outcome w req n));
    rewrite ?sleep_after; reflexivity.
Qed.

Lemma fetchLoop_end (a : Z) (lastError : Js.Thrown) (w : World) :
  loop 0 a lastError w = (inl lastError, w).
Proof. reflexivity. Qed.

Lemma fetchWithRetry_start (w : World) :
  fetchWithRetry parseAny parse empty req parseJson w =
  loop 4 0 (Js.ThrowValue Js.Undefined) (after w req 0 []).
Proof. rewrite after_0. reflexivity. Qed.

Lemma attempt_terminal (res : Response) :
  terminal res = true ->
  attempt (Resolved res) = Caught (apiError res (errorBodyOf parseAny res)).
Proof.
  unfold terminal, attemptOf. intros H.
  apply andb_prop in H as [Hok Hretry].
  apply negb_true_iff in Hok, Hretry. rewrite Hok, Hretry. reflexivity.
Qed.

Lemma attempt_retried (res : Response) :
  ok res = false -> retriedStatus res = true -> attempt (Resolved res) = RetryStatus.
Proof. unfold attemptOf. intros -> ->. reflexivity. Qed.

(** A request answered with 429 or 5xx every time is sent four times, after
    delays of 500, 1000, 2000 and 4000 ms (the last one before giving up),
    and what is thrown in the end is [lastError], still [undefined]. *)
Lemma retried_status_four_attempts (w : World) (res : nat -> Response) :
  (forall k, (k <= 3)%nat ->
     outcome w req k = Resolved (res k) /\ ok (res k) = false /\
     retriedStatus (res k) = true) ->
  fetchWithRetry parseAny parse empty req parseJson w =
  (inl (Js.ThrowValue Js.Undefined), after w req 4 [500; 1000; 2000; 4000]).
Proof.
  intros H. rewrite fetchWithRetry_start.
  destruct (H 0%nat ltac:(lia)) as (E0 & O0 & R0).
  destruct (H 1%nat ltac:(lia)) as (E1 & O1 & R1).
  destruct (H 2%nat ltac:(lia)) as (E2 & O2 & R2).
  destruct (H 3%nat ltac:(lia)) as (E3 & O3 & R3).
  rewrite fetchLoop_step, E0, (attempt_retried _ O0 R0).
  rewrite fetchLoop_step, E1, (attempt_retried _ O1 R1).
  rewrite fetchLoop_step, E2, (attempt_retried _ O2 R2).
  rewrite fetchLoop_step, E3, (attempt_retried _ O3 R3).
  reflexivity.
Qed.

(** A request that fails with an exception every time (the network, or
    the parsing of the body) is sent four times, after delays of 500, 1000
    and 2000 ms, and the last exception is thrown. *)
Lemma exceptions_four_attempts (w : World) (e : nat -> Js.Thrown) :
  (forall k, (k <= 3)%nat -> attempt (outcome w req k) = Caught (e k)) ->
  fetchWithRetry parseAny parse empty req parseJson w =
  (inl (e 3%nat), after w req 4 [500; 1000; 2000]).
Proof.
  intros H. rewrite fetchWithRetry_start.
  rewrite fetchLoop_step, (H 0%nat) by lia. cbn [Z.ltb Z.compare].
  rewrite fetchLoop_step, (H 1%nat) by lia. cbn [Z.ltb Z.compare Z.add Pos.compare Pos.compare_cont].
  rewrite fetchLoop_step, (H 2%nat) by lia. cbn [Z.ltb Z.compare Z.add Pos.add Pos.compare Pos.compare_cont].
  rewrite fetchLoop_step, (H 3%nat) by lia. reflexivity.
Qed.

(** A successful first answer is returned at once. *)
Lemma success_first_attempt (w : World) (v : option T) :
  attempt (outcome w req 0) = Returned v ->
  fetchWithRetry parseAny parse empty req parseJson w = (inr v, after w req 1 []).
Proof.
  intros H. rewrite fetchWithRetry_start, fetchLoop_step, H. reflexivity.
Qed.

(** C1 (what the code does on a status it does not mean to retry). When
    every answer has a status that is neither 2xx nor 429 nor 5xx, the
    error built for it is thrown inside the [try] block and caught by the
    loop's own handler: the request is sent four times, after delays of
    500, 1000 and 2000 ms, and only the error of the fourth answer is
    surfaced, instead of the first being thrown at once. *)
Theorem terminal_status_is_retried (w : World) (res : nat -> Response) :
  (forall k, (k <= 3)%nat ->
     outcome w req k = Resolved (res k) /\ terminal (res k) = true) ->
  fetchWithRetry parseAny parse empty req parseJson w =
  (inl (apiError (res 3%nat) (errorBodyOf parseAny (res 3%nat))),
   after w req 4 [500; 1000; 2000]).
Proof.
  intros H. apply exceptions_four_attempts with
    (e := fun k => apiError (res k) (errorBodyOf parseAny (res k))).
  intros k Hk. destruct (H k Hk) as [-> Ht]. apply attempt_terminal, Ht.
Qed.

End FetchWithRetry.

Section GenerateContent.

Variable parse : string -> Js.Thrown + GeminiResponse.
Variable request : GeminiRequest.

Local Abbreviation req := (generateRequest baseUrl encodeURIComponent request).
Local Abbreviation operation := (generateContentOnce baseUrl encodeURIComponent parse request).
Local Abbreviation result := (Spec.result baseUrl encodeURIComponent parse request).

(** One turn of the loop of [retryWithBackoff]. *)
Lemma retryLoop_step (left : nat) (a : Z) (lastError : Js.Thrown)
    (w : World) (n : nat) (delays : list Z) :
  retryLoop operation 3 (S left) a lastError (after w req n delays) =
  match result w n with
  | inr v => (inr v, after w req (S n) delays)
  | inl error =>
      if errorMessageIncludes error "400" then (inl error, after w req (S n) delays)
      else if a =? 3 then (inl error, after w req (S n) delays)
      else if negb (errorMessageIncludes error "429" || errorMessageIncludes error "5")
      then (inl error, after w req (S n) delays)
      else retryLoop operation 3 left (a + 1) error
             (after w req (S n) (delays ++ [2 ^ a * 1000]))
  end.
Proof.
  cbn [retryLoop]. unfold generateContentOnce at 1.
  rewrite fetch_after. unfold Spec.result.
  destruct (readGenerate parse (outcome w req n)) as [error | v]; [ | reflexivity ].
  rewrite sleep_after. reflexivity.
Qed.

Lemma step_return (left : nat) (a : Z) (lastError : Js.Thrown)
    (w : World) (n : nat) (delays : list Z) (v : GeminiResponse) :
  result w n = inr v ->
  retryLoop operation 3 (S left) a lastError (after w req n delays) =
  (inr v, after w req (S n) delays).
Proof. intros H. rewrite retryLoop_step, H. reflexivity. Qed.

Lemma step_throw (left : nat) (a : Z) (lastError : Js.Thrown)
    (w : World) (n : nat) (delays : list Z) (e : Js.Thrown) :
  result w n = inl e ->
  retryable e = false \/ a = 3 ->
  retryLoop operation 3 (S left) a lastError (after w req n delays) =
  (inl e, after w req (S n) delays).
Proof.
  intros H Hstop. rewrite retryLoop_step, H. unfold retryable in Hstop.
  destruct (errorMessageIncludes e "400"); [ reflexivity | ].
  destruct (Z.eqb_spec a 3) as [ | Ha]; [ reflexivity | ].
  destruct Hstop as [Hr | ]; [ | contradiction ].
  cbn in Hr. rewrite Hr. reflexivity.
Qed.

Lemma step_retry (left : nat) (a : Z) (lastError : Js.Thrown)
    (w : World) (n : nat) (delays : list Z) (e : Js.Thrown) :
  result w n = inl e ->
  retryable e = true ->
  a <> 3 ->
  retryLoop operation 3 (S left) a lastError (after w req n delays) =
  retryLoop operation 3 left (a + 1) e (after w req (S n) (delays ++ [2 ^ a * 1000])).
Proof.
  intros H Hr Ha. rewrite retryLoop_step, H. unfold retryable in Hr.
  apply andb_prop in Hr as [H400 Hre]. apply negb_true_iff in H400.
  rewrite H400, Hre. destruct (Z.eqb_spec a 3); [ contradiction | reflexivity ].
Qed.

Lemma generateContent_start (w : World) :
  generateContent baseUrl encodeURIComponent parse request w =
  retryLoop operation 3 4 0 (Js.ThrowValue Js.Undefined) (after w req 0 []).
Proof. rewrite after_0. reflexivity. Qed.

(** C2 (amended). [generateContent] runs its request again, after delays
    of 1 s, 2 s and 4 s and at most three times, only while the failure is
    an [Error] whose message contains "429" or "5" and does not contain
    "400". When the runs [0 .. k-1] fail in that way ([k <= 3]), a success
    of run [k] is returned, and a failure of run [k] is surfaced unchanged
    if it is not of that kind (its message contains "400", or neither
    "429" nor "5", or it is no [Error]) or if [k = 3], the retries being
    used up. In each case [k + 1] requests were sent and the delays slept
    are the first [k] of 1000, 2000, 4000 ms; so a first failure whose
    message contains "400" ends the call after exactly one attempt. *)
Theorem generateContent_retry_policy (w : World) (k : nat) :
  (k <= 3)%nat ->
  (forall j, (j < k)%nat -> exists e, result w j = inl e /\ retryable e = true) ->
  (forall v, result w k = inr v ->
     generateContent baseUrl encodeURIComponent parse request w =
     (inr v, after w req (S k) (firstn k [1000; 2000; 4000]))) /\
  (forall e, result w k = inl e ->
     retryable e = false \/ k = 3%nat ->
     generateContent baseUrl encodeURIComponent parse request w =
     (inl e, after w req (S k) (firstn k [1000; 2000; 4000]))).
Proof.
  intros Hk Hfail.
  assert (Hstop : forall e, retryable e = false \/ k = 3%nat ->
                    retryable e = false \/ Z.of_nat k = 3) by (intros e [ | ]; [ auto | right; lia ]).
  destruct k as [ | [ | [ | [ | k]]]]; [ | | | | lia ].
  - split; [ intros v Hv | intros e He Hs; apply Hstop in Hs ];
      rewrite generateContent_start.
    + rewrite (step_return _ _ _ _ _ _ _ Hv). reflexivity.
    + rewrite (step_throw _ _ _ _ _ _ _ He Hs). reflexivity.
  - destruct (Hfail 0%nat ltac:(lia)) as (e0 & E0 & R0).
    split; [ intros v Hv | intros e He Hs; apply Hstop in Hs ];
      rewrite generateContent_start;
      rewrite (step_retry _ _ _ _ _ _ _ E0 R0) by discriminate.
    + rewrite (step_return _ _ _ _ _ _ _ Hv). reflexivity.
    + rewrite (step_throw _ _ _ _ _ _ _ He Hs). reflexivity.
  - destruct (Hfail 0%nat ltac:(lia)) as (e0 & E0 & R0).
    destruct (Hfail 1%nat ltac:(lia)) as (e1 & E1 & R1).
    split; [ intros v Hv | intros e He Hs; apply Hstop in Hs ];
      rewrite generateContent_start;
      rewrite (step_retry _ _ _ _ _ _ _ E0 R0) by discriminate;
      rewrite (step_retry _ _ _ _ _ _ _ E1 R1) by discriminate.
    + rewrite (step_return _ _ _ _ _ _ _ Hv). reflexivity.
    + rewrite (step_throw _ _ _ _ _ _ _ He Hs). reflexivity.
  - destruct (Hfail 0%nat ltac:(lia)) as (e0 & E0 & R0).
    destruct (Hfail 1%nat ltac:(lia)) as (e1 & E1 & R1).
    destruct (Hfail 2%nat ltac:(lia)) as (e2 & E2 & R2).
    split; [ intros v Hv | intros e He Hs ];
      rewrite generateContent_start;
      rewrite (step_retry _ _ _ _ _ _ _ E0 R0) by discriminate;
      rewrite (step_retry _ _ _ _ _ _ _ E1 R1) by discriminate;
      rewrite (step_retry _ _ _ _ _ _ _ E2 R2) by discriminate.
    + rewrite (step_return _ _ _ _ _ _ _ Hv). reflexivity.
    + rewrite (step_throw _ _ _ _ _ _ _ He (or_intror eq_refl)). reflexivity.
Qed.

End GenerateContent.

End Client.

(** *** Concrete runs *)

(** [deleteFile("abc123")] against an upstream that answers 404: four
    DELETE requests and three delays before the error is surfaced. *)
Lemma terminal_status_is_retried_witness :
  deleteFile base parseNotFound "abc123" notFound =
  (inl (Js.ThrowError
          (Js.mkError "Error" "Gemini API error 404 (NOT_FOUND): File not found"
             [("status", Js.Number 404); ("body", notFoundBody)])),
   mkWorld (upstream notFound)
           [deleteRequest; deleteRequest; deleteRequest; deleteRequest]
           [500; 1000; 2000] 0).
Proof.
  unfold deleteFile.
  change (base ++ "/" ++ (if Js.startsWith "abc123" "files/" then "abc123"
                          else "files/" ++ "abc123"))%string
    with (url deleteRequest).
  change (mkHttpRequest "DELETE" (url deleteRequest) (buildHeaders None) NoBody)
    with deleteRequest.
  rewrite (terminal_status_is_retried parseNotFound (fun _ => inr tt) tt
             deleteRequest false notFound (fun _ => notFoundResponse)).
  - reflexivity.
  - intros k Hk. split; reflexivity.
Defined.

(** The same upstream seen by the other three operations: each of them
    sends its request four times. *)
Example terminal_status_other_operations :
  List.length (sent (snd (listFiles (L := unit) base (fun _ => EmptyString) parseNotFound
                            (fun _ => inr tt) tt None notFound))) = 4%nat /\
  List.length (sent (snd (uploadFile (F := unit) base (fun _ => []) parseNotFound
                            (fun _ => inr tt) tt
                            (mkUploadFileParams (Text "hello") "text/plain" None)
                            notFound))) = 4%nat /\
  List.length (sent (snd (generateEmbeddings (number := Z) base plain parseNotFound
                            (parseVectors [])
                            (mkEmbeddingsParams "text-embedding-004" ["a"] None None None)
                            notFound))) = 4%nat.
Proof. repeat split. Qed.

(** One retry after one second, then the answer. *)
Lemma generateContent_retry_policy_witness :
  generateContent base plain parseEmpty emptyRequest recovering =
  (inr emptyResponse, after recovering (generateRequest base plain emptyRequest) 2 [1000]).
Proof.
  apply (generateContent_retry_policy base plain parseEmpty emptyRequest recovering 1).
  - lia.
  - intros j Hj. assert (j = 0%nat) as -> by lia.
    eexists. split; reflexivity.
  - reflexivity.
Defined.

(** C2 (at a failure the claim counts as retried). An upstream that
    answers 404 with an empty body makes [generateContent] fail with the
    message "404 Not Found - ", which does not contain "400"; the call
    ends after this one request, without any delay. *)
Lemma generateContent_404_not_retried :
  Js.includes "404 Not Found - " "400" = false /\
  generateContent base plain parseEmpty emptyRequest notFoundEmpty =
  (inl (Js.newError "404 Not Found - "),
   mkWorld (upstream notFoundEmpty) [generateRequest base plain emptyRequest] [] 0).
Proof. split; reflexivity. Qed.

(** A failure whose message contains "400" is not retried either. *)
Example bad_request_single_attempt :
  retryable (Js.newError "400 Bad Request - ") = false /\
  retryable (Js.newError "503 Service Unavailable - ") = true /\
  retryable (Js.newError "fetch failed") = false.
Proof. repeat split. Qed.

End ClientFacts.

(* ===================================================================== *)
(** ** Properties of the request mapping and of the embeddings tool *)
(* ===================================================================== *)

Module IndexFacts.
Import Index Spec Scenarios.

Lemma filter_split {A : Type} (f : A -> bool) (l : list A) :
  (List.length (filter f l) + List.length (filter (fun x => negb (f x)) l))%nat =
  List.length l.
Proof.
  induction l as [ | x l IH]; [ reflexivity | ].
  cbn. destruct (f x); cbn; lia.
Qed.

Lemma join_nonEmpty (sep : string) (l : list string) :
  l <> [] -> forallb Js.nonEmpty l = true -> Js.nonEmpty (Js.join sep l) = true.
Proof.
  destruct l as [ | x l]; [ congruence | ].
  intros _ H. cbn in H. apply andb_prop in H as [Hx _].
  destruct x as [ | c x]; [ discriminate | ].
  unfold Js.join. cbn. destruct l; reflexivity.
Qed.

Section Runtime.

Variable base64Decode : string -> list Z.
Variable base64Encode : list Z -> string.
Variable fileTypeFromBuffer : list Z -> option string.
Variable toFixed2 : Q -> string.

Local Abbreviation fetchAsInlineData :=
  (Media.fetchAsInlineData base64Decode base64Encode fileTypeFromBuffer toFixed2).
Local Abbreviation mapParts :=
  (Index.mapParts base64Decode base64Encode fileTypeFromBuffer toFixed2).
Local Abbreviation mapContentToGeminiParts :=
  (Index.mapContentToGeminiParts base64Decode base64Encode fileTypeFromBuffer toFixed2).
Local Abbreviation mapMessages :=
  (Index.mapMessages base64Decode base64Encode fileTypeFromBuffer toFixed2).
Local Abbreviation mapMessagesToGeminiContents :=
  (Index.mapMessagesToGeminiContents base64Decode base64Encode fileTypeFromBuffer toFixed2).

(** A media part always yields one native part: the inline data, or the
    text that reports the failure. *)
Lemma mediaPart_cases (url : string) (fetched : Js.Thrown + Media.InlineDataResult) :
  (exists data mimeType, mediaPart url fetched = Gemini.InlineDataPart data mimeType) \/
  (exists err, mediaPart url fetched = loadError url err).
Proof.
  unfold mediaPart. destruct fetched as [e | r].
  - right. exists (Js.thrownToString e). reflexivity.
  - destruct (Media.validateDataSize (Media.data r)).
    + left. exists (Media.data r), (Media.mimeType r). reflexivity.
    + right. exists (Js.thrownToString (Js.newError ("Media file too large: " ++ url))).
      reflexivity.
Qed.

Lemma mapParts_spec (l : list ContentPart) :
  forall (acc : list Gemini.GeminiPart) (w : Media.World),
    forallb withinCeiling l = true ->
    exists parts w',
      mapParts l acc w = (inr (acc ++ parts)%list, w') /\
      Forall2 emits (filter recognized l) parts.
Proof.
  induction l as [ | part rest IH]; intros acc w Hsize.
  - exists [], w. rewrite app_nil_r. split; [ reflexivity | constructor ].
  - cbn [forallb] in Hsize. apply andb_prop in Hsize as [Hpart Hrest].
    destruct part as [t | url m | url m | url m | d m | uri m | tag];
      cbn [Index.mapParts filter recognized].
    + destruct (IH (acc ++ [Gemini.TextPart t])%list w Hrest) as (parts & w' & E & F).
      exists (Gemini.TextPart t :: parts), w'. rewrite E, <- app_assoc.
      split; [ reflexivity | constructor; [ reflexivity | exact F ] ].
    + destruct (Media.fetchAsInlineData _ _ _ _ url m w) as [fetched w1].
      destruct (IH (acc ++ [mediaPart url fetched])%list w1 Hrest) as (parts & w' & E & F).
      exists (mediaPart url fetched :: parts), w'. rewrite E, <- app_assoc.
      split; [ reflexivity | constructor; [ apply mediaPart_cases | exact F ] ].
    + destruct (Media.fetchAsInlineData _ _ _ _ url m w) as [fetched w1].
      destruct (IH (acc ++ [mediaPart url fetched])%list w1 Hrest) as (parts & w' & E & F).
      exists (mediaPart url fetched :: parts), w'. rewrite E, <- app_assoc.
      split; [ reflexivity | constructor; [ apply mediaPart_cases | exact F ] ].
    + destruct (Media.fetchAsInlineData _ _ _ _ url m w) as [fetched w1].
      destruct (IH (acc ++ [mediaPart url fetched])%list w1 Hrest) as (parts & w' & E & F).
      exists (mediaPart url fetched :: parts), w'. rewrite E, <- app_assoc.
      split; [ reflexivity | constructor; [ apply mediaPart_cases | exact F ] ].
    + cbn [withinCeiling] in Hpart. rewrite Hpart. cbn [negb].
      destruct (IH (acc ++ [Gemini.InlineDataPart d m])%list w Hrest) as (parts & w' & E & F).
      exists (Gemini.InlineDataPart d m :: parts), w'. rewrite E, <- app_assoc.
      split; [ reflexivity | constructor; [ reflexivity | exact F ] ].
    + destruct (IH (acc ++ [Gemini.FileDataPart uri m])%list w Hrest) as (parts & w' & E & F).
      exists (Gemini.FileDataPart uri m :: parts), w'. rewrite E, <- app_assoc.
      split; [ reflexivity | constructor; [ reflexivity | exact F ] ].
    + destruct (IH acc w Hrest) as (parts & w' & E & F).
      exists parts, w'. split; assumption.
Qed.

(** The loop maps the parts one by one as [Rendered] says: what is
    pushed for a media part is what the fetcher gave for it. *)
Lemma mapParts_renders (l : list ContentPart) :
  forall (acc : list Gemini.GeminiPart) (w : Media.World),
    forallb withinCeiling l = true ->
    exists parts w',
      mapParts l acc w = (inr (acc ++ parts)%list, w') /\
      Rendered fetchAsInlineData l w parts w'.
Proof.
  assert (Hmedia : forall part url rest acc w,
            mediaUrl part = Some url ->
            (forall acc w, exists parts w',
                mapParts rest acc w = (inr (acc ++ parts)%list, w') /\
                Rendered fetchAsInlineData rest w parts w') ->
            exists parts w',
              (let (fetched, w1) := fetchAsInlineData url (mediaHint part) w in
               mapParts rest (acc ++ [mediaPart url fetched])%list w1) =
                (inr (acc ++ parts)%list, w') /\
              Rendered fetchAsInlineData (part :: rest) w parts w').
  { intros part url rest acc w Hurl IH.
    destruct (fetchAsInlineData url (mediaHint part) w) as [fetched w1] eqn:Ef.
    destruct (IH (acc ++ [mediaPart url fetched])%list w1) as (parts & w' & E & R).
    exists (mediaPart url fetched :: parts), w'. rewrite E, <- app_assoc.
    split; [ reflexivity | ].
    unfold mediaPart. destruct fetched as [e | r].
    - exact (rendered_failed _ part url rest w e w1 parts w' Hurl Ef R).
    - destruct (Media.validateDataSize (Media.data r)) eqn:Hsize; cbn [negb].
      + exact (rendered_fetched _ part url rest w r w1 parts w' Hurl Ef Hsize R).
      + exact (rendered_too_large _ part url rest w r w1 parts w' Hurl Ef Hsize R). }
  induction l as [ | part rest IH]; intros acc w Hsize.
  - exists [], w. rewrite app_nil_r. split; [ reflexivity | constructor ].
  - cbn [forallb] in Hsize. apply andb_prop in Hsize as [Hpart Hrest].
    destruct part as [t | url m | url m | url m | d m | uri m | tag];
      cbn [Index.mapParts].
    + destruct (IH (acc ++ [Gemini.TextPart t])%list w Hrest) as (parts & w' & E & R).
      exists (Gemini.TextPart t :: parts), w'. rewrite E, <- app_assoc.
      split; [ reflexivity | constructor; exact R ].
    + apply (Hmedia (image_url url m) url rest acc w eq_refl).
      intros acc' w0. apply IH, Hrest.
    + apply (Hmedia (audio_url url m) url rest acc w eq_refl).
      intros acc' w0. apply IH, Hrest.
    + apply (Hmedia (video_url url m) url rest acc w eq_refl).
      intros acc' w0. apply IH, Hrest.
    + cbn [withinCeiling] in Hpart. rewrite Hpart. cbn [negb].
      destruct (IH (acc ++ [Gemini.InlineDataPart d m])%list w Hrest) as (parts & w' & E & R).
      exists (Gemini.InlineDataPart d m :: parts), w'. rewrite E, <- app_assoc.
      split; [ reflexivity | constructor; exact R ].
    + destruct (IH (acc ++ [Gemini.FileDataPart uri m])%list w Hrest) as (parts & w' & E & R).
      exists (Gemini.FileDataPart uri m :: parts), w'. rewrite E, <- app_assoc.
      split; [ reflexivity | constructor; exact R ].
    + destruct (IH acc w Hrest) as (parts & w' & E & R).
      exists parts, w'. split; [ exact E | constructor; exact R ].
Qed.

(** C3. When no inline-bytes part exceeds the size ceiling,
    [mapContentToGeminiParts] returns: a bare string gives exactly one text
    part holding the string; a list of parts gives native parts that
    correspond one to one and in order to the parts with a recognized tag,
    so the output is as long as the input less the parts with an
    unrecognized tag. Each native part is the one [Rendered] names for its
    part: for a media part the inline data the fetcher returned, and when
    the fetch failed (or what it returned is over the ceiling) one text
    part that names the URL and the error, in place of the part. *)
Theorem mapContent_count_and_order (content : Content) (w : Media.World) :
  forallb withinCeiling (partsOfContent content) = true ->
  exists parts w',
    mapContentToGeminiParts content w = (inr parts, w') /\
    match content with
    | Plain s => parts = [Gemini.TextPart s] /\ w' = w
    | Parts l =>
        Rendered fetchAsInlineData l w parts w' /\
        Forall2 emits (filter recognized l) parts /\
        List.length parts =
          (List.length l - List.length (filter (fun p => negb (recognized p)) l))%nat
    end.
Proof.
  intros Hsize. destruct content as [s | l]; cbn in Hsize.
  - exists [Gemini.TextPart s], w. repeat split.
  - destruct (mapParts_spec l [] w Hsize) as (parts & w' & E & F).
    destruct (mapParts_renders l [] w Hsize) as (parts' & w'' & E' & R).
    cbn [app] in E, E'. rewrite E in E'. injection E' as <- <-.
    exists parts, w'. split; [ exact E | ]. split; [ exact R | ]. split; [ exact F | ].
    apply Forall2_length in F. pose proof (filter_split recognized l). lia.
Qed.

Lemma mapMessages_system (messages : list Message) :
  Forall (fun m => role m = system) messages ->
  forall contents systemMessages w,
    mapMessages messages contents systemMessages w =
    (inr (contents, (systemMessages ++ fragments messages)%list), w).
Proof.
  induction 1 as [ | m rest Hm _ IH]; intros contents systemMessages w.
  - cbn. rewrite app_nil_r. reflexivity.
  - cbn [Index.mapMessages]. rewrite Hm. unfold fragments. cbn [map filter].
    destruct (Js.nonEmpty (Js.trim (messageText m))).
    + rewrite IH. unfold fragments. rewrite <- app_assoc. reflexivity.
    + apply IH.
Qed.

Lemma seed_nonEmpty (systemInstruction : option string) :
  forallb Js.nonEmpty (seed systemInstruction) = true.
Proof.
  destruct systemInstruction as [s | ]; [ | reflexivity ].
  cbn. destruct (Js.nonEmpty s) eqn:H; [ cbn; rewrite H | ]; reflexivity.
Qed.

Lemma fragments_nonEmpty (messages : list Message) :
  forallb Js.nonEmpty (fragments messages) = true.
Proof.
  unfold fragments. apply forallb_forall. intros x Hx.
  apply filter_In in Hx. apply Hx.
Qed.

(** What the last lines of [mapMessagesToGeminiContents] make of a list
    of fragments none of which is empty. *)
Lemma merged_spec (l : list string) :
  forallb Js.nonEmpty l = true ->
  match (if (0 <? List.length l)%nat then Some (Js.join Js.blankLine l) else None) with
  | Some t => if Js.nonEmpty t then Some t else None
  | None => None
  end = merged l.
Proof.
  intros Hne. destruct l as [ | x l]; [ reflexivity | ].
  cbn [List.length Nat.ltb Nat.leb merged].
  rewrite (join_nonEmpty Js.blankLine (x :: l)) by (congruence || exact Hne).
  reflexivity.
Qed.

(** C6 (amended). For a list of messages that all have the role [system],
    [mapMessagesToGeminiContents] yields no conversation turn and makes no
    request; the merged instruction is the top-level instruction, if one
    is given, followed by the trimmed texts of the messages whose trimmed
    text is not empty, in order and joined by a blank line; it is
    [undefined] (here [None]), not the empty string, when there is no such
    fragment. *)
Theorem system_only_messages (messages : list Message)
    (systemInstruction : option string) (w : Media.World) :
  Forall (fun m => role m = system) messages ->
  mapMessagesToGeminiContents messages systemInstruction w =
  (inr (mkMapped [] (merged (seed systemInstruction ++ fragments messages))), w).
Proof.
  intros Hsys. unfold Index.mapMessagesToGeminiContents.
  fold (seed systemInstruction).
  rewrite (mapMessages_system messages Hsys).
  rewrite merged_spec; [ reflexivity | ].
  rewrite forallb_app, seed_nonEmpty, fragments_nonEmpty. reflexivity.
Qed.

(** Without a top-level instruction, a list of system messages that are
    all blank gives no instruction. *)
Lemma blank_messages_no_instruction (messages : list Message) (w : Media.World) :
  Forall (fun m => role m = system) messages ->
  fragments messages = [] ->
  mapMessagesToGeminiContents messages None w = (inr (mkMapped [] None), w).
Proof.
  intros Hsys Hnone. unfold Index.mapMessagesToGeminiContents.
  rewrite (mapMessages_system messages Hsys), Hnone. reflexivity.
Qed.

End Runtime.

(** *** Concrete runs of the mapping *)

(** Five parts, one of them unrecognized and one whose fetch fails: four
    native parts come out, the second of them the text that reports the
    failure. *)
Lemma mapContent_count_and_order_witness :
  exists parts w',
    Index.mapContentToGeminiParts noBytes noText noType noDigits (Parts sample) offline =
      (inr parts, w') /\
    Rendered (Media.fetchAsInlineData noBytes noText noType noDigits)
             sample offline parts w' /\
    Forall2 emits (filter recognized sample) parts /\
    List.length parts = 4%nat /\
    nth_error parts 1 =
      Some (loadError "https://example.com/image.png" "Error: network unreachable").
Proof.
  destruct (mapContent_count_and_order noBytes noText noType noDigits (Parts sample) offline)
    as (parts & w' & E & R & F & L).
  - vm_compute. reflexivity.
  - exists parts, w'. split; [ exact E | ]. split; [ exact R | ].
    split; [ exact F | ]. split; [ exact L | ].
    cbv in E. injection E as <- _. reflexivity.
Defined.

Example sample_mapped :
  fst (Index.mapContentToGeminiParts noBytes noText noType noDigits (Parts sample) offline) =
  inr [ Gemini.TextPart "describe";
        loadError "https://example.com/image.png" "Error: network unreachable";
        Gemini.InlineDataPart "AAAA" "image/png";
        Gemini.FileDataPart "files/abc" None ].
Proof. reflexivity. Qed.

(** Three system messages, one of them blank: two fragments, trimmed and
    joined by a blank line, and no turn. *)
Lemma system_only_messages_witness :
  Index.mapMessagesToGeminiContents noBytes noText noType noDigits systemMessages None offline =
  (inr (mkMapped [] (Some ("Be brief." ++ Js.blankLine ++ "Answer in French."))), offline).
Proof.
  rewrite (system_only_messages noBytes noText noType noDigits systemMessages None offline).
  - reflexivity.
  - repeat constructor.
Defined.

(** C6 (at messages whose text has white space around it). The merged
    instruction of the single system message [" hi "] is ["hi"], while the
    text of the message, which is not empty, is [" hi "]; and the single
    system message ["   "], whose text is not empty either, gives no
    instruction at all. *)
Lemma system_text_is_trimmed :
  Index.mapMessagesToGeminiContents noBytes noText noType noDigits padded None offline =
    (inr (mkMapped [] (Some "hi")), offline) /\
  Js.join Js.blankLine (filter Js.nonEmpty (map messageText padded)) = " hi " /\
  Index.mapMessagesToGeminiContents noBytes noText noType noDigits blank None offline =
    (inr (mkMapped [] None), offline) /\
  Js.join Js.blankLine (filter Js.nonEmpty (map messageText blank)) = "   ".
Proof. repeat split. Qed.

(** *** The embeddings tool *)

Lemma mapWithIndex_map {A B C : Type} (f : B -> Z -> C) (g : A -> B) (l : list A) :
  forall i, mapWithIndex f i (map g l) = mapWithIndex (fun x => f (g x)) i l.
Proof. induction l as [ | x l IH]; intros i; cbn; [ | rewrite IH ]; reflexivity. Qed.

Lemma mapWithIndex_length {A B : Type} (f : A -> Z -> B) (l : list A) :
  forall i, List.length (mapWithIndex f i l) = List.length l.
Proof. induction l as [ | x l IH]; intros i; cbn; [ | rewrite IH ]; reflexivity. Qed.

Section Embeddings.

Variable baseUrl : string.
Variable encodeURIComponent : string -> string.
Variable parseAny : string -> Js.Thrown + Js.Value.
Context {number : Type}.
Variable parse : string -> Js.Thrown + Gemini.BatchEmbedContentsResponse number.

Local Abbreviation gemini_embeddings :=
  (Index.gemini_embeddings baseUrl encodeURIComponent parseAny parse).
Local Abbreviation fetchEmbeddings args :=
  (Gemini.fetchWithRetry parseAny parse (Gemini.mkBatchResponse None)
     (Gemini.embeddingsRequest baseUrl encodeURIComponent (embeddingsParams args)) true).

(** The batch request lists the texts one by one, in order. *)
Lemma requests_follow_texts (args : GeminiEmbeddingsArgs) :
  map Gemini.req_text (Gemini.embedRequests (embeddingsParams args)) = texts args.
Proof.
  unfold Gemini.embedRequests. rewrite map_map. cbn. apply map_id.
Qed.

(** The tool passes on the list of the upstream's reply as it is,
    numbering its entries by position. *)
Lemma reply_passed_on (args : GeminiEmbeddingsArgs) (w w' : Gemini.World)
    (reply : Gemini.BatchEmbedContentsResponse number) :
  texts args <> [] ->
  fetchEmbeddings args w = (inr (Some reply), w') ->
  gemini_embeddings args w = (ToolOk (indexEmbeddings reply), w').
Proof.
  intros Htexts Hfetch.
  unfold Index.gemini_embeddings, Gemini.generateEmbeddings.
  replace (Js.nonEmpty (Gemini.embed_model (embeddingsParams args))) with true
    by (cbn; destruct (Js.nonEmpty (embeddings_model args)) eqn:E; [ rewrite E | ]; reflexivity).
  cbn [negb]. change (Gemini.texts (embeddingsParams args)) with (texts args).
  destruct (texts args) as [ | t ts] eqn:Et; [ congruence | ]. cbn [List.length Nat.eqb].
  rewrite Hfetch. reflexivity.
Qed.

(** C8 (amended). [generateEmbeddings] sends one request entry per input
    text, in input order, and the tool returns the vectors of the
    upstream's reply in the order of the reply, numbered by position.
    Hence, when the reply lists one vector per text in the order of the
    texts, the answer has exactly one vector per input text, at the index
    of that text. *)
Theorem embeddings_in_reply_order (args : GeminiEmbeddingsArgs) (w w' : Gemini.World)
    (reply : Gemini.BatchEmbedContentsResponse number) (embed : string -> list number) :
  texts args <> [] ->
  fetchEmbeddings args w = (inr (Some reply), w') ->
  Gemini.embeddings reply =
    Some (map (fun t => Gemini.mkEmbedding (Some (embed t))) (texts args)) ->
  map Gemini.req_text (Gemini.embedRequests (embeddingsParams args)) = texts args /\
  gemini_embeddings args w =
    (ToolOk (mapWithIndex (fun t i => mkIndexed i (embed t)) 0 (texts args)), w') /\
  List.length (mapWithIndex (fun t i => mkIndexed i (embed t)) 0 (texts args)) =
    List.length (texts args).
Proof.
  intros Htexts Hfetch Hreply.
  split; [ apply requests_follow_texts | ].
  split; [ | apply mapWithIndex_length ].
  rewrite (reply_passed_on args w w' reply Htexts Hfetch).
  unfold indexEmbeddings. rewrite Hreply. cbn [Gemini.orEmpty].
  rewrite mapWithIndex_map. reflexivity.
Qed.

End Embeddings.

(** A reply with the vectors of "a", "b" and "c" in this order. *)
Lemma embeddings_in_reply_order_witness :
  fst (Index.gemini_embeddings base plain parseNull (parseVectors [[1]; [2]; [3]])
         abc answering) =
  ToolOk [mkIndexed 0 [1]; mkIndexed 1 [2]; mkIndexed 2 [3]].
Proof.
  destruct (embeddings_in_reply_order base plain parseNull (parseVectors [[1]; [2]; [3]])
              abc answering
              (snd (Gemini.fetchWithRetry parseNull (parseVectors [[1]; [2]; [3]])
                      (Gemini.mkBatchResponse None)
                      (Gemini.embeddingsRequest base plain (embeddingsParams abc))
                      true answering))
              (vectors [[1]; [2]; [3]]) embedOf)
    as (_ & E & _).
  - discriminate.
  - reflexivity.
  - reflexivity.
  - rewrite E. reflexivity.
Defined.

(** C8 (at replies that do not follow the request). For the texts "a",
    "b", "c": when the upstream's reply lists two vectors the answer has
    two entries, not three; and when the reply lists the vectors of "a",
    "b", "c" in the reverse order, index 0 of the answer holds the vector
    of "c". *)
Lemma embeddings_follow_the_reply :
  fst (Index.gemini_embeddings base plain parseNull (parseVectors [[1]; [2]])
         abc answering) =
    ToolOk [mkIndexed 0 [1]; mkIndexed 1 [2]] /\
  fst (Index.gemini_embeddings base plain parseNull
         (parseVectors [embedOf "c"; embedOf "b"; embedOf "a"]) abc answering) =
    ToolOk [mkIndexed 0 (embedOf "c"); mkIndexed 1 (embedOf "b"); mkIndexed 2 (embedOf "a")].
Proof. split; reflexivity. Qed.

End IndexFacts.

(* ===================================================================== *)
(** ** Further properties of the schemas *)
(* ===================================================================== *)

Module Wave1SchemasFacts.
Import Schemas Wave1Schemas Spec.

(** When the regular expression engine answers on it with the answer of
    the pattern, a payload raises no issue exactly when it is base64 text
    that decodes to at least one byte and at most 50 MiB. *)
Lemma no_issue_iff (b64 : string) :
  SourceBase64Schema b64 = [] <->
  exists bytes, decodeBase64 b64 = Some bytes /\
    1 <= Z.of_nat (List.length bytes) <= 52428800.
Proof.
  split.
  - unfold SourceBase64Schema. cbv zeta.
    destruct (base64Regex b64) eqn:Hre; [ | discriminate ].
    destruct (4 <=? Js.length b64); [ | discriminate ].
    destruct (approximateBase64DecodedBytes b64 <=? 0) eqn:Hlo; [ discriminate | ].
    destruct (approximateBase64DecodedBytes b64 >? MAX_UPLOAD_BYTES) eqn:Hhi;
      [ discriminate | ].
    intros _.
    destruct (SchemasFacts.decode_regex_size (String.length b64) b64 (le_n _)) as [Hr _].
    destruct (Hr Hre) as [_ [bytes [Hdec Hlen]]].
    exists bytes. split; [ exact Hdec | ].
    rewrite Hlen. unfold MAX_UPLOAD_BYTES in Hhi. lia.
  - intros [bytes [Hdec Hlen]].
    destruct (SchemasFacts.decode_size _ _ Hdec) as [Hre Hsize].
    assert (Hne : b64 <> EmptyString).
    { intros ->. cbn in Hdec. injection Hdec as <-. cbn in Hlen. lia. }
    pose proof (SchemasFacts.regex_short _ Hre Hne) as H4.
    unfold SourceBase64Schema. cbv zeta. rewrite Hre, Hsize.
    replace (4 <=? Js.length b64) with true by (unfold Js.length; lia).
    replace (Z.of_nat (List.length bytes) <=? 0) with false by lia.
    replace (Z.of_nat (List.length bytes) >? MAX_UPLOAD_BYTES) with false
      by (unfold MAX_UPLOAD_BYTES; lia).
    reflexivity.
Qed.

(** X1. The base64 upload source is accepted exactly when the regular
    expression engine answers on the payload, instead of throwing, and the
    payload is base64 text that decodes to at least one byte and at most
    50 MiB (52428800 bytes); the engine is taken to give the answer of the
    pattern when it gives one. *)
Theorem base64_source_accepted_iff (test : string -> Js.Thrown + bool) (b64 : string) :
  (forall answer, test b64 = inr answer -> answer = base64Regex b64) ->
  parseSourceBase64 test b64 = inr [] <->
  (exists answer, test b64 = inr answer) /\
  exists bytes, decodeBase64 b64 = Some bytes /\
    1 <= Z.of_nat (List.length bytes) <= 52428800.
Proof.
  intros Hsound. destruct (test b64) as [e | answer] eqn:Ht.
  - unfold parseSourceBase64. rewrite Ht.
    split; [ discriminate | intros [[answer Ha] _]; discriminate ].
  - rewrite (Hsound answer eq_refl) in Ht.
    rewrite (SchemasFacts.parse_answered test b64 Ht).
    split.
    + intros [= H]. split; [ eexists; reflexivity | ]. apply no_issue_iff, H.
    + intros [_ H]. f_equal. apply no_issue_iff, H.
Qed.

(** The three bytes of ["TWFu"], on an engine of bounded stack. *)
Lemma base64_source_accepted_iff_witness :
  parseSourceBase64 Scenarios.boundedEngine "TWFu" = inr [] <->
  (exists answer, Scenarios.boundedEngine "TWFu" = inr answer) /\
  exists bytes, decodeBase64 "TWFu" = Some bytes /\
    1 <= Z.of_nat (List.length bytes) <= 52428800.
Proof.
  apply (base64_source_accepted_iff Scenarios.boundedEngine "TWFu").
  intros answer [= <-]. reflexivity.
Defined.

(** X2. The refinement that reports an empty payload never fires on its
    own: a string for which the computed size is not positive has fewer
    than four characters, so the length check has reported it already. *)
Theorem empty_payload_issue_is_shadowed (b64 : string) :
  In "Base64 payload is empty." (SourceBase64Schema b64) ->
  In "String must contain at least 4 character(s)" (SourceBase64Schema b64).
Proof.
  unfold SourceBase64Schema. cbv zeta. intros H.
  destruct (4 <=? Js.length b64) eqn:H4.
  - exfalso. apply Z.leb_le in H4.
    assert (Hpos : (approximateBase64DecodedBytes b64 <=? 0) = false).
    { rewrite SchemasFacts.approx_unfold. pose proof (SchemasFacts.padding_range b64).
      apply Z.leb_gt. Z.to_euclidean_division_equations. lia. }
    rewrite Hpos in H.
    destruct (base64Regex b64), (approximateBase64DecodedBytes b64 >? MAX_UPLOAD_BYTES);
      cbn in H; intuition discriminate.
  - apply in_or_app. right. apply in_or_app. left. left. reflexivity.
Qed.

Lemma empty_payload_issue_is_shadowed_witness :
  In "String must contain at least 4 character(s)" (SourceBase64Schema "==").
Proof.
  apply empty_payload_issue_is_shadowed. cbn. auto.
Defined.

(** *** MIME types *)

Lemma length_append (a b : string) :
  String.length (a ++ b) = (String.length a + String.length b)%nat.
Proof. induction a as [ | c a IH]; cbn; [ reflexivity | rewrite IH; reflexivity ]. Qed.

Lemma isToken_length (t : string) : isToken t = true -> (String.length t <= 127)%nat.
Proof.
  destruct t as [ | c rest]; cbn; [ discriminate | ].
  rewrite !andb_true_iff. intros [_ H]. apply Nat.leb_le in H. lia.
Qed.

(** X3. A string the MIME type pattern matches has at most 255
    characters, so the length check of [mimeTypeSchema] never rejects
    anything: the schema accepts exactly the strings the pattern matches. *)
Theorem mime_type_schema_is_its_pattern (s : string) :
  noIssue (mimeTypeSchema s) = mimeTypeRegex s /\
  (mimeTypeRegex s = true -> Js.length s <= 255).
Proof.
  assert (Hlen : mimeTypeRegex s = true -> Js.length s <= 255).
  { unfold mimeTypeRegex. intros H.
    rewrite (MediaFacts.span_split (fun c => negb (c =? "/")%char) s).
    destruct (Media.span (fun c => negb (c =? "/")%char) s) as [type r].
    destruct r as [ | c subtype]; [ discriminate | ].
    apply andb_true_iff in H as [H1 H2].
    apply isToken_length in H1, H2.
    unfold Js.length. cbn [fst snd]. rewrite length_append. cbn [String.length]. lia. }
  split; [ | exact Hlen ].
  unfold mimeTypeSchema, check.
  destruct (mimeTypeRegex s) eqn:Hre; [ | reflexivity ].
  replace (Js.length s <=? 255) with true by (specialize (Hlen eq_refl); lia).
  reflexivity.
Qed.

(** *** Retention policy *)

Section Datetime.

Variable isDatetime : string -> bool.

Lemma noIssue_app (a b : list Issue) : noIssue (a ++ b) = noIssue a && noIssue b.
Proof. destruct a; reflexivity. Qed.

Lemma noIssue_check (holds : bool) (i : Issue) : noIssue (check holds i) = holds.
Proof. destruct holds; reflexivity. Qed.

Lemma integerBetween_accepts (lo hi : Z) (q : Q) :
  noIssue (integerBetween lo hi q) = true <->
  isInteger q = true /\ lo <= toInteger q <= hi.
Proof.
  unfold integerBetween. rewrite !noIssue_app, !noIssue_check, !andb_true_iff.
  unfold isInteger, toInteger.
  rewrite !Qle_bool_iff. unfold Qle. cbn [Qnum Qden inject_Z].
  rewrite Z.eqb_eq.
  split.
  - intros [Hint [Hlo Hhi]]. split; [ exact Hint | ].
    pose proof (Z.div_mod (Qnum q) (Z.pos (Qden q)) ltac:(lia)) as Hd.
    rewrite Hint in Hd. nia.
  - intros [Hint [Hlo Hhi]]. split; [ exact Hint | ].
    pose proof (Z.div_mod (Qnum q) (Z.pos (Qden q)) ltac:(lia)) as Hd.
    rewrite Hint in Hd. nia.
Qed.

(** The check of timestamps refuses the empty string (it asks for a date
    and a time). *)
Hypothesis datetime_not_empty : isDatetime EmptyString = false.

Lemma datetime_nonEmpty (s : string) : isDatetime s = true -> Js.nonEmpty s = true.
Proof. destruct s; [ rewrite datetime_not_empty; discriminate | reflexivity ]. Qed.

Lemma ttl_not_zero (q : Q) : 60 <= toInteger q -> (Qnum q =? 0) = false.
Proof.
  intros Hr. apply Z.eqb_neq. intros E. unfold toInteger in Hr. rewrite E in Hr.
  rewrite Z.div_0_l in Hr by lia. lia.
Qed.

(** X4. The retention policy is accepted exactly when it is persistent,
    or temporary with exactly one of the two expiry settings: a whole
    number of seconds between 60 and 2592000 (30 days) and no timestamp, or
    a valid timestamp and no number of seconds. *)
Theorem retention_exactly_one_expiry (v : RetentionInput) :
  RetentionPolicySchema isDatetime v <> None <->
  type v = "persistent" \/
  type v = "temporary" /\
  ((exists q, ttlSeconds v = Some q /\ isInteger q = true /\
              60 <= toInteger q <= 2592000 /\ expiresAt v = None) \/
   (exists s, expiresAt v = Some s /\ isDatetime s = true /\ ttlSeconds v = None)).
Proof.
  unfold RetentionPolicySchema.
  destruct (String.eqb_spec (type v) "persistent") as [Hp | Hp].
  { split; [ intros _; left; exact Hp | intros _; discriminate ]. }
  destruct (String.eqb_spec (type v) "temporary") as [Ht | Ht].
  2:{ split; [ intros H; contradiction | intros [H | [H _]]; contradiction ]. }
  destruct (noIssue (temporaryIssues isDatetime v)) eqn:Hi.
  - split; [ intros _; right; split; [ exact Ht | ] | intros _; discriminate ].
    unfold temporaryIssues in Hi. cbv zeta in Hi.
    rewrite !noIssue_app, !noIssue_check, !andb_true_iff in Hi.
    destruct Hi as [Httl [Hexp [Hnone Hboth]]].
    destruct (ttlSeconds v) as [q | ], (expiresAt v) as [s | ]; cbn [optional] in *.
    + exfalso. apply integerBetween_accepts in Httl as [Hint Hr].
      rewrite noIssue_check in Hexp.
      rewrite (ttl_not_zero q) in Hboth by lia.
      rewrite (datetime_nonEmpty s Hexp) in Hboth. discriminate.
    + left. apply integerBetween_accepts in Httl as [Hint Hr].
      exists q. repeat split; tauto || lia.
    + right. rewrite noIssue_check in Hexp. exists s. auto.
    + discriminate.
  - split; [ intros H; contradiction | ].
    intros [H | [_ H]]; [ contradiction | ].
    exfalso. unfold temporaryIssues in Hi. cbv zeta in Hi.
    rewrite !noIssue_app, !noIssue_check in Hi.
    destruct H as [[q [Hq [Hint [Hr He]]]] | [s [He [Hd Hq]]]].
    + rewrite Hq, He in Hi. cbn [optional] in Hi.
      assert (Ha : noIssue (integerBetween 60 (60 * 60 * 24 * 30) q) = true)
        by (apply integerBetween_accepts; split; [ exact Hint | lia ]).
      rewrite Ha, (ttl_not_zero q) in Hi by lia. discriminate.
    + rewrite Hq, He in Hi. cbn [optional] in Hi.
      rewrite noIssue_check, Hd, (datetime_nonEmpty s Hd) in Hi. discriminate.
Qed.

End Datetime.

(** One minute of temporary retention is accepted, by the theorem: it
    names a whole number of seconds within the bounds and no timestamp. *)
Lemma retention_exactly_one_expiry_witness :
  RetentionPolicySchema Scenarios.newYear Scenarios.oneMinute <> None <->
  type Scenarios.oneMinute = "persistent" \/
  type Scenarios.oneMinute = "temporary" /\
  ((exists q, ttlSeconds Scenarios.oneMinute = Some q /\ isInteger q = true /\
              60 <= toInteger q <= 2592000 /\ expiresAt Scenarios.oneMinute = None) \/
   (exists s, expiresAt Scenarios.oneMinute = Some s /\ Scenarios.newYear s = true /\
              ttlSeconds Scenarios.oneMinute = None)).
Proof.
  apply (retention_exactly_one_expiry Scenarios.newYear). reflexivity.
Defined.

Example retention_table :
  map (RetentionPolicySchema Scenarios.newYear)
    [ mkRetentionInput "persistent" None None;
      mkRetentionInput "temporary" (Some (60 # 1)) None;
      mkRetentionInput "temporary" None (Some "2030-01-01T00:00:00Z");
      mkRetentionInput "temporary" None None;
      mkRetentionInput "temporary" (Some (60 # 1)) (Some "2030-01-01T00:00:00Z");
      mkRetentionInput "temporary" (Some (59 # 1)) None;
      mkRetentionInput "temporary" (Some (121 # 2)) None ] =
  [ Some persistent; Some (temporary (Some 60) None);
    Some (temporary None (Some "2030-01-01T00:00:00Z")); None; None; None; None ].
Proof. reflexivity. Qed.

End Wave1SchemasFacts.

(* ===================================================================== *)
(** ** Further properties of the media fetcher *)
(* ===================================================================== *)

Module MediaGuardFacts.
Import Media Spec.

Lemma octets_all (P : Z -> Prop) : Forall P octets -> forall a, 0 <= a < 256 -> P a.
Proof.
  intros H a Ha. rewrite Forall_forall in H. apply H.
  change octets with (map Z.of_nat (seq 0 256)).
  apply in_map_iff. exists (Z.to_nat a). split; [ lia | apply in_seq; lia ].
Qed.

Ltac decide_host rest :=
  destruct rest as [ | c rest];
  first [ reflexivity | destruct c as [[] [] [] [] [] [] [] []]; reflexivity ].

(** X5. On host names that start with two decimal octets the patterns of
    the blocklist match exactly the loopback, private and link-local
    ranges: 127/8, 10/8, 192.168/16, 172.16/12 (second octet 16 to 31) and
    169.254/16. *)
Theorem network_patterns_are_the_private_ranges (a b : Z) (rest : string) :
  0 <= a < 256 -> 0 <= b < 256 ->
  matchesNetwork (dotted a b rest) = privateV4 a b.
Proof.
  intros Ha Hb. revert b Hb rest. pattern a. revert a Ha.
  apply octets_all. unfold octets.
  repeat (constructor;
          [ first [ intros b Hb rest; reflexivity
                  | intros b Hb; pattern b; revert b Hb; apply octets_all; unfold octets;
                    repeat (constructor; [ intros rest; decide_host rest | ]);
                    constructor ] | ]).
  constructor.
Qed.

Lemma network_patterns_are_the_private_ranges_witness :
  matchesNetwork "172.31.255.1" = true /\ matchesNetwork "172.32.0.1" = false.
Proof.
  split.
  - apply (network_patterns_are_the_private_ranges 172 31 "255.1"); lia.
  - apply (network_patterns_are_the_private_ranges 172 32 "0.1"); lia.
Defined.

(** X6. A host name in brackets, which is how the runtime gives an IPv6
    literal, is refused by no entry of the two blocklists: for such an
    http or https URL the guard returns normally. The three IPv6 patterns
    of the blocklist therefore match no host name of a URL. *)
Theorem bracketed_host_is_never_refused (url : string) (u : URL) (h : string) :
  newURL url = Some u ->
  arrayIncludes ["http:"; "https:"] (protocol u) = true ->
  hostname u = String "[" h ->
  validateUrl url = inr tt.
Proof.
  intros Hu Hp Hh. unfold validateUrl. rewrite Hu, Hp, Hh. reflexivity.
Qed.

Lemma bracketed_host_is_never_refused_witness :
  validateUrl "http://[::1]:8080/latest/meta-data" = inr tt.
Proof.
  apply (bracketed_host_is_never_refused _ (mkURL "http:" "[::1]") "::1]"); reflexivity.
Defined.

(** X7. The two size checks compare with fixed thresholds: a base64 text
    passes [validateDataSize] exactly when it has at most 27962026
    characters (three quarters of which are 20 MiB), and a buffer passes
    [validateBufferSize] exactly when it has at most 20971520 bytes. *)
Theorem size_checks_thresholds (base64Data : string) (byteLength : Z) :
  validateDataSize base64Data = (Js.length base64Data <=? 27962026) /\
  validateBufferSize byteLength = (byteLength <=? 20971520).
Proof.
  split.
  - unfold validateDataSize. cbv zeta.
    apply eq_true_iff_eq. rewrite Qle_bool_iff, Z.leb_le.
    unfold Qle, Qdiv, Qmult, Qinv, inject_Z. cbn. lia.
  - unfold validateBufferSize. cbv zeta.
    apply eq_true_iff_eq. rewrite Qle_bool_iff, Z.leb_le.
    unfold Qle, Qdiv, Qmult, Qinv, inject_Z. cbn. lia.
Qed.

Lemma arrayIncludes_In (l : list string) (x : string) :
  arrayIncludes l x = true -> In x l.
Proof.
  unfold arrayIncludes. rewrite existsb_exists.
  intros [y [Hin Heq]]. apply String.eqb_eq in Heq. subst y. exact Hin.
Qed.

(** X8. The two MIME type helpers agree: a type that [validateMimeType]
    accepts for a media kind is given that kind by [getMediaType], once
    written in lower case. *)
Theorem supported_type_has_its_kind (mimeType mediaType : string) :
  In mediaType ["image"; "audio"; "video"] ->
  validateMimeType mimeType mediaType = true ->
  getMediaType (Js.toLowerCase mimeType) = mediaType.
Proof.
  intros Hkind Hv. unfold validateMimeType in Hv. cbv zeta in Hv.
  apply arrayIncludes_In in Hv.
  cbn [In] in Hkind.
  destruct Hkind as [<- | [<- | [<- | []]]]; cbn [String.eqb Ascii.eqb Bool.eqb] in Hv;
    cbn [In] in Hv;
    repeat (destruct Hv as [<- | Hv]; [ reflexivity | ]); contradiction.
Qed.

Lemma supported_type_has_its_kind_witness :
  getMediaType (Js.toLowerCase "Image/PNG") = "image".
Proof.
  apply supported_type_has_its_kind; [ cbn; auto | reflexivity ].
Defined.

Section Runtime.

Variable base64Decode : string -> list Z.
Variable base64Encode : list Z -> string.
Variable fileTypeFromBuffer : list Z -> option string.
Variable toFixed2 : Q -> string.

Local Abbreviation fetchAsInlineData :=
  (Media.fetchAsInlineData base64Decode base64Encode fileTypeFromBuffer toFixed2).
Local Abbreviation parseDataUrl := (Media.parseDataUrl base64Decode).
Local Abbreviation fromResponse := (Media.fromResponse base64Encode fileTypeFromBuffer toFixed2).

Lemma span_all (p : ascii -> bool) (s : string) :
  forallb_string p s = true -> span p s = (s, EmptyString).
Proof.
  induction s as [ | c s IH]; cbn; [ reflexivity | ].
  intros H. apply andb_true_iff in H as [Hc Hs]. rewrite Hc, (IH Hs). reflexivity.
Qed.

Lemma span_until (p : ascii -> bool) (s : string) (c : ascii) (r : string) :
  forallb_string p s = true -> p c = false ->
  span p (s ++ String c r) = (s, String c r).
Proof.
  intros Hs Hc. induction s as [ | x s IH]; cbn.
  - rewrite Hc. reflexivity.
  - cbn in Hs. apply andb_true_iff in Hs as [Hx Hs]. rewrite Hx, (IH Hs). reflexivity.
Qed.

Lemma startsWith_app (p s : string) : Js.startsWith (p ++ s) p = true.
Proof.
  unfold Js.startsWith. induction p as [ | c p IH]; cbn.
  - destruct s; reflexivity.
  - destruct (ascii_dec c c); [ exact IH | congruence ].
Qed.

Lemma drop_app (p s : string) : drop (String.length p) (p ++ s) = s.
Proof. induction p as [ | c p IH]; [ destruct s; reflexivity | exact IH ]. Qed.

(** X9. Round trip of a [data:] URL: for a MIME type without [;] and [,]
    and a payload without line terminators, the fetcher returns the
    payload as it stands and the declared type (the default
    [application/octet-stream] when none is declared), whatever the hint,
    and requests nothing. *)
Theorem data_url_round_trip (mime payload : string) (hint : option string) (w : World) :
  forallb_string (fun c => negb (isOneOf ";," c)) mime = true ->
  forallb_string (fun c => negb (isLineTerminator c)) payload = true ->
  fetchAsInlineData ("data:" ++ mime ++ ";base64," ++ payload) hint w =
  (inr (mkInlineData payload
          (if Js.nonEmpty mime then mime else "application/octet-stream")), w).
Proof.
  intros Hm Hp.
  rewrite (MediaFacts.data_url_is_parsed_locally _ _ _ _ _ _ _ (startsWith_app "data:" _)).
  f_equal. unfold Media.parseDataUrl, matchDataUrl.
  rewrite (startsWith_app "data:").
  rewrite (drop_app "data:").
  change (mime ++ ";base64," ++ payload)%string
    with (mime ++ String ";" ("base64," ++ payload))%string.
  rewrite (span_until _ mime ";" _ Hm eq_refl).
  change (String ";" ("base64," ++ payload))%string with (";base64," ++ payload)%string.
  rewrite (startsWith_app ";base64,").
  rewrite (drop_app ";base64,").
  rewrite (span_all _ _ Hp). cbn [fst negb Buffer_from_base64].
  destruct (Js.nonEmpty mime); reflexivity.
Qed.

(** X10. The fetcher calls [fetch] at most once, with the URL it was
    given, and only when that URL does not begin with [data:] and
    [validateUrl] has let it through. (The call follows redirects on its
    own; what it requests then is no call of the fetcher and is checked
    by nothing.) *)
Theorem requests_pass_the_guard (url : string) (hint : option string) (w : World) :
  requested (snd (fetchAsInlineData url hint w)) = requested w \/
  requested (snd (fetchAsInlineData url hint w)) = (requested w ++ [url])%list /\
  Js.startsWith url "data:" = false /\ validateUrl url = inr tt.
Proof.
  unfold Media.fetchAsInlineData.
  destruct (Js.startsWith url "data:"); [ left; reflexivity | ].
  destruct (validateUrl url) as [e | []]; [ left; reflexivity | ].
  right. unfold fetch.
  destruct (remote w (List.length (requested w)) url); auto.
Qed.

Lemma missing_false (m : option string) :
  missing m = false -> exists s, m = Some s /\ Js.nonEmpty s = true.
Proof.
  destruct m as [s | ]; cbn; [ | discriminate ].
  intros H. exists s. split; [ reflexivity | ]. destruct (Js.nonEmpty s); [ reflexivity | discriminate ].
Qed.

Lemma fromResponse_type (url : string) (hint : option string) (res : Response)
    (r : InlineDataResult) :
  fromResponse url hint res = inr r -> Js.nonEmpty (mimeType r) = true.
Proof.
  unfold Media.fromResponse.
  destruct (negb (ok res)); [ discriminate | ].
  destruct (arrayBuffer res) as [e | bytes]; [ discriminate | ].
  match goal with |- context [negb (Qle_bool ?a ?b)] => destruct (negb (Qle_bool a b)) end;
    [ discriminate | ].
  cbv zeta. intros [= <-]. cbn [mimeType].
  repeat match goal with
         | |- context [if missing ?m then _ else _] =>
             let H := fresh "H" in destruct (missing m) eqn:H
         end;
    try reflexivity;
    match goal with
    | H : missing ?m = false |- _ =>
        destruct (missing_false _ H) as [s [-> Hs]]; exact Hs
    end.
Qed.

(** X11. Whatever the fetcher returns carries a MIME type that is not
    empty: the declared, hinted, reported or sniffed one, or the default
    [application/octet-stream]. *)
Theorem inline_data_has_a_type (url : string) (hint : option string) (w w' : World)
    (r : InlineDataResult) :
  fetchAsInlineData url hint w = (inr r, w') ->
  Js.nonEmpty (mimeType r) = true.
Proof.
  unfold Media.fetchAsInlineData.
  destruct (Js.startsWith url "data:").
  - destruct (Media.parseDataUrl base64Decode url) as [e | v] eqn:Hp; [ discriminate | ].
    intros [= <- _].
    apply MediaFacts.parseDataUrl_success in Hp as [_ [mime [d [Hm [_ Ht]]]]].
    rewrite Ht. destruct mime as [m | ]; [ | reflexivity ].
    unfold matchDataUrl in Hm.
    destruct (Js.startsWith url "data:"); [ | discriminate ].
    destruct (span (fun c => negb (isOneOf ";," c)) (drop 5 url)) as [m' rest].
    destruct (Js.nonEmpty m') eqn:Hne;
      destruct (Js.startsWith rest ";base64,"); [ | | discriminate | ];
      try (destruct (Js.startsWith rest ","); discriminate).
    injection Hm as <-. exact Hne.
  - destruct (validateUrl url) as [e | []]; [ discriminate | ].
    unfold fetch.
    destruct (remote w (List.length (requested w)) url) as [e | res]; [ discriminate | ].
    destruct (Media.fromResponse base64Encode fileTypeFromBuffer toFixed2 url hint res)
      as [e | v] eqn:Hr; [ discriminate | ].
    intros [= <- _]. exact (fromResponse_type _ _ _ _ Hr).
Qed.

(** X12. When the fetcher returns media for a URL that is no [data:]
    URL, [validateUrl] had let that URL through, the call of [fetch] with
    it resolved with an OK status (after the redirects it followed, if
    any), the data are the base64 text of the body of that response, of
    at most 20 MiB (20971520 bytes), and the type is the caller's hint
    when a hint is given. *)
Theorem remote_media_is_bounded (url : string) (hint : option string) (w w' : World)
    (r : InlineDataResult) :
  Js.startsWith url "data:" = false ->
  fetchAsInlineData url hint w = (inr r, w') ->
  exists res bytes,
    validateUrl url = inr tt /\
    remote w (List.length (requested w)) url = Resolved res /\
    ok res = true /\ arrayBuffer res = inr bytes /\
    Z.of_nat (List.length bytes) <= 20971520 /\
    data r = base64Encode bytes /\
    (forall m, hint = Some m -> Js.nonEmpty m = true -> mimeType r = m).
Proof.
  intros Hd. unfold Media.fetchAsInlineData. rewrite Hd.
  destruct (validateUrl url) as [e | []]; [ discriminate | ].
  unfold fetch.
  destruct (remote w (List.length (requested w)) url) as [e | res]; [ discriminate | ].
  unfold Media.fromResponse.
  destruct (ok res) eqn:Hok; cbn [negb]; [ | discriminate ].
  destruct (arrayBuffer res) as [e | bytes] eqn:Hb; [ discriminate | ].
  match goal with |- context [Qle_bool ?a ?b] => destruct (Qle_bool a b) eqn:Hsize end;
    cbn [negb]; [ | discriminate ].
  cbv zeta. intros [= <- _].
  exists res, bytes. repeat split; try reflexivity; try assumption.
  - apply Qle_bool_iff in Hsize. revert Hsize.
    unfold Qle, Qdiv, Qmult, Qinv, inject_Z. cbn. lia.
  - intros m -> Hm. cbn [mimeType missing]. rewrite Hm. cbn [negb missing]. rewrite Hm.
    cbn [negb missing]. rewrite Hm. reflexivity.
Qed.

End Runtime.

Lemma data_url_round_trip_witness :
  Media.fetchAsInlineData Scenarios.noBytes Scenarios.noText Scenarios.noType
    Scenarios.noDigits "data:image/png;base64,iVBORw0KGgo=" (Some "image/jpeg")
    Scenarios.offline =
  (inr (mkInlineData "iVBORw0KGgo=" "image/png"), Scenarios.offline).
Proof.
  apply (data_url_round_trip Scenarios.noBytes Scenarios.noText Scenarios.noType
           Scenarios.noDigits "image/png" "iVBORw0KGgo="); reflexivity.
Defined.

Lemma inline_data_has_a_type_witness :
  Js.nonEmpty (mimeType (mkInlineData "AAAA" "application/octet-stream")) = true.
Proof.
  apply (inline_data_has_a_type Scenarios.noBytes Scenarios.noText Scenarios.noType
           Scenarios.noDigits "data:;base64,AAAA" None Scenarios.offline Scenarios.offline).
  reflexivity.
Defined.

Lemma remote_media_is_bounded_witness :
  exists res bytes,
    validateUrl "https://example.com/image.png" = inr tt /\
    remote Scenarios.serving 0 "https://example.com/image.png" = Resolved res /\
    ok res = true /\ arrayBuffer res = inr bytes /\
    Z.of_nat (List.length bytes) <= 20971520 /\
    data (mkInlineData "(base64)" "image/webp") = "(base64)" /\
    (forall m, Some "image/webp" = Some m -> Js.nonEmpty m = true ->
               mimeType (mkInlineData "(base64)" "image/webp") = m).
Proof.
  apply (remote_media_is_bounded Scenarios.noBytes (fun _ => "(base64)") Scenarios.noType
           Scenarios.noDigits "https://example.com/image.png" (Some "image/webp")
           Scenarios.serving
           (mkWorld (remote Scenarios.serving) ["https://example.com/image.png"]));
    reflexivity.
Defined.

End MediaGuardFacts.

(* ===================================================================== *)
(** ** Further properties of the client *)
(* ===================================================================== *)

Module RetryFacts.
Import Gemini Spec.

Lemma backoffs_S (unit a : Z) (m : nat) :
  backoffs unit a (S m) = unit * 2 ^ a :: backoffs unit (a + 1) m.
Proof.
  unfold backoffs. cbn [seq map]. rewrite Z.add_0_r. f_equal.
  rewrite <- seq_shift, map_map. apply map_ext. intros i. do 2 f_equal. lia.
Qed.

Lemma backoffs_firstn (m : nat) :
  (m <= 4)%nat -> backoffs 500 0 m = firstn m [500; 1000; 2000; 4000].
Proof. intros H. destruct m as [ | [ | [ | [ | [ | m]]]]]; [ reflexivity .. | lia ]. Qed.

Section Client.

Variable baseUrl : string.
Variable encodeURIComponent : string -> string.
Variable parseAny : string -> Js.Thrown + Js.Value.

Section FetchWithRetry.

Context {T : Type}.
Variable parse : string -> Js.Thrown + T.
Variable empty : T.
Variable req : Request.
Variable parseJson : bool.

Local Abbreviation loop := (fetchLoop parseAny parse empty req parseJson).
Local Abbreviation attempt := (attemptOf parseAny parse empty parseJson).
Local Abbreviation fetchWithRetry := (Gemini.fetchWithRetry parseAny parse empty req parseJson).

(** What a run of the loop leaves behind: [k] more requests, all of them
    the same, and [m] more delays, each the double of the one before; a
    delay follows every request but, possibly, the last. *)
Lemma fetchLoop_trace (left : nat) :
  forall (a : Z) (lastError : Js.Thrown) (w : World) (n : nat) (delays : list Z),
  exists k m,
    snd (loop left a lastError (after w req n delays)) =
      after w req (n + k) (delays ++ backoffs 500 a m)%list /\
    (k <= left)%nat /\ (m <= k)%nat /\ (k <= S m)%nat /\
    (left <> 0%nat -> k <> 0%nat) /\ (m = k -> k = left).
Proof.
  induction left as [ | left IH]; intros a lastError w n delays.
  - exists 0%nat, 0%nat. cbn. rewrite Nat.add_0_r, app_nil_r. repeat split; lia.
  - rewrite ClientFacts.fetchLoop_step.
    assert (Hgo : forall e, exists k m,
              snd (loop left (a + 1) e (after w req (S n) (delays ++ [500 * 2 ^ a])%list)) =
                after w req (n + k) (delays ++ backoffs 500 a m)%list /\
              (k <= S left)%nat /\ (m <= k)%nat /\ (k <= S m)%nat /\
              (S left <> 0%nat -> k <> 0%nat) /\ (m = k -> k = S left)).
    { intros e.
      destruct (IH (a + 1) e w (S n) (delays ++ [500 * 2 ^ a])%list) as (k & m & E & H).
      exists (S k), (S m). rewrite E, backoffs_S, <- app_assoc, Nat.add_succ_r.
      repeat split; cbn [app]; lia. }
    assert (Hstop : exists k m,
              after w req (S n) delays = after w req (n + k) (delays ++ backoffs 500 a m)%list /\
              (k <= S left)%nat /\ (m <= k)%nat /\ (k <= S m)%nat /\
              (S left <> 0%nat -> k <> 0%nat) /\ (m = k -> k = S left)).
    { exists 1%nat, 0%nat. cbn [backoffs seq map]. rewrite app_nil_r, Nat.add_1_r.
      repeat split; lia. }
    destruct (attemptOf parseAny parse empty parseJson (outcome w req n)) as [v | | err].
    + exact Hstop.
    + apply Hgo.
    + destruct (a <? 3); [ apply Hgo | exact Hstop ].
Qed.

Lemma fetchWithRetry_sends (w : World) :
  exists k m,
    snd (fetchWithRetry w) = after w req k (backoffs 500 0 m) /\ (1 <= k <= 4)%nat.
Proof.
  rewrite ClientFacts.fetchWithRetry_start.
  destruct (fetchLoop_trace 4 0 (Js.ThrowValue Js.Undefined) w 0 [])
    as (k & m & E & Hk & Hm & Hkm & Hpos & Hall).
  exists k, m. rewrite E. split; [ reflexivity | lia ].
Qed.

(** X13. Whatever the upstream does, [fetchWithRetry] sends its request at
    least once and at most four times, always the same request, and the
    delays it sleeps are the first of 500, 1000, 2000 and 4000 ms: one
    after each request but the last, or after all four. *)
Theorem fetchWithRetry_effort_is_bounded (w : World) :
  exists k m,
    snd (fetchWithRetry w) = after w req k (firstn m [500; 1000; 2000; 4000]) /\
    (1 <= k <= 4)%nat /\ (k = S m \/ k = 4%nat /\ m = 4%nat).
Proof.
  rewrite ClientFacts.fetchWithRetry_start.
  destruct (fetchLoop_trace 4 0 (Js.ThrowValue Js.Undefined) w 0 [])
    as (k & m & E & Hk & Hm & Hkm & Hpos & Hall).
  exists k, m. rewrite E, backoffs_firstn by lia.
  split; [ reflexivity | lia ].
Qed.

(** Attempts that do not return are followed by another one while the
    count allows. *)
Lemma fetchLoop_recovers (k : nat) :
  forall (left : nat) (a : Z) (lastError : Js.Thrown) (w : World) (n : nat)
         (delays : list Z) (v : option T),
  a + Z.of_nat k <= 3 ->
  (forall j v', (j < k)%nat -> attempt (outcome w req (n + j)) <> Returned v') ->
  attempt (outcome w req (n + k)) = Returned v ->
  loop (S (k + left)) a lastError (after w req n delays) =
  (inr v, after w req (S (n + k)) (delays ++ backoffs 500 a k)%list).
Proof.
  induction k as [ | k IH]; intros left a lastError w n delays v Ha Hfail Hret.
  - rewrite ClientFacts.fetchLoop_step. rewrite Nat.add_0_r in Hret. rewrite Hret.
    cbn [backoffs seq map]. rewrite app_nil_r, Nat.add_0_r. reflexivity.
  - rewrite ClientFacts.fetchLoop_step.
    assert (Hnext : forall e,
              loop (S (k + left)) (a + 1) e (after w req (S n) (delays ++ [500 * 2 ^ a])%list) =
              (inr v, after w req (S (n + S k)) (delays ++ backoffs 500 a (S k))%list)).
    { intros e. rewrite (IH left (a + 1) e w (S n) _ v).
      - rewrite backoffs_S, <- app_assoc, Nat.add_succ_r. reflexivity.
      - lia.
      - intros j v' Hj. replace (S n + j)%nat with (n + S j)%nat by lia.
        apply Hfail. lia.
      - replace (S n + k)%nat with (n + S k)%nat by lia. exact Hret. }
    pose proof (Hfail 0%nat) as H0. rewrite Nat.add_0_r in H0.
    cbn [Nat.add].
    destruct (attemptOf parseAny parse empty parseJson (outcome w req n)) as [v0 | | err].
    + exfalso. apply (H0 v0); [ lia | reflexivity ].
    + apply Hnext.
    + replace (a <? 3) with true by lia. apply Hnext.
Qed.

(** X14. When the first [k] attempts of [fetchWithRetry] ([k <= 3]) fail,
    with any status that is not OK or with an exception, and the next one
    is answered OK, the value of that answer is returned after [k + 1]
    requests and the first [k] delays of 500, 1000, 2000 ms. *)
Theorem fetchWithRetry_recovers (w : World) (k : nat) (v : option T) :
  (k <= 3)%nat ->
  (forall j v', (j < k)%nat -> attempt (outcome w req j) <> Returned v') ->
  attempt (outcome w req k) = Returned v ->
  fetchWithRetry w = (inr v, after w req (S k) (firstn k [500; 1000; 2000])).
Proof.
  intros Hk Hfail Hret. rewrite ClientFacts.fetchWithRetry_start.
  replace 4%nat with (S (k + (3 - k))) by lia.
  rewrite (fetchLoop_recovers k (3 - k) 0 _ w 0 [] v); [ | lia | exact Hfail | exact Hret ].
  cbn [app Nat.add]. do 2 f_equal.
  destruct k as [ | [ | [ | [ | k]]]]; [ reflexivity .. | lia ].
Qed.

End FetchWithRetry.

Section GenerateContent.

Variable parse : string -> Js.Thrown + GeminiResponse.
Variable request : GeminiRequest.

Local Abbreviation req := (generateRequest baseUrl encodeURIComponent request).
Local Abbreviation operation := (generateContentOnce baseUrl encodeURIComponent parse request).
Local Abbreviation result := (Spec.result baseUrl encodeURIComponent parse request).
Local Abbreviation generateContent :=
  (Gemini.generateContent baseUrl encodeURIComponent parse request).

(** A run of the loop of [retryWithBackoff] ends with the outcome of the
    last request it made. *)
Lemma retryLoop_trace (left : nat) :
  forall (a : Z) (lastError : Js.Thrown) (w : World) (n : nat) (delays : list Z),
  0 <= a <= 3 -> 3 - a < Z.of_nat left ->
  exists k,
    Z.of_nat k <= 3 - a /\
    retryLoop operation 3 left a lastError (after w req n delays) =
    (result w (n + k), after w req (S (n + k)) (delays ++ backoffs 1000 a k)%list).
Proof.
  induction left as [ | left IH]; intros a lastError w n delays Ha Hleft; [ lia | ].
  rewrite ClientFacts.retryLoop_step.
  assert (Hstop : exists k,
            Z.of_nat k <= 3 - a /\
            (result w n, after w req (S n) delays) =
            (result w (n + k), after w req (S (n + k)) (delays ++ backoffs 1000 a k)%list)).
  { exists 0%nat. cbn [backoffs seq map]. rewrite app_nil_r, Nat.add_0_r.
    split; [ lia | reflexivity ]. }
  destruct (result w n) as [error | v] eqn:E; [ | exact Hstop ].
  destruct (errorMessageIncludes error "400"); [ exact Hstop | ].
  destruct (Z.eqb_spec a 3) as [ | Hne]; [ exact Hstop | ].
  destruct (negb (errorMessageIncludes error "429" || errorMessageIncludes error "5"));
    [ exact Hstop | ].
  destruct (IH (a + 1) error w (S n) (delays ++ [2 ^ a * 1000])%list) as (k & Hk & Ek);
    [ lia | lia | ].
  exists (S k). split; [ lia | ].
  rewrite Ek, backoffs_S, <- app_assoc, Nat.add_succ_r, (Z.mul_comm 1000). reflexivity.
Qed.

(** X15. Whatever the upstream does, [generateContent] makes between one
    and four requests, sleeps 1000, 2000 and 4000 ms between them, and
    answers with the outcome of the last request: its value, or its error
    as it was thrown. *)
Theorem generateContent_answers_with_last_run (w : World) :
  exists k,
    (k <= 3)%nat /\
    generateContent w =
    (result w k, after w req (S k) (firstn k [1000; 2000; 4000])).
Proof.
  rewrite ClientFacts.generateContent_start.
  destruct (retryLoop_trace 4 0 (Js.ThrowValue Js.Undefined) w 0 [])
    as (k & Hk & E); [ lia | lia | ].
  exists k. split; [ lia | ]. rewrite E. cbn [app Nat.add]. do 2 f_equal.
  destruct k as [ | [ | [ | [ | k]]]]; [ reflexivity .. | lia ].
Qed.

End GenerateContent.

Lemma startsWith_files (id : string) : Js.startsWith ("files/" ++ id) "files/" = true.
Proof. apply MediaGuardFacts.startsWith_app. Qed.

(** X16. [deleteFile] takes a file id with or without the prefix
    [files/]: for an id that does not begin with it, the call with the
    prefixed id does exactly what the call with the bare id does. *)
Theorem deleteFile_accepts_both_forms (id : string) (w : World) :
  Js.startsWith id "files/" = false ->
  deleteFile baseUrl parseAny ("files/" ++ id) w = deleteFile baseUrl parseAny id w.
Proof.
  intros H. unfold deleteFile. rewrite startsWith_files, H. reflexivity.
Qed.

Section Embeddings.

Context {number : Type}.
Variable parse : string -> Js.Thrown + BatchEmbedContentsResponse number.

Local Abbreviation generateEmbeddings :=
  (Gemini.generateEmbeddings baseUrl encodeURIComponent parseAny parse).
Local Abbreviation embeddingsRequest := (Gemini.embeddingsRequest baseUrl encodeURIComponent).

(** With a model and at least one text, [generateEmbeddings] sends its
    batch request between one and four times. *)
Lemma generateEmbeddings_sends (params : GenerateEmbeddingsParams) (w : World) :
  Js.nonEmpty (embed_model params) = true -> texts params <> [] ->
  exists k, (1 <= k <= 4)%nat /\
    sent (snd (generateEmbeddings params w)) =
    (sent w ++ repeat (embeddingsRequest params) k)%list.
Proof.
  intros Hm Ht. unfold Gemini.generateEmbeddings. rewrite Hm. cbn [negb].
  destruct (texts params) as [ | t ts] eqn:Et; [ congruence | ]. cbn [List.length Nat.eqb].
  destruct (fetchWithRetry_sends parse (mkBatchResponse None)
              (embeddingsRequest params) true w) as (k & m & E & Hk).
  exists k. split; [ exact Hk | ].
  destruct (Gemini.fetchWithRetry parseAny parse (mkBatchResponse None)
              (embeddingsRequest params) true w) as [[e | [res | ]] w1];
    cbn [snd] in *; rewrite E; reflexivity.
Qed.

(** X17. [generateEmbeddings] fails fast: without a model or without
    texts it throws and sends nothing, and these are the only calls that
    send nothing. *)
Theorem generateEmbeddings_fails_fast (params : GenerateEmbeddingsParams) (w : World) :
  (Js.nonEmpty (embed_model params) = false \/ texts params = [] ->
   exists e, generateEmbeddings params w = (inl e, w)) /\
  (sent (snd (generateEmbeddings params w)) = sent w ->
   Js.nonEmpty (embed_model params) = false \/ texts params = []).
Proof.
  split.
  - intros H. unfold Gemini.generateEmbeddings.
    destruct (Js.nonEmpty (embed_model params)); cbn [negb]; [ | eexists; reflexivity ].
    destruct H as [H | ->]; [ discriminate | ]. eexists. reflexivity.
  - intros Hsent.
    destruct (Js.nonEmpty (embed_model params)) eqn:Hm; [ | left; reflexivity ].
    destruct (texts params) as [ | t ts] eqn:Ht; [ right; reflexivity | exfalso ].
    destruct (generateEmbeddings_sends params w Hm) as (k & Hk & E); [ congruence | ].
    rewrite E in Hsent. apply (f_equal (@List.length _)) in Hsent.
    rewrite length_app, repeat_length in Hsent. lia.
Qed.

End Embeddings.

End Client.

(** A deletion answered with 503 and then with 200: two requests, one
    delay of 500 ms, and the call returns. *)
Lemma fetchWithRetry_recovers_witness :
  fetchWithRetry (T := unit) Scenarios.parseNotFound (fun _ => inr tt) tt
    Scenarios.deleteRequest false Scenarios.recovering =
  (inr None, after Scenarios.recovering Scenarios.deleteRequest 2 [500]).
Proof.
  apply (fetchWithRetry_recovers Scenarios.parseNotFound (fun _ => inr tt) tt
           Scenarios.deleteRequest false Scenarios.recovering 1 None).
  - lia.
  - intros j v' Hj. destruct j as [ | j]; [ discriminate | lia ].
  - reflexivity.
Defined.

Lemma deleteFile_accepts_both_forms_witness :
  deleteFile Scenarios.base Scenarios.parseNotFound "files/abc123" Scenarios.recovering =
  deleteFile Scenarios.base Scenarios.parseNotFound "abc123" Scenarios.recovering.
Proof.
  apply (deleteFile_accepts_both_forms Scenarios.base Scenarios.parseNotFound "abc123").
  reflexivity.
Defined.

End RetryFacts.

(* ===================================================================== *)
(** ** Further properties of the response normalizers *)
(* ===================================================================== *)

Module ResponseFacts.
Import Gemini Spec.

(** X18. The two normalizers about blocking agree on a response that is
    not blocked: [getBlockReason] then gives the generic reason and reads
    no safety rating. *)
Theorem unblocked_reason_is_generic (response : GeminiResponse) :
  isBlocked response = inr false ->
  getBlockReason response = inr "Content generation was stopped unexpectedly".
Proof.
  unfold isBlocked, getBlockReason. cbv zeta.
  destruct (List.length (orEmpty (candidates response)) =? 0)%nat; [ discriminate | ].
  destruct (first (orEmpty (candidates response)) "finishReason") as [e | candidate];
    [ discriminate | ].
  destruct (equals (finishReason candidate) "SAFETY"); [ discriminate | reflexivity ].
Qed.

Lemma unblocked_reason_is_generic_witness :
  getBlockReason Scenarios.completed = inr "Content generation was stopped unexpectedly".
Proof. apply unblocked_reason_is_generic. reflexivity. Defined.

Lemma filterText_nonEmpty (texts : list (option string)) :
  forallb Js.nonEmpty (filterText texts) = true.
Proof.
  induction texts as [ | [t | ] rest IH]; cbn; [ reflexivity | | exact IH ].
  destruct (Js.nonEmpty t) eqn:H; [ cbn; rewrite H | ]; exact IH.
Qed.

Lemma filterText_nil (texts : list (option string)) :
  filterText texts = [] <->
  forall t, In t texts -> t = None \/ t = Some EmptyString.
Proof.
  induction texts as [ | x rest IH].
  - split; [ intros _ t [] | reflexivity ].
  - assert (Hrest : filterText rest = [] ->
                    x = None \/ x = Some EmptyString ->
                    forall t, In t (x :: rest) -> t = None \/ t = Some EmptyString).
    { intros Hn Hx t [<- | Ht]; [ exact Hx | apply IH; assumption ]. }
    assert (Hback : (forall t, In t (x :: rest) -> t = None \/ t = Some EmptyString) ->
                    filterText rest = []).
    { intros H. apply IH. intros t Ht. apply H. right. exact Ht. }
    destruct x as [[ | c s] | ]; cbn [filterText Js.nonEmpty].
    + split; [ intros Hn; apply Hrest; auto | exact Hback ].
    + split; [ discriminate | ].
      intros H. destruct (H (Some (String c s)) (or_introl eq_refl)); discriminate.
    + split; [ intros Hn; apply Hrest; auto | exact Hback ].
Qed.

Lemma extractText_returns (response : GeminiResponse) :
  extractText response =
  inr (Js.join Js.blankLine (filterText (map text (partsOf response)))).
Proof.
  unfold extractText, partsOf, firstParts, first. cbv zeta.
  destruct (orEmpty (candidates response)) as [ | candidate rest]; [ reflexivity | ].
  cbn. destruct (content candidate); reflexivity.
Qed.

(** X19. [extractText] gives the empty string exactly when no part of
    the first candidate carries a text that is not empty; otherwise the
    result holds the texts, so it is not empty. *)
Theorem extractText_empty_iff (response : GeminiResponse) :
  extractText response = inr EmptyString <->
  forall part, In part (partsOf response) ->
    text part = None \/ text part = Some EmptyString.
Proof.
  rewrite extractText_returns.
  pose proof (filterText_nonEmpty (map text (partsOf response))) as Hne.
  pose proof (filterText_nil (map text (partsOf response))) as Hnil.
  destruct (filterText (map text (partsOf response))) as [ | x l] eqn:E.
  - split; [ intros _ part Hin | reflexivity ].
    apply (proj1 Hnil eq_refl). apply in_map. exact Hin.
  - split.
    + intros H. exfalso.
      pose proof (IndexFacts.join_nonEmpty Js.blankLine (x :: l) ltac:(congruence) Hne) as Hj.
      assert (Hj' : Js.join Js.blankLine (x :: l) = EmptyString) by congruence.
      rewrite Hj' in Hj. discriminate.
    + intros H. exfalso.
      assert (Hall : forall t, In t (map text (partsOf response)) ->
                       t = None \/ t = Some EmptyString).
      { intros t Ht. apply in_map_iff in Ht as [part [<- Hin]]. apply H, Hin. }
      apply Hnil in Hall. discriminate.
Qed.

End ResponseFacts.

(* ===================================================================== *)
(** ** Further properties of the request mapping *)
(* ===================================================================== *)

Module MappingFacts.
Import Index Spec.

Lemma existsb_filter {A : Type} (f : A -> bool) (l : list A) :
  existsb f l = (0 <? List.length (filter f l))%nat.
Proof.
  induction l as [ | x l IH]; [ reflexivity | ].
  cbn. destruct (f x); [ reflexivity | exact IH ].
Qed.

Section Runtime.

Variable base64Decode : string -> list Z.
Variable base64Encode : list Z -> string.
Variable fileTypeFromBuffer : list Z -> option string.
Variable toFixed2 : Q -> string.

Local Abbreviation fetchAsInlineData :=
  (Media.fetchAsInlineData base64Decode base64Encode fileTypeFromBuffer toFixed2).
Local Abbreviation mapParts :=
  (Index.mapParts base64Decode base64Encode fileTypeFromBuffer toFixed2).
Local Abbreviation mapContentToGeminiParts :=
  (Index.mapContentToGeminiParts base64Decode base64Encode fileTypeFromBuffer toFixed2).
Local Abbreviation mapMessages :=
  (Index.mapMessages base64Decode base64Encode fileTypeFromBuffer toFixed2).
Local Abbreviation mapMessagesToGeminiContents :=
  (Index.mapMessagesToGeminiContents base64Decode base64Encode fileTypeFromBuffer toFixed2).

(** The loop fails at the first inline-bytes part over the ceiling, with
    the error about inline data. *)
Lemma mapParts_oversize (l : list ContentPart) :
  forall (acc : list Gemini.GeminiPart) (w : Media.World),
    forallb withinCeiling l = false ->
    exists w', mapParts l acc w = (inl (Js.newError "Inline data too large"), w').
Proof.
  induction l as [ | part rest IH]; intros acc w Hsize; [ discriminate | ].
  cbn [forallb] in Hsize.
  destruct part as [t | url m | url m | url m | d m | uri m | tag];
    cbn [Index.mapParts withinCeiling andb] in *;
    try (apply IH; exact Hsize);
    try (destruct (Media.fetchAsInlineData _ _ _ _ url m w) as [fetched w1];
         apply IH; exact Hsize).
  destruct (Media.validateDataSize d); cbn [negb andb] in *.
  - apply IH. exact Hsize.
  - exists w. reflexivity.
Qed.

(** X20. [mapContentToGeminiParts] throws exactly when some inline-bytes
    part is over the size ceiling, and what it throws is the error
    [Inline data too large]; a failed or oversized media download never
    makes it throw. *)
Theorem mapContent_fails_only_on_oversize (content : Content) (w : Media.World) :
  (forallb withinCeiling (partsOfContent content) = false <->
   fst (mapContentToGeminiParts content w) = inl (Js.newError "Inline data too large")) /\
  (forall e, fst (mapContentToGeminiParts content w) = inl e ->
             e = Js.newError "Inline data too large").
Proof.
  destruct (forallb withinCeiling (partsOfContent content)) eqn:Hsize.
  - destruct content as [s | l].
    + cbn. repeat split; try discriminate.
    + destruct (IndexFacts.mapParts_spec base64Decode base64Encode fileTypeFromBuffer
                  toFixed2 l [] w Hsize) as (parts & w' & E & _).
      cbn [Index.mapContentToGeminiParts]. rewrite E. cbn.
      repeat split; discriminate.
  - destruct content as [s | l]; [ discriminate | ].
    destruct (mapParts_oversize l [] w Hsize) as [w' E].
    cbn [Index.mapContentToGeminiParts]. rewrite E. cbn.
    repeat split; congruence.
Qed.





Lemma mapParts_length (l : list ContentPart) :
  forall (acc parts : list Gemini.GeminiPart) (w w' : Media.World),
    mapParts l acc w = (inr parts, w') ->
    List.length parts = (List.length acc + List.length (filter recognized l))%nat.
Proof.
  induction l as [ | part rest IH]; intros acc parts w w' E.
  - cbn in E. injection E as <- _. cbn. lia.
  - destruct part as [t | url m | url m | url m | d m | uri m | tag];
      cbn [Index.mapParts filter recognized List.length] in *;
      try (apply IH in E; rewrite E, length_app; cbn; lia);
      try (destruct (Media.fetchAsInlineData _ _ _ _ url m w) as [fetched w1];
           apply IH in E; rewrite E, length_app; cbn; lia).
    + destruct (Media.validateDataSize d); cbn [negb] in E; [ | discriminate ].
      apply IH in E. rewrite E, length_app. cbn. lia.
    + apply IH in E. exact E.
Qed.

Lemma mapContent_hasParts (message : Message) (parts : list Gemini.GeminiPart)
    (w w' : Media.World) :
  mapContentToGeminiParts (content message) w = (inr parts, w') ->
  (0 <? List.length parts)%nat = hasParts message.
Proof.
  unfold hasParts. destruct (content message) as [s | l]; cbn [Index.mapContentToGeminiParts].
  - intros [= <- _]. reflexivity.
  - intros E. apply mapParts_length in E. rewrite E, existsb_filter. reflexivity.
Qed.

Lemma mapMessages_turns (messages : list Message) :
  forall (acc cs : list Gemini.GeminiContent) (sys ss : list string) (w w' : Media.World),
    mapMessages messages acc sys w = (inr (cs, ss), w') ->
    exists turns,
      cs = (acc ++ turns)%list /\
      Turns mapContentToGeminiParts messages w turns w' /\
      map Gemini.role turns =
        map turnRole (filter (fun m => negb (isSystem m) && hasParts m) messages) /\
      Forall (fun turn => Gemini.parts turn <> []) turns.
Proof.
  induction messages as [ | m rest IH]; intros acc cs sys ss w w' E.
  - cbn in E. injection E as <- _ <-. exists []. rewrite app_nil_r.
    repeat split; constructor.
  - cbn [filter]. destruct (isSystem m) eqn:Hs; cbn [negb andb].
    + pose proof Hs as Hsys. unfold isSystem in Hs. cbn [Index.mapMessages] in E.
      destruct (role m); try discriminate.
      assert (Hrest : exists cs' ss' , mapMessages rest acc ss' w = (inr (cs', ss), w') /\ cs' = cs).
      { destruct (Js.nonEmpty (Js.trim (messageText m))); eexists _, _; split;
          [ exact E | reflexivity | exact E | reflexivity ]. }
      destruct Hrest as (cs' & ss' & E' & <-).
      apply IH in E' as (turns & -> & T & Hroles & Hne).
      exists turns. split; [ reflexivity | ]. split; [ | split; assumption ].
      apply turns_system; [ exact Hsys | exact T ].
    + pose proof Hs as Hsys. assert (Hstep :
        match mapContentToGeminiParts (content m) w with
        | (inl e, w1) => (inl e, w1)
        | (inr parts, w1) =>
            if (0 <? List.length parts)%nat
            then mapMessages rest (acc ++ [Gemini.mkContent (turnRole m) parts])%list sys w1
            else mapMessages rest acc sys w1
        end = (inr (cs, ss), w')).
      { unfold isSystem in Hs. unfold turnRole. cbn [Index.mapMessages] in E.
        destruct (role m); try discriminate; exact E. }
      clear E.
      destruct (mapContentToGeminiParts (content m) w) as [[e | parts] w1] eqn:Ec;
        [ discriminate | ].
      rewrite <- (mapContent_hasParts m parts w w1 Ec).
      destruct parts as [ | part parts]; cbn [List.length Nat.ltb Nat.leb] in *.
      * apply IH in Hstep as (turns & -> & T & Hroles & Hne).
        exists turns. split; [ reflexivity | ]. split; [ | split; assumption ].
        exact (turns_none _ m rest w w1 turns w' Hsys Ec T).
      * apply IH in Hstep as (turns & -> & T & Hroles & Hne).
        exists (Gemini.mkContent (turnRole m) (part :: parts) :: turns).
        rewrite <- app_assoc. split; [ reflexivity | ].
        split; [ exact (turns_turn _ m rest w part parts w1 turns w' Hsys Ec T) | ].
        split; [ cbn [map Gemini.role]; f_equal; exact Hroles | ].
        constructor; [ discriminate | exact Hne ].
Qed.

(** X22. When [mapMessagesToGeminiContents] returns, its turns are those
    of the messages that are no system messages and whose content gives at
    least one part, in the order of the messages: each turn holds the parts
    that [mapContentToGeminiParts] gives for the content of its message,
    the role [user] is kept, [assistant] and [model] become [model], and no
    turn is empty. *)
Theorem turns_follow_messages (messages : list Message) (systemInstruction : option string)
    (w w' : Media.World) (mapped : Mapped) :
  mapMessagesToGeminiContents messages systemInstruction w = (inr mapped, w') ->
  Turns mapContentToGeminiParts messages w (contents mapped) w' /\
  map Gemini.role (contents mapped) =
    map turnRole (filter (fun m => negb (isSystem m) && hasParts m) messages) /\
  Forall (fun turn => Gemini.parts turn <> []) (contents mapped).
Proof.
  unfold Index.mapMessagesToGeminiContents.
  destruct (Index.mapMessages _ _ _ _ messages [] _ w) as [[e | [cs ss]] w1] eqn:E;
    [ discriminate | ].
  intros [= <- <-]. cbn [contents].
  apply mapMessages_turns in E as (turns & -> & T & Hroles & Hne).
  split; [ exact T | split; assumption ].
Qed.

Lemma mapMessages_separates (messages : list Message) :
  forall (acc : list Gemini.GeminiContent) (sys sys' : list string) (w : Media.World),
    mapMessages messages acc sys w =
    match mapMessages (filter (fun m => negb (isSystem m)) messages) acc sys' w with
    | (inl e, w') => (inl e, w')
    | (inr (cs, _), w') => (inr (cs, (sys ++ fragments (filter isSystem messages))%list), w')
    end.
Proof.
  induction messages as [ | m rest IH]; intros acc sys sys' w.
  - cbn. rewrite app_nil_r. reflexivity.
  - cbn [filter]. destruct (isSystem m) eqn:Hs; cbn [negb].
    + unfold isSystem in Hs. cbn [Index.mapMessages].
      destruct (role m); try discriminate.
      unfold fragments. cbn [map filter]. fold (fragments (filter isSystem rest)).
      destruct (Js.nonEmpty (Js.trim (messageText m))).
      * rewrite (IH acc _ sys'), <- app_assoc. reflexivity.
      * apply IH.
    + unfold isSystem in Hs. cbn [Index.mapMessages].
      destruct (role m); try discriminate;
        (destruct (mapContentToGeminiParts (content m) w) as [[e | parts] w1];
         [ reflexivity | ]; destruct (0 <? List.length parts)%nat; apply IH).
Qed.

(** X23. System messages and conversation messages do not interfere:
    the turns, the requests and a possible error of
    [mapMessagesToGeminiContents] are those of the messages that are no
    system messages, mapped alone, and the instruction is the top-level
    one followed by the trimmed non-empty texts of the system messages,
    wherever these stand among the others. *)
Theorem system_and_turns_are_independent (messages : list Message)
    (systemInstruction : option string) (w : Media.World) :
  mapMessagesToGeminiContents messages systemInstruction w =
  match mapMessagesToGeminiContents (filter (fun m => negb (isSystem m)) messages) None w with
  | (inl e, w') => (inl e, w')
  | (inr mapped, w') =>
      (inr (mkMapped (contents mapped)
              (merged (seed systemInstruction ++ fragments (filter isSystem messages)))), w')
  end.
Proof.
  unfold Index.mapMessagesToGeminiContents. fold (seed systemInstruction).
  rewrite (mapMessages_separates messages [] (seed systemInstruction) []).
  destruct (Index.mapMessages _ _ _ _ (filter (fun m => negb (isSystem m)) messages) [] [] w)
    as [[e | [cs ss]] w1]; [ reflexivity | ].
  rewrite IndexFacts.merged_spec; [ reflexivity | ].
  rewrite forallb_app, IndexFacts.seed_nonEmpty, IndexFacts.fragments_nonEmpty. reflexivity.
Qed.

End Runtime.

(** A conversation of five messages gives three turns: the system
    message and the message without a recognized part give none, and each
    turn holds the text of its message. *)
Lemma turns_follow_messages_witness :
  Turns (Index.mapContentToGeminiParts Scenarios.noBytes Scenarios.noText Scenarios.noType
           Scenarios.noDigits)
        Scenarios.conversation Scenarios.offline Scenarios.conversationTurns
        Scenarios.offline /\
  map Gemini.role Scenarios.conversationTurns = [Gemini.user; Gemini.model; Gemini.model] /\
  Forall (fun turn => Gemini.parts turn <> []) Scenarios.conversationTurns.
Proof.
  apply (turns_follow_messages Scenarios.noBytes Scenarios.noText Scenarios.noType
           Scenarios.noDigits Scenarios.conversation None Scenarios.offline Scenarios.offline
           (mkMapped Scenarios.conversationTurns (Some "Be brief."))).
  reflexivity.
Defined.

End MappingFacts.

(* ===================================================================== *)
(** ** Further properties of the embeddings tool *)
(* ===================================================================== *)

Module EmbeddingsToolFacts.
Import Gemini Index Spec.

Section Tool.

Variable baseUrl : string.
Variable encodeURIComponent : string -> string.
Variable parseAny : string -> Js.Thrown + Js.Value.
Context {number : Type}.
Variable parse : string -> Js.Thrown + BatchEmbedContentsResponse number.

Local Abbreviation gemini_embeddings :=
  (Index.gemini_embeddings baseUrl encodeURIComponent parseAny parse).
Local Abbreviation embeddingsRequest := (Gemini.embeddingsRequest baseUrl encodeURIComponent).

Lemma noIssue_optional {A : Type} (schema : A -> list Wave1Schemas.Issue) (v : option A) :
  Wave1Schemas.noIssue (Wave1Schemas.optional schema v) = true ->
  forall x, v = Some x -> Wave1Schemas.noIssue (schema x) = true.
Proof. intros H x ->. exact H. Qed.

(** What the schema guarantees about the arguments it returns. *)
Lemma schema_guarantees (v : Wave1Schemas.EmbeddingsInput) (args : GeminiEmbeddingsArgs) :
  Wave1Schemas.GeminiEmbeddingsSchema v = Some args ->
  Index.texts args = Wave1Schemas.texts v /\
  (1 <= List.length (Index.texts args) <= 2048)%nat /\
  Js.nonEmpty (embeddings_model args) = true /\
  Index.outputDimensionality args =
    option_map Wave1Schemas.toInteger (Wave1Schemas.outputDimensionality v) /\
  (forall d, Index.outputDimensionality args = Some d -> 8 <= d <= 3072).
Proof.
  unfold Wave1Schemas.GeminiEmbeddingsSchema.
  destruct (Wave1Schemas.noIssue (Wave1Schemas.embeddingsIssues v)) eqn:Hi; [ | discriminate ].
  intros [= <-]. cbn [Index.texts embeddings_model Index.outputDimensionality].
  unfold Wave1Schemas.embeddingsIssues in Hi.
  rewrite !Wave1SchemasFacts.noIssue_app, !Wave1SchemasFacts.noIssue_check in Hi.
  rewrite !andb_true_iff in Hi.
  destruct Hi as [[Hmin [Hmax _]] [Hmodel [_ [_ [Hdim _]]]]].
  split; [ reflexivity | ]. split; [ lia | ]. split; [ | split; [ reflexivity | ] ].
  - destruct (Wave1Schemas.model v) as [m | ]; [ | reflexivity ].
    cbn [Wave1Schemas.default Wave1Schemas.optional] in *.
    rewrite Wave1SchemasFacts.noIssue_check in Hmodel.
    destruct m; [ discriminate | reflexivity ].
  - intros d Hd.
    destruct (Wave1Schemas.outputDimensionality v) as [q | ]; [ | discriminate ].
    cbn [option_map Wave1Schemas.optional] in *. injection Hd as <-.
    apply Wave1SchemasFacts.integerBetween_accepts in Hdim. tauto.
Qed.

(** X24. A call of [gemini_embeddings] whose arguments the schema has
    accepted always reaches the upstream: the batch request is sent
    between one and four times, it holds one entry for each text (between
    1 and 2048 of them), in the order of the texts, and every entry
    carries the requested dimensionality, if one was given. *)
Theorem accepted_embeddings_call_is_sent (v : Wave1Schemas.EmbeddingsInput)
    (args : GeminiEmbeddingsArgs) (w : World) :
  Wave1Schemas.GeminiEmbeddingsSchema v = Some args ->
  exists k entries,
    (1 <= k <= 4)%nat /\
    sent (snd (gemini_embeddings args w)) =
      (sent w ++ repeat (embeddingsRequest (embeddingsParams args)) k)%list /\
    body (embeddingsRequest (embeddingsParams args)) = EmbedBody entries /\
    map req_text entries = Wave1Schemas.texts v /\
    (1 <= List.length entries <= 2048)%nat /\
    Forall (fun entry =>
              req_outputDimensionality entry =
              option_map Wave1Schemas.toInteger (Wave1Schemas.outputDimensionality v))
           entries.
Proof.
  intros Hv. destruct (schema_guarantees v args Hv) as (Ht & Hn & Hm & Hd & Hr).
  assert (Hmodel : Js.nonEmpty (embed_model (embeddingsParams args)) = true).
  { unfold embeddingsParams. cbn [embed_model]. rewrite Hm. exact Hm. }
  assert (Htexts : Gemini.texts (embeddingsParams args) <> []).
  { unfold embeddingsParams. cbn [Gemini.texts].
    destruct (Index.texts args); [ cbn in Hn; lia | discriminate ]. }
  destruct (RetryFacts.generateEmbeddings_sends baseUrl encodeURIComponent parseAny parse
              (embeddingsParams args) w Hmodel Htexts) as (k & Hk & E).
  exists k, (embedRequests (embeddingsParams args)).
  split; [ exact Hk | ]. split.
  { unfold Index.gemini_embeddings.
    destruct (Gemini.generateEmbeddings baseUrl encodeURIComponent parseAny parse
                (embeddingsParams args) w) as [[e | res] w1]; exact E. }
  split; [ reflexivity | ].
  unfold embedRequests. cbn [Gemini.texts embeddingsParams].
  rewrite map_map, length_map. cbn [req_text]. rewrite map_id.
  split; [ exact Ht | ]. split; [ exact Hn | ].
  apply Forall_forall. intros entry Hin. apply in_map_iff in Hin as [t [<- _]].
  unfold embeddingsParams. cbn [req_outputDimensionality Gemini.outputDimensionality].
  rewrite <- Hd.
  destruct (Index.outputDimensionality args) as [d | ] eqn:Ed; [ | reflexivity ].
  specialize (Hr d eq_refl). replace (d >? 0) with true by lia. reflexivity.
Qed.

(** X25. The [truncate] argument of [gemini_embeddings] is accepted and
    has no effect: whatever its value, the same requests are sent and the
    same answer is given. *)
Theorem truncate_has_no_effect (args : GeminiEmbeddingsArgs) (truncate : string) (w : World) :
  gemini_embeddings
    (mkEmbeddingsArgs (Index.texts args) (embeddings_model args) (Index.taskType args)
                      truncate (Index.outputDimensionality args)) w =
  gemini_embeddings args w.
Proof. destruct args. reflexivity. Qed.

End Tool.

(** Three texts in 768 dimensions: one request with three entries. *)
Lemma accepted_embeddings_call_is_sent_witness :
  exists k entries,
    (1 <= k <= 4)%nat /\
    sent (snd (Index.gemini_embeddings Scenarios.base Scenarios.plain Scenarios.parseNull
                 (Scenarios.parseVectors [[1]; [2]; [3]])
                 Scenarios.threeTextsArgs Scenarios.answering)) =
      (sent Scenarios.answering ++
       repeat (Gemini.embeddingsRequest Scenarios.base Scenarios.plain
                 (embeddingsParams Scenarios.threeTextsArgs)) k)%list /\
    body (Gemini.embeddingsRequest Scenarios.base Scenarios.plain
            (embeddingsParams Scenarios.threeTextsArgs)) = EmbedBody entries /\
    map req_text entries = ["a"; "b"; "c"] /\
    (1 <= List.length entries <= 2048)%nat /\
    Forall (fun entry => req_outputDimensionality entry = Some 768) entries.
Proof.
  apply (accepted_embeddings_call_is_sent Scenarios.base Scenarios.plain Scenarios.parseNull
           (Scenarios.parseVectors [[1]; [2]; [3]]) Scenarios.threeTexts
           Scenarios.threeTextsArgs Scenarios.answering).
  reflexivity.
Defined.

End EmbeddingsToolFacts.

(* ===================================================================== *)
(** ** Properties of the event collector *)
(* ===================================================================== *)

Module ObservabilityFacts.
Import Observability Spec.

Lemma keepLast_short {A : Type} (n : nat) (l : list A) :
  (List.length l <= n)%nat -> keepLast n l = l.
Proof. intros H. unfold keepLast. replace (List.length l - n)%nat with 0%nat by lia. reflexivity. Qed.

Lemma keepLast_length {A : Type} (n : nat) (l : list A) :
  List.length (keepLast n l) = Nat.min n (List.length l).
Proof. unfold keepLast. rewrite length_skipn. lia. Qed.

Lemma slice_last {A : Type} (n : Z) (l : list A) :
  0 < n -> slice (- n) l = keepLast (Z.to_nat n) l.
Proof.
  intros Hn. unfold slice, keepLast. cbv zeta.
  replace (- n <? 0) with true by lia. f_equal. lia.
Qed.

Lemma keepLast_snoc {A : Type} (n : nat) (l : list A) (x : A) :
  (0 < n)%nat -> keepLast n (keepLast n l ++ [x]) = keepLast n (l ++ [x]).
Proof.
  intros Hn. unfold keepLast at 1 3. rewrite !length_app, keepLast_length. cbn [List.length].
  unfold keepLast. destruct (Nat.le_gt_cases (List.length l) n) as [Hle | Hgt].
  - replace (List.length l - n)%nat with 0%nat by lia. cbn [skipn]. f_equal. lia.
  - rewrite !skipn_app, skipn_skipn, length_skipn. f_equal; f_equal; lia.
Qed.

Section Collector.

Variable number : Type.
Variable zero : number.

Local Abbreviation recordEvent := (Observability.recordEvent number zero).
Local Abbreviation completeEvent := (Observability.completeEvent number zero).
Local Abbreviation getRecentEvents := (Observability.getRecentEvents number).

Lemma recordEvent_keeps_last (now : string) (event : PartialEvent number)
    (events : list (ObservabilityEvent number)) :
  (List.length events <= 1000)%nat ->
  recordEvent now event events = keepLast 1000 (events ++ [completeEvent now event]).
Proof.
  intros H. unfold Observability.recordEvent, maxEvents. cbv zeta.
  destruct (Z.gtb_spec (Z.of_nat (List.length (events ++ [completeEvent now event]))) 1000)
    as [Hgt | Hle].
  - apply (slice_last 1000). lia.
  - symmetry. apply keepLast_short. lia.
Qed.

Lemma recordAll_keeps_last (calls : list (string * PartialEvent number)) :
  forall all : list (ObservabilityEvent number),
    recordAll zero calls (keepLast 1000 all) =
    keepLast 1000 (all ++ map (fun call => completeEvent (fst call) (snd call)) calls).
Proof.
  unfold recordAll. induction calls as [ | call calls IH]; intros all.
  - cbn. rewrite app_nil_r. reflexivity.
  - cbn [fold_left map].
    rewrite recordEvent_keeps_last by (rewrite keepLast_length; lia).
    rewrite keepLast_snoc by lia.
    rewrite IH, <- app_assoc. reflexivity.
Qed.

(** X26. The collector is a rolling buffer: after any series of calls of
    [recordEvent] on a collector that was empty, it holds the last 1000 of
    the completed events, in the order of the calls, and so never more
    than 1000. *)
Theorem collector_keeps_the_last_1000 (calls : list (string * PartialEvent number)) :
  recordAll zero calls [] =
    keepLast 1000 (map (fun call => completeEvent (fst call) (snd call)) calls) /\
  (List.length (recordAll zero calls []) <= 1000)%nat.
Proof.
  pose proof (recordAll_keeps_last calls []) as H. cbn [app] in H.
  change (keepLast 1000 (@nil (ObservabilityEvent number))) with (@nil (ObservabilityEvent number)) in H.
  split; [ exact H | ]. rewrite H, keepLast_length. lia.
Qed.

(** X27. [getRecentEvents(limit)] gives the last [limit] events for a
    positive [limit] (all of them when there are fewer); for [limit = 0] it
    gives every event, not none, and for a negative [limit] it drops that
    many events from the front. *)
Theorem getRecentEvents_limits (limit : Z) (events : list (ObservabilityEvent number)) :
  (0 < limit -> getRecentEvents limit events = keepLast (Z.to_nat limit) events) /\
  (limit = 0 -> getRecentEvents limit events = events) /\
  (limit < 0 -> getRecentEvents limit events = skipn (Z.to_nat (- limit)) events).
Proof.
  unfold Observability.getRecentEvents. split; [ | split ].
  - intros H. apply slice_last, H.
  - intros ->. unfold slice. cbn. rewrite Z.min_l by lia. reflexivity.
  - intros H. unfold slice. cbv zeta. replace (- limit <? 0) with false by lia.
    destruct (Z.min_spec (- limit) (Z.of_nat (List.length events))) as [[_ ->] | [Hge ->]];
      [ reflexivity | ].
    rewrite Nat2Z.id, skipn_all. symmetry. apply skipn_all2. lia.
Qed.

End Collector.

End ObservabilityFacts.
